(** * KubeFed: the FederatedTypeConfig controller and its test oracles

    A shallow embedding of
      - pkg/controller/federatedtypeconfig/controller.go (the type-config
        controller: one sync controller and one optional status controller
        per type descriptor),
      - the poll conditions of test/common/crudtester.go,
      - the handler test of pkg/controller/utils (TestHandlers),
    with the properties the specification states about them. *)

From Stdlib Require Import ZArith Lia.
From stdpp Require Import base tactics option list strings gmap.

Local Open Scope string_scope.
Local Open Scope list_scope.

(** ** Type descriptors (FederatedTypeConfig) *)

Module TypeConfig.

Record APIResource := mkAPIResource {
  Group : string;
  Version : string;
  Kind : string;
  Namespaced : bool
}.

Inductive ControllerStatus := ControllerStatusRunning | ControllerStatusNotRunning.

Record FederatedTypeConfigSpec := mkSpec {
  TargetType : APIResource;
  FederatedType : APIResource;
  StatusType : option APIResource;
  PropagationEnabled : bool;
  StatusCollectionEnabled : bool
}.

Record FederatedTypeConfigStatus := mkStatus {
  ObservedGeneration : Z;
  PropagationController : ControllerStatus;
  StatusController : option ControllerStatus
}.

Record FederatedTypeConfig := mkFTC {
  Namespace : string;
  Name : string;
  Generation : Z;
  DeletionTimestamp : option Z;
  Finalizers : list string;
  Spec : FederatedTypeConfigSpec;
  Status : FederatedTypeConfigStatus
}.

(** Modelled from the spec: the accessors of the type descriptor live in
    pkg/apis/core/v1beta1, which is not part of the sources. The data model
    of the spec gives the descriptor a target API with a namespaced flag, a
    federated API, an optional status API, a propagation-enabled flag and a
    status-collection flag; the namespaces descriptor is the one named
    [NamespaceName]. *)
Definition NamespaceName : string := "namespaces".
Definition GetPropagationEnabled (tc : FederatedTypeConfig) : bool :=
  PropagationEnabled (Spec tc).
Definition GetStatusEnabled (tc : FederatedTypeConfig) : bool :=
  StatusCollectionEnabled (Spec tc).
Definition GetNamespaced (tc : FederatedTypeConfig) : bool :=
  Namespaced (TargetType (Spec tc)).
Definition GetFederatedType (tc : FederatedTypeConfig) : APIResource :=
  FederatedType (Spec tc).
Definition GetStatusType (tc : FederatedTypeConfig) : option APIResource :=
  StatusType (Spec tc).
Definition IsNamespace (tc : FederatedTypeConfig) : bool :=
  String.eqb (Name tc) NamespaceName.

(** Field updates on the local copy of a descriptor. *)
Definition setFinalizers (fs : list string) (tc : FederatedTypeConfig) :=
  mkFTC (Namespace tc) (Name tc) (Generation tc) (DeletionTimestamp tc) fs
        (Spec tc) (Status tc).
Definition setStatus (st : FederatedTypeConfigStatus) (tc : FederatedTypeConfig) :=
  mkFTC (Namespace tc) (Name tc) (Generation tc) (DeletionTimestamp tc)
        (Finalizers tc) (Spec tc) st.

(** controllerutil.ContainsFinalizer / AddFinalizer / RemoveFinalizer. *)
Definition ContainsFinalizer (tc : FederatedTypeConfig) (f : string) : bool :=
  existsb (String.eqb f) (Finalizers tc).
Definition AddFinalizer (tc : FederatedTypeConfig) (f : string) : FederatedTypeConfig :=
  if ContainsFinalizer tc f then tc else setFinalizers (Finalizers tc ++ [f]) tc.
Definition RemoveFinalizer (tc : FederatedTypeConfig) (f : string) : FederatedTypeConfig :=
  setFinalizers (List.filter (fun g => negb (String.eqb g f)) (Finalizers tc)) tc.

(** utils.QualifiedName and its String method: the key of an object in the
    informer store. *)
Record QualifiedName := mkQN { qnNamespace : string; qnName : string }.

Definition QualifiedName_String (n : QualifiedName) : string :=
  if String.eqb (qnNamespace n) "" then qnName n
  else qnNamespace n +:+ "/" +:+ qnName n.

Definition NewQualifiedName (tc : FederatedTypeConfig) : QualifiedName :=
  mkQN (Namespace tc) (Name tc).

End TypeConfig.

(** ** The type-config controller *)

Module FTCController.
Import TypeConfig.

Definition isSome {A} (o : option A) : bool :=
  match o with Some _ => true | None => false end.

(** A Go [error]: [None] is nil. *)
Definition error := option string.

(** errors.Wrapf and errors.Errorf, as far as the message goes. *)
Definition Wrapf (err : string) (msg : string) : string := msg +:+ ": " +:+ err.

(** A [chan struct{}] is known by its identity; the heap [chans] of a state
    records for each allocated channel whether it has been closed. *)
Abbreviation chan := nat.

Inductive ReconciliationStatus := StatusAllOK | StatusNeedsRecheck | StatusError.

(** utils.ControllerConfig, the fields the controller reads. *)
Record ControllerConfig := mkConfig {
  KubeFedNamespace : string;
  TargetNamespace : string;
  RawResourceStatusCollection : bool
}.

(** metav1.NamespaceAll *)
Definition NamespaceAll : string := "".

(** What a reconcile does to the world outside the channel map, oldest
    event last. Map writes and deletes are logged too, so that the map at
    the time of an earlier event can be told from the log. *)
Inductive Event :=
| EvClose (ch : chan)
| EvStore (key : string) (ch : chan)
| EvDelete (key : string)
| EvSyncStarted (name : string) (ch : chan)
| EvStatusStarted (name : string) (ch : chan)
| EvPatch (tc : FederatedTypeConfig) (err : error)
| EvUpdateStatus (tc : FederatedTypeConfig) (err : error).

(** The mutable part of [Controller]: the stopChannels map, the channel
    heap, the keys handed to the worker, and the log. *)
Record Controller := mkController {
  stopChannels : gmap string chan;
  chans : list bool;
  queue : list QualifiedName;
  log : list Event
}.

(** The part a reconcile only reads: the configuration, the informer store
    (keyed by [QualifiedName_String]) and the collaborators that are called
    but not defined in this package, each as the outcome it gives. The
    reply of the API server to Patch and UpdateStatus is not written back
    into the local copy. *)
Record Env := mkEnv {
  controllerConfig : ControllerConfig;
  store : gmap string FederatedTypeConfig;
  storeGetByKeyErr : string -> error;
  SetFederatedTypeConfigDefaults : FederatedTypeConfig -> FederatedTypeConfig;
  clientPatch : FederatedTypeConfig -> error;
  clientUpdateStatus : FederatedTypeConfig -> error;
  StartKubeFedSyncController :
    FederatedTypeConfig -> option APIResource -> chan -> error;
  StartKubeFedStatusController : FederatedTypeConfig -> chan -> error
}.

(** *** A state monad with panics *)

Inductive Result (A : Type) :=
| Panic
| Ret (a : A) (c : Controller).
Arguments Panic {A}.
Arguments Ret {A} a c.

Definition M (A : Type) := Controller -> Result A.

Definition ret {A} (a : A) : M A := fun c => Ret a c.
Definition bind {A B} (m : M A) (k : A -> M B) : M B :=
  fun c => match m c with
           | Panic => Panic
           | Ret a c' => k a c'
           end.

Notation "'do' x <- m ; k" := (bind m (fun x => k))
  (at level 10, x pattern, m at level 100, k at level 200).
Notation "m ;; k" := (bind m (fun _ => k))
  (at level 100, k at level 200, right associativity).

Definition emit (e : Event) : M unit :=
  fun c => Ret tt (mkController (stopChannels c) (chans c) (queue c) (e :: log c)).

(** make(chan struct{}) *)
Definition makeChan : M chan :=
  fun c => Ret (length (chans c))
               (mkController (stopChannels c) (chans c ++ [false]) (queue c) (log c)).

(** close(ch): closing a closed (or nil) channel panics. *)
Definition closeChan (ch : chan) : M unit :=
  fun c => match chans c !! ch with
           | Some false =>
               Ret tt (mkController (stopChannels c) (<[ch := true]> (chans c))
                                    (queue c) (EvClose ch :: log c))
           | _ => Panic
           end.

(** c.stopChannels[key] = ch *)
Definition mapStore (key : string) (ch : chan) : M unit :=
  fun c => Ret tt (mkController (<[key := ch]> (stopChannels c)) (chans c)
                                (queue c) (EvStore key ch :: log c)).

(** delete(c.stopChannels, key) *)
Definition mapDelete (key : string) : M unit :=
  fun c => Ret tt (mkController (delete key (stopChannels c)) (chans c)
                                (queue c) (EvDelete key :: log c)).

(** c.worker.EnqueueObject(obj) *)
Definition EnqueueObject (tc : FederatedTypeConfig) : M unit :=
  fun c => Ret tt (mkController (stopChannels c) (chans c)
                                (queue c ++ [NewQualifiedName tc]) (log c)).

Fixpoint forEach {A} (l : list A) (f : A -> M unit) : M unit :=
  match l with
  | [] => ret tt
  | x :: l' => f x ;; forEach l' f
  end.

(** newController: no channel, nothing queued. *)
Definition newController : Controller := mkController ∅ [] [] [].

(** shutDown: close and forget every registered channel. *)
Definition shutDown : M unit :=
  fun c => forEach (map_to_list (stopChannels c))
                   (fun kv => closeChan kv.2 ;; mapDelete kv.1) c.

Section WithEnv.
Variable env : Env.

Definition finalizer : string := "core.kubefed.io/federated-type-config".

Definition objCopyFromCache (key : string) : option FederatedTypeConfig * error :=
  match storeGetByKeyErr env key with
  | Some err => (None, Some err)
  | None => (store env !! key, None)
  end.

(** The pair (stopChan, ok) of the source is an option. *)
Definition getStopChannel (name : string) : M (option chan) :=
  fun c => Ret (stopChannels c !! name) c.

Definition getFederatedNamespaceAPIResource : option APIResource * error :=
  let qualifiedName := mkQN (KubeFedNamespace (controllerConfig env)) NamespaceName in
  let key := QualifiedName_String qualifiedName in
  match storeGetByKeyErr env key with
  | Some err => (None, Some (Wrapf err "Error retrieving from the informer cache"))
  | None =>
      match store env !! key with
      | None => (None, Some "Unable to find in the informer cache")
      | Some namespaceTypeConfig => (Some (GetFederatedType namespaceTypeConfig), None)
      end
  end.

Definition namespaceFTCExists : bool :=
  match getFederatedNamespaceAPIResource.2 with
  | None => true
  | Some _ => false
  end.

Definition startSyncController (tc : FederatedTypeConfig) : M error :=
  let ftc := tc in
  let body (fedNamespaceAPIResource : option APIResource) : M error :=
    do stopChan <- makeChan;
    match StartKubeFedSyncController env ftc fedNamespaceAPIResource stopChan with
    | Some err =>
        closeChan stopChan ;;
        ret (Some (Wrapf err "Error starting sync controller"))
    | None =>
        emit (EvSyncStarted (Name ftc) stopChan) ;;
        mapStore (Name ftc) stopChan ;;
        ret None
    end in
  if GetNamespaced ftc then
    match getFederatedNamespaceAPIResource with
    | (_, Some err) =>
        ret (Some (Wrapf err "Unable to start sync controller due to missing FederatedTypeConfig for namespaces"))
    | (fedNamespaceAPIResource, None) => body fedNamespaceAPIResource
    end
  else body None.

Definition startStatusController (statusKey : string) (tc : FederatedTypeConfig) : M error :=
  do stopChan <- makeChan;
  let ftc := tc in
  match StartKubeFedStatusController env ftc stopChan with
  | Some err =>
      closeChan stopChan ;;
      ret (Some (Wrapf err "Error starting status controller"))
  | None =>
      emit (EvStatusStarted (Name ftc) stopChan) ;;
      mapStore statusKey stopChan ;;
      ret None
  end.

Definition stopController (key : string) (stopChan : chan) : M unit :=
  closeChan stopChan ;;
  mapDelete key.

(** [if running { c.stopController(key, stopChan) }] on the pair a lookup
    returned. *)
Definition stopFound (key : string) (stopChan : option chan) : M unit :=
  match stopChan with
  | Some ch => stopController key ch
  | None => ret tt
  end.

Definition refreshSyncController (tc : FederatedTypeConfig) : M error :=
  do syncStopChan <- getStopChannel (Name tc);
  stopFound (Name tc) syncStopChan ;;
  startSyncController tc.

(** Returns the local copy too: the source adds the finalizer in place. *)
Definition ensureFinalizer (tc : FederatedTypeConfig)
  : M (FederatedTypeConfig * bool * error) :=
  if ContainsFinalizer tc finalizer then ret (tc, false, None)
  else
    let tc' := AddFinalizer tc finalizer in
    let err := clientPatch env tc' in
    emit (EvPatch tc' err) ;;
    ret (tc', true, err).

Definition removeFinalizer (tc : FederatedTypeConfig) : M error :=
  if negb (ContainsFinalizer tc finalizer) then ret None
  else
    let tc' := RemoveFinalizer tc finalizer in
    let err := clientPatch env tc' in
    emit (EvPatch tc' err) ;;
    ret err.

Definition reconcileOnNamespaceFTCUpdate : M unit :=
  forEach (map_to_list (store env)).*2
          (fun typeConfig =>
             if GetNamespaced typeConfig && negb (IsNamespace typeConfig)
             then EnqueueObject typeConfig
             else ret tt).

Definition isEnabledFederatedServiceStatusCollection (tc : FederatedTypeConfig) : bool :=
  if GetStatusEnabled tc && String.eqb (Name tc) "services" then
    match GetStatusType tc with
    | None => false
    | Some _ => true
    end
  else false.

(** c.client.UpdateStatus, with the status fields the reconcile has set. *)
Definition updateStatus (typeConfig : FederatedTypeConfig) : M ReconciliationStatus :=
  let err := clientUpdateStatus env typeConfig in
  emit (EvUpdateStatus typeConfig err) ;;
  match err with
  | Some _ => ret StatusError
  | None => ret StatusAllOK
  end.

Definition statusOf (running : bool) : ControllerStatus :=
  if running then ControllerStatusRunning else ControllerStatusNotRunning.

(** reconcile, lines 160-183: a cluster-scoped type under a namespaced
    control plane. *)
Definition reconcileClusterScoped (typeConfig : FederatedTypeConfig)
  : M ReconciliationStatus :=
  do found <- getStopChannel (Name typeConfig);
  match found with
  | Some _ => ret tt
  | None => do holderChan <- makeChan; mapStore (Name typeConfig) holderChan
  end ;;
  let typeConfig :=
    setStatus (mkStatus (Generation typeConfig) ControllerStatusNotRunning
                        (Some ControllerStatusNotRunning)) typeConfig in
  updateStatus typeConfig.

(** reconcile, lines 190-209: the descriptor is being deleted. *)
Definition reconcileDeleted (typeConfig : FederatedTypeConfig) (statusKey : string)
    (syncStopChan statusStopChan : option chan) : M ReconciliationStatus :=
  stopFound (Name typeConfig) syncStopChan ;;
  stopFound statusKey statusStopChan ;;
  (if IsNamespace typeConfig then reconcileOnNamespaceFTCUpdate else ret tt) ;;
  do err <- removeFinalizer typeConfig;
  match err with
  | Some _ => ret StatusError
  | None => ret StatusAllOK
  end.

(** reconcile, lines 253-276: publish the status. *)
Definition publishStatus (typeConfig : FederatedTypeConfig)
    (syncControllerRunning statusControllerRunning : bool) : M ReconciliationStatus :=
  updateStatus
    (setStatus (mkStatus (Generation typeConfig) (statusOf syncControllerRunning)
                         (Some (statusOf statusControllerRunning))) typeConfig).

(** The flags of lines 223-224 and 234-235. *)
Definition startNewSyncController (syncRunning syncEnabled : bool) : bool :=
  negb syncRunning && syncEnabled.
Definition stopSyncController (typeConfig : FederatedTypeConfig)
    (syncRunning syncEnabled : bool) : bool :=
  syncRunning && (negb syncEnabled
                  || (GetNamespaced typeConfig && negb namespaceFTCExists)).
Definition startNewStatusController (statusRunning statusControllerEnabled : bool) : bool :=
  negb statusRunning && statusControllerEnabled.
Definition stopStatusController (statusRunning statusControllerEnabled : bool) : bool :=
  statusRunning && negb statusControllerEnabled.

(** reconcile, lines 225-232. *)
Definition manageSyncController (typeConfig : FederatedTypeConfig)
    (syncEnabled : bool) (syncStopChan : option chan) : M error :=
  let syncRunning := isSome syncStopChan in
  if startNewSyncController syncRunning syncEnabled then
    startSyncController typeConfig
  else if stopSyncController typeConfig syncRunning syncEnabled then
    stopFound (Name typeConfig) syncStopChan ;; ret None
  else ret None.

(** reconcile, lines 236-243. *)
Definition manageStatusController (typeConfig : FederatedTypeConfig)
    (statusKey : string) (statusControllerEnabled : bool)
    (statusStopChan : option chan) : M error :=
  let statusRunning := isSome statusStopChan in
  if startNewStatusController statusRunning statusControllerEnabled then
    startStatusController statusKey typeConfig
  else if stopStatusController statusRunning statusControllerEnabled then
    stopFound statusKey statusStopChan ;; ret None
  else ret None.

(** reconcile, lines 245-251. *)
Definition refreshNeeded (typeConfig : FederatedTypeConfig)
    (syncRunning syncEnabled : bool) : bool :=
  negb (startNewSyncController syncRunning syncEnabled)
  && negb (stopSyncController typeConfig syncRunning syncEnabled)
  && negb (ObservedGeneration (Status typeConfig) =? Generation typeConfig)%Z.

Definition refreshIfNeeded (typeConfig : FederatedTypeConfig)
    (syncRunning syncEnabled : bool) : M error :=
  if refreshNeeded typeConfig syncRunning syncEnabled
  then refreshSyncController typeConfig
  else ret None.

(** reconcile, lines 223-276: start, stop or refresh the two controllers
    and publish the outcome. *)
Definition reconcileControllers (typeConfig : FederatedTypeConfig) (statusKey : string)
    (syncEnabled statusControllerEnabled : bool)
    (syncStopChan statusStopChan : option chan) : M ReconciliationStatus :=
  let syncRunning := isSome syncStopChan in
  let statusRunning := isSome statusStopChan in
  do err <- manageSyncController typeConfig syncEnabled syncStopChan;
  match err with
  | Some _ => ret StatusError
  | None =>
    do err <- manageStatusController typeConfig statusKey statusControllerEnabled
                                     statusStopChan;
    match err with
    | Some _ => ret StatusError
    | None =>
      do err <- refreshIfNeeded typeConfig syncRunning syncEnabled;
      match err with
      | Some _ => ret StatusError
      | None =>
        let syncControllerRunning :=
          startNewSyncController syncRunning syncEnabled
          || (syncRunning && negb (stopSyncController typeConfig syncRunning syncEnabled)) in
        let statusControllerRunning :=
          startNewStatusController statusRunning statusControllerEnabled
          || (statusRunning
              && negb (stopStatusController statusRunning statusControllerEnabled)) in
        publishStatus typeConfig syncControllerRunning statusControllerRunning
      end
    end
  end.

(** reconcile, lines 211-276: the descriptor is live. *)
Definition reconcileLive (typeConfig : FederatedTypeConfig) (statusKey : string)
    (syncEnabled statusControllerEnabled : bool)
    (syncStopChan statusStopChan : option chan) : M ReconciliationStatus :=
  do (typeConfig, updated, err) <- ensureFinalizer typeConfig;
  match err with
  | Some _ => ret StatusError
  | None =>
    (if updated && IsNamespace typeConfig then reconcileOnNamespaceFTCUpdate else ret tt) ;;
    reconcileControllers typeConfig statusKey syncEnabled statusControllerEnabled
                         syncStopChan statusStopChan
  end.

(** The conditions of lines 157 and 159-160. *)
Definition statusControllerEnabled (typeConfig : FederatedTypeConfig) : bool :=
  negb (RawResourceStatusCollection (controllerConfig env))
  && isEnabledFederatedServiceStatusCollection typeConfig.
Definition limitedScope : bool :=
  negb (String.eqb (TargetNamespace (controllerConfig env)) NamespaceAll).
Definition skipsClusterScoped (typeConfig : FederatedTypeConfig) : bool :=
  limitedScope && GetPropagationEnabled typeConfig && negb (GetNamespaced typeConfig).

Definition reconcile (qualifiedName : QualifiedName) : M ReconciliationStatus :=
  let key := QualifiedName_String qualifiedName in
  match objCopyFromCache key with
  | (_, Some _) => ret StatusError
  | (None, None) => ret StatusAllOK
  | (Some cachedObj, None) =>
    let typeConfig := SetFederatedTypeConfigDefaults env cachedObj in
    let syncEnabled := GetPropagationEnabled typeConfig in
    if skipsClusterScoped typeConfig then
      reconcileClusterScoped typeConfig
    else
      let statusKey := Name typeConfig +:+ "/status" in
      do syncStopChan <- getStopChannel (Name typeConfig);
      do statusStopChan <- getStopChannel statusKey;
      let deleted := isSome (DeletionTimestamp typeConfig) in
      if deleted then
        reconcileDeleted typeConfig statusKey syncStopChan statusStopChan
      else
        reconcileLive typeConfig statusKey syncEnabled
                      (statusControllerEnabled typeConfig)
                      syncStopChan statusStopChan
    end.

End WithEnv.

(** *** Reachable states, histories and the invariant *)

(** The states the controller can be in: it starts from [newController],
    and then runs reconciles, one at a time, against whatever the store and
    the collaborators are at that moment, until it is shut down. *)
Inductive reachable : Controller -> Prop :=
| reach_new : reachable newController
| reach_reconcile env qualifiedName c r c' :
    reachable c -> reconcile env qualifiedName c = Ret r c' -> reachable c'
| reach_shutDown c c' :
    reachable c -> shutDown c = Ret tt c' -> reachable c'.

(** The channel map as the log tells it. *)
Definition applyEvent (e : Event) (m : gmap string chan) : gmap string chan :=
  match e with
  | EvStore k ch => <[k := ch]> m
  | EvDelete k => delete k m
  | _ => m
  end.

Definition replay (l : list Event) : gmap string chan := foldr applyEvent ∅ l.

Definition statusKeyOf (name : string) : string := name +:+ "/status".

(** The controllers a log has started, each with the map key it is
    registered under and its stop channel. *)
Definition startOf (e : Event) : option (string * chan) :=
  match e with
  | EvSyncStarted n ch => Some (n, ch)
  | EvStatusStarted n ch => Some (statusKeyOf n, ch)
  | _ => None
  end.

Definition starts (l : list Event) : list (string * chan) := omap startOf l.

Definition syncStarts (l : list Event) : list (string * chan) :=
  omap (fun e => match e with EvSyncStarted n ch => Some (n, ch) | _ => None end) l.

Definition statusStarts (l : list Event) : list (string * chan) :=
  omap (fun e => match e with EvStatusStarted n ch => Some (n, ch) | _ => None end) l.

Definition closes (l : list Event) : list chan :=
  omap (fun e => match e with EvClose ch => Some ch | _ => None end) l.

(** Every controller in the log was started at a moment when the map had
    no entry under its key. *)
Fixpoint startsFresh (l : list Event) : Prop :=
  match l with
  | [] => True
  | e :: older =>
      match startOf e with
      | Some (k, _) => replay older !! k = None
      | None => True
      end /\ startsFresh older
  end.

Definition isOpen (c : Controller) (ch : chan) : bool :=
  match chans c !! ch with
  | Some false => true
  | _ => false
  end.

(** The sync (status) controllers of descriptor [name] that were started
    and whose stop channel has not been closed. *)
Definition runningSync (c : Controller) (name : string) : list chan :=
  (List.filter (fun p => String.eqb p.1 name && isOpen c p.2) (syncStarts (log c))).*2.

Definition runningStatus (c : Controller) (name : string) : list chan :=
  (List.filter (fun p => String.eqb p.1 name && isOpen c p.2) (statusStarts (log c))).*2.

(** The entries of the map under one key. *)
Definition entriesUnder (c : Controller) (key : string) : list (string * chan) :=
  List.filter (fun kv => String.eqb kv.1 key) (map_to_list (stopChannels c)).

Record inv (c : Controller) : Prop := mkInv {
  inv_replay : replay (log c) = stopChannels c;
  inv_fresh : startsFresh (log c);
  inv_open : forall k ch, stopChannels c !! k = Some ch -> chans c !! ch = Some false;
  inv_inj : forall k1 k2 ch,
      stopChannels c !! k1 = Some ch -> stopChannels c !! k2 = Some ch -> k1 = k2;
  inv_started : forall k ch,
      (k, ch) ∈ starts (log c) ->
      (ch < length (chans c))%nat
      /\ (chans c !! ch = Some false -> stopChannels c !! k = Some ch);
  inv_nodup : NoDup (starts (log c)).*2
}.

(** *** What the helpers do to a state

    The definitions below are used to state the properties: the states the
    helpers lead to, the events they log, and the conditions under which
    the collaborators let a controller start. *)

(** A fresh channel registered under [key], after the events [ev]. *)
Definition registered (key : string) (ev : list Event) (c : Controller) : Controller :=
  mkController (<[key := length (chans c)]> (stopChannels c)) (chans c ++ [false])
               (queue c) (EvStore key (length (chans c)) :: ev ++ log c).

(** A channel made for a start that failed, and closed again. *)
Definition failedStart (c : Controller) : Controller :=
  mkController (stopChannels c) (<[length (chans c) := true]> (chans c ++ [false]))
               (queue c) (EvClose (length (chans c)) :: log c).

(** stopController on a registered, open channel. *)
Definition stopped (key : string) (ch : chan) (c : Controller) : Controller :=
  mkController (delete key (stopChannels c)) (<[ch := true]> (chans c))
               (queue c) (EvDelete key :: EvClose ch :: log c).

(** One more event in the log. *)
Definition logged (e : Event) (c : Controller) : Controller :=
  mkController (stopChannels c) (chans c) (queue c) (e :: log c).

(** More keys handed to the worker. *)
Definition enqueued (q : list QualifiedName) (c : Controller) : Controller :=
  mkController (stopChannels c) (chans c) (queue c ++ q) (log c).

(** From [c] to [c'] the invariant holds at the end, the queue and the log
    have only grown (the log by [delta]), the map has changed under the
    keys [K] at most, closed channels are still closed and no channel was
    forgotten. *)
Record evolves (K : list string) (c c' : Controller) (delta : list Event) : Prop := mkEvolves {
  ev_inv : inv c';
  ev_queue : exists q, queue c' = queue c ++ q;
  ev_log : log c' = delta ++ log c;
  ev_other : forall k, k ∉ K -> stopChannels c' !! k = stopChannels c !! k;
  ev_closed : forall ch, chans c !! ch = Some true -> chans c' !! ch = Some true;
  ev_alloc : (length (chans c) <= length (chans c'))%nat
}.

(** What decides whether a start succeeds: the namespaces descriptor for a
    namespaced type, and the collaborator that starts the controller on
    the channel [ch]. *)
Definition namespaceMissing (env : Env) (tc : FederatedTypeConfig) : bool :=
  GetNamespaced tc && negb (namespaceFTCExists env).

Definition fedNamespaceResource (env : Env) (tc : FederatedTypeConfig) : option APIResource :=
  if GetNamespaced tc then (getFederatedNamespaceAPIResource env).1 else None.

Definition syncStartable (env : Env) (tc : FederatedTypeConfig) (ch : chan) : bool :=
  negb (namespaceMissing env tc)
  && negb (isSome (StartKubeFedSyncController env tc (fedNamespaceResource env tc) ch)).

Definition statusStartable (env : Env) (tc : FederatedTypeConfig) (ch : chan) : bool :=
  negb (isSome (StartKubeFedStatusController env tc ch)).

(** The three ways a start can end: the controller runs and is registered;
    the start was given up before a channel was made; the channel was made,
    the start failed and the channel was closed again. *)
Inductive startResult (key : string) (e : Event) (c : Controller)
  : error -> Controller -> list Event -> Prop :=
| sr_started :
    startResult key e c None (registered key [e] c)
                [EvStore key (length (chans c)); e]
| sr_refused msg : startResult key e c (Some msg) c []
| sr_failed msg :
    startResult key e c (Some msg) (failedStart c) [EvClose (length (chans c))].

(** stopFound, as a state and as events. *)
Definition afterStop (key : string) (found : option chan) (c : Controller) : Controller :=
  match found with
  | Some ch => stopped key ch c
  | None => c
  end.

Definition stopEvents (key : string) (found : option chan) : list Event :=
  match found with
  | Some ch => [EvDelete key; EvClose ch]
  | None => []
  end.

(** What reconcileOnNamespaceFTCUpdate hands to the worker. *)
Definition toEnqueue (env : Env) : list QualifiedName :=
  NewQualifiedName <$>
    List.filter (fun tc => GetNamespaced tc && negb (IsNamespace tc))
                (map_to_list (store env)).*2.

(** The descriptor a reconcile works on, if the store gives one. *)
Definition fetched (env : Env) (qualifiedName : QualifiedName) : option FederatedTypeConfig :=
  match objCopyFromCache env (QualifiedName_String qualifiedName) with
  | (Some cachedObj, None) => Some (SetFederatedTypeConfigDefaults env cachedObj)
  | _ => None
  end.

(** Lines 161-168: the placeholder, unless something is registered. *)
Definition afterHolder (name : string) (c : Controller) : Controller :=
  match stopChannels c !! name with
  | Some _ => c
  | None => registered name [] c
  end.

(** Lines 170-176: the status of a descriptor whose controllers do not
    run. *)
Definition notRunningStatus (tc : FederatedTypeConfig) : FederatedTypeConfig :=
  setStatus (mkStatus (Generation tc) ControllerStatusNotRunning
                      (Some ControllerStatusNotRunning)) tc.

(** AllOK unless the call failed. *)
Definition statusResult (err : error) : ReconciliationStatus :=
  match err with Some _ => StatusError | None => StatusAllOK end.

(** The deletion path, as a state, as events and as a result. *)
Definition afterDeleted (env : Env) (tc : FederatedTypeConfig) (c : Controller) : Controller :=
  let c1 := afterStop (Name tc) (stopChannels c !! Name tc) c in
  let c2 := afterStop (statusKeyOf (Name tc)) (stopChannels c !! statusKeyOf (Name tc)) c1 in
  let c3 := if IsNamespace tc then enqueued (toEnqueue env) c2 else c2 in
  if ContainsFinalizer tc finalizer
  then logged (EvPatch (RemoveFinalizer tc finalizer)
                       (clientPatch env (RemoveFinalizer tc finalizer))) c3
  else c3.

Definition deletedEvents (env : Env) (tc : FederatedTypeConfig) (c : Controller) : list Event :=
  (if ContainsFinalizer tc finalizer
   then [EvPatch (RemoveFinalizer tc finalizer) (clientPatch env (RemoveFinalizer tc finalizer))]
   else [])
  ++ stopEvents (statusKeyOf (Name tc)) (stopChannels c !! statusKeyOf (Name tc))
  ++ stopEvents (Name tc) (stopChannels c !! Name tc).

Definition deletedResult (env : Env) (tc : FederatedTypeConfig) : ReconciliationStatus :=
  if ContainsFinalizer tc finalizer
  then statusResult (clientPatch env (RemoveFinalizer tc finalizer))
  else StatusAllOK.

(** The two keys of a descriptor. *)
Definition bothKeys (tc : FederatedTypeConfig) : list string :=
  [Name tc; statusKeyOf (Name tc)].

(** ensureFinalizer returns no error. *)
Definition finalizerEnsured (env : Env) (tc : FederatedTypeConfig) : bool :=
  ContainsFinalizer tc finalizer
  || negb (isSome (clientPatch env (AddFinalizer tc finalizer))).

(** The state in which a live descriptor reaches line 223. *)
Definition afterFinalizer (env : Env) (tc : FederatedTypeConfig) (c : Controller) : Controller :=
  if ContainsFinalizer tc finalizer then c
  else
    let c0 := logged (EvPatch (AddFinalizer tc finalizer)
                              (clientPatch env (AddFinalizer tc finalizer))) c in
    if isSome (clientPatch env (AddFinalizer tc finalizer)) then c0
    else if IsNamespace tc then enqueued (toEnqueue env) c0 else c0.

(** The events of ensureFinalizer. *)
Definition finalizerEvents (env : Env) (tc : FederatedTypeConfig) : list Event :=
  if ContainsFinalizer tc finalizer then []
  else [EvPatch (AddFinalizer tc finalizer) (clientPatch env (AddFinalizer tc finalizer))].

(** A status controller with the key it is registered under. *)
Definition statusEntry (p : string * nat) : string * nat := (statusKeyOf p.1, p.2).

(** The three phases of reconcileControllers, with the states between
    them. *)
Inductive phases (env : Env) (tc : FederatedTypeConfig) (se ste : bool)
    (c : Controller) (r : ReconciliationStatus) (c' : Controller)
    (delta : list Event) : Prop :=
| mkPhases (e1 : error) (c1 : Controller) (d1 : list Event)
    (e2 : error) (c2 : Controller) (d2 : list Event)
    (e3 : error) (c3 : Controller) (d3 : list Event)
    (pub : list Event)
    (ph_sync : manageSyncController env tc se (stopChannels c !! Name tc) c = Ret e1 c1)
    (ph_sync_ev : evolves [Name tc] c c1 d1)
    (ph_sync_st : statusStarts d1 = [])
    (ph_status :
       e1 = None ->
       manageStatusController env tc (statusKeyOf (Name tc)) ste
         (stopChannels c !! statusKeyOf (Name tc)) c1 = Ret e2 c2)
    (ph_status_skip : e1 <> None -> e2 = e1 /\ c2 = c1 /\ d2 = [])
    (ph_status_ev : evolves [statusKeyOf (Name tc)] c1 c2 d2)
    (ph_status_sy : syncStarts d2 = [])
    (ph_refresh :
       e2 = None ->
       refreshIfNeeded env tc (isSome (stopChannels c !! Name tc)) se c2 = Ret e3 c3)
    (ph_refresh_skip : e2 <> None -> e3 = e2 /\ c3 = c2 /\ d3 = [])
    (ph_refresh_ev : evolves [Name tc] c2 c3 d3)
    (ph_refresh_st : statusStarts d3 = [])
    (ph_result_err : e3 <> None -> r = StatusError /\ c' = c3 /\ pub = [])
    (ph_result_ok :
       e3 = None ->
       exists e, c' = logged e c3 /\ pub = [e] /\ startOf e = None
                 /\ applyEvent e = (fun m => m)
                 /\ syncStarts [e] = [] /\ statusStarts [e] = [] /\ closes [e] = [])
    (ph_delta : delta = pub ++ d3 ++ d2 ++ d1).

End FTCController.

(** ** Descriptors and worlds to run the controller on *)

Module Scenarios.
Import TypeConfig FTCController.

Definition kubefedNamespace : string := "kube-federation-system".

Definition api (kind : string) (namespaced : bool) : APIResource :=
  mkAPIResource "" "v1" kind namespaced.

Definition descriptor (name kind : string) (namespaced propagation : bool)
    (deleted : option Z) (generation observed : Z) : FederatedTypeConfig :=
  mkFTC kubefedNamespace name generation deleted [finalizer]
        (mkSpec (api kind namespaced) (api ("Federated" +:+ kind) namespaced) None
                propagation false)
        (mkStatus observed ControllerStatusNotRunning None).

Definition withStatusCollection (tc : FederatedTypeConfig) : FederatedTypeConfig :=
  mkFTC (Namespace tc) (Name tc) (Generation tc) (DeletionTimestamp tc) (Finalizers tc)
        (mkSpec (TargetType (Spec tc)) (FederatedType (Spec tc))
                (Some (api "FederatedServiceStatus" true))
                (PropagationEnabled (Spec tc)) true)
        (Status tc).

Definition qnOf (name : string) : QualifiedName := mkQN kubefedNamespace name.

Definition storeOf (l : list FederatedTypeConfig) : gmap string FederatedTypeConfig :=
  list_to_map ((fun tc => (QualifiedName_String (NewQualifiedName tc), tc)) <$> l).

(** A world: the control plane's target namespace, the descriptors in the
    store, and what UpdateStatus and the two start functions answer. *)
Definition world (targetNamespace : string) (descriptors : list FederatedTypeConfig)
    (updateStatusErr startSyncErr startStatusErr : error) : Env :=
  mkEnv (mkConfig kubefedNamespace targetNamespace false) (storeOf descriptors)
        (fun _ => None) (fun tc => tc) (fun _ => None) (fun _ => updateStatusErr)
        (fun _ _ _ => startSyncErr) (fun _ _ => startStatusErr).

(** The state a reconcile leads to. *)
Definition afterReconcile (env : Env) (qn : QualifiedName) (c : Controller) : Controller :=
  match reconcile env qn c with
  | Ret _ c' => c'
  | Panic => c
  end.

(** The same world with a client whose Patch fails. *)
Definition patchFails (env : Env) (err : string) : Env :=
  mkEnv (controllerConfig env) (store env) (storeGetByKeyErr env)
        (SetFederatedTypeConfigDefaults env) (fun _ => Some err) (clientUpdateStatus env)
        (StartKubeFedSyncController env) (StartKubeFedStatusController env).

Definition withoutFinalizer (tc : FederatedTypeConfig) : FederatedTypeConfig :=
  setFinalizers [] tc.

Definition configmaps := descriptor "configmaps" "ConfigMap" true true None 1 1.

Definition configmapsOff := descriptor "configmaps" "ConfigMap" true false None 2 1.

Definition clusterroles := descriptor "clusterroles" "ClusterRole" false true None 1 1.

Definition clusterrolesNext := descriptor "clusterroles" "ClusterRole" false true None 2 1.

Definition clusterrolesDeleted :=
  descriptor "clusterroles" "ClusterRole" false true (Some 100%Z) 1 1.

Definition namespacesLive := descriptor "namespaces" "Namespace" false true None 1 1.

Definition namespacesDeleted :=
  descriptor "namespaces" "Namespace" false true (Some 100%Z) 1 1.

Definition services :=
  withStatusCollection (descriptor "services" "Service" true true None 1 1).

Definition servicesStatusOnly :=
  withStatusCollection (descriptor "services" "Service" true false None 1 1).

Definition servicesNoStatus := descriptor "services" "Service" true true None 2 1.

Definition servicesSyncOnly := descriptor "services" "Service" true true None 1 1.

Definition servicesNext :=
  withStatusCollection (descriptor "services" "Service" true true None 2 1).

Definition servicesClusterScoped := descriptor "services" "Service" false true None 2 1.


Definition servicesDeleted :=
  withStatusCollection (descriptor "services" "Service" true true (Some 100%Z) 1 1).

(** A state in which the sync controller of "services" runs, and nothing
    else. *)
Definition servicesSyncStarted : Controller :=
  afterReconcile (world "" [servicesSyncOnly; namespacesLive] None None None)
                 (qnOf "services") newController.

(** A state in which the status controller of "services" runs. *)
Definition statusRunning : Controller :=
  afterReconcile (world "" [servicesStatusOnly] None None None) (qnOf "services") newController.

(** The same under a namespaced control plane. *)
Definition statusRunningLimited : Controller :=
  afterReconcile (world "ns1" [servicesStatusOnly] None None None) (qnOf "services")
                 newController.

(** A state in which the sync controller of "clusterroles" runs. *)
Definition clusterrolesStarted : Controller :=
  afterReconcile (world "" [clusterroles] None None None) (qnOf "clusterroles") newController.

Definition servicesWorld : Env := world "" [services; namespacesLive] None None None.

(** A state in which both controllers of "services" run. *)
Definition servicesStarted : Controller :=
  afterReconcile servicesWorld (qnOf "services") newController.

End Scenarios.

(** ** The CRUD tester and the deletion of targets *)

Module CrudTester.

(** A target object in a member cluster, as far as the tester looks at
    it: its name and whether it carries the managed label. *)
Record Target := mkTarget { targetName : string; managedLabel : bool }.

Definition HasManagedLabel (obj : Target) : bool := managedLabel obj.
Definition RemoveManagedLabel (obj : Target) : Target := mkTarget (targetName obj) false.
Definition AddManagedLabel (obj : Target) : Target := mkTarget (targetName obj) true.

(** The outcome of [Client.Resources(namespace).Get]. *)
Inductive GetResult :=
| Found (obj : Target)
| NotFound
| OtherError (msg : string).

(** The targets the member clusters hold, by cluster name. *)
Definition clusterGet (targets : gmap string Target) (clusterName : string) : GetResult :=
  match targets !! clusterName with
  | Some obj => Found obj
  | None => NotFound
  end.

(** getPrimaryClusterName over the test clusters and their IsPrimary
    flags. *)
Fixpoint getPrimaryClusterName (testClusters : list (string * bool)) : string :=
  match testClusters with
  | [] => ""
  | (name, isPrimary) :: rest => if isPrimary then name else getPrimaryClusterName rest
  end.

(** removeOneClusterName; slicing an empty list panics ([None]). *)
Definition removeOneClusterName (clusterNames : list string) (clusterNameToRemove : string)
  : option (list string) :=
  if (String.length clusterNameToRemove =? 0)%nat then
    match clusterNames with
    | [] => None
    | _ => Some (removelast clusterNames)
    end
  else Some (List.filter (fun name => negb (String.eqb name clusterNameToRemove)) clusterNames).

(** CheckDelete, lines 352-374: the poll condition for one selected
    cluster; the pair is (done, err). *)
Definition checkDeleteCondition (deletingInCluster targetIsNamespace isPrimary : bool)
    (res : GetResult) : bool * option string :=
  match res with
  | NotFound =>
      if negb deletingInCluster then (false, Some "was unexpectedly deleted from cluster")
      else (true, None)
  | Found obj =>
      if deletingInCluster then
        if targetIsNamespace && isPrimary then (negb (HasManagedLabel obj), None)
        else (false, None)
      else (negb (HasManagedLabel obj), None)
  | OtherError _ => (false, None)
  end.

(** checkHostNamespaceUnlabeled, lines 623-631. *)
Definition checkHostNamespaceUnlabeledCondition (res : GetResult) : bool * option string :=
  match res with
  | Found hostNamespace => (negb (HasManagedLabel hostNamespace), None)
  | _ => (false, None)
  end.

(** waitForResourceDeletion, lines 702-715. *)
Definition waitForResourceDeletionCondition (versionRemoved : bool) (res : GetResult)
  : bool * option string :=
  match res with
  | NotFound => if negb versionRemoved then (false, None) else (true, None)
  | _ => (false, None)
  end.

(** CheckPropagation, lines 499-513: what is awaited in one cluster. *)
Inductive Expectation := ExpectResource | ExpectHostNamespaceUnlabeled | ExpectDeletion.

Definition propagationExpectation (objExpected targetIsNamespace isPrimary : bool)
  : Expectation :=
  if objExpected then ExpectResource
  else if targetIsNamespace && isPrimary then ExpectHostNamespaceUnlabeled
  else ExpectDeletion.

(** Modelled from the spec: the sync controller (pkg/controller/sync) is
    not part of the sources. "delete (see deletion subflow)": a target is
    deleted from its cluster, but "for namespace targets: in the
    primary/host cluster do not delete the namespace; only unlabel it". *)
Definition removeFromCluster (targetIsNamespace : bool) (primary clusterName : string)
    (obj : Target) : option Target :=
  if targetIsNamespace && String.eqb clusterName primary
  then Some (RemoveManagedLabel obj)
  else None.

(** Modelled from the spec: the deletion subflow of the sync controller.
    "If the orphan annotation is set: remove the managed label from all
    targets. Otherwise delete targets in all clusters currently holding
    them", with the rule for namespaces in the primary cluster. *)
Definition deletionSubflow (orphan targetIsNamespace : bool) (primary : string)
    (targets : gmap string Target) : gmap string Target :=
  if orphan then RemoveManagedLabel <$> targets
  else map_imap (removeFromCluster targetIsNamespace primary) targets.

(** Modelled from the spec: steps 6 and 7 of the sync controller's
    reconcile, once every write has succeeded: each selected cluster holds
    the desired target with the managed label; a cluster that is not
    selected and still has the target loses it as in the deletion
    subflow. *)
Definition reconcilePlacement (selected : list string) (desired : Target)
    (targetIsNamespace : bool) (primary : string) (targets : gmap string Target)
  : gmap string Target :=
  list_to_map ((fun clusterName => (clusterName, AddManagedLabel desired)) <$> selected)
  ∪ map_imap (fun clusterName obj =>
                if bool_decide (clusterName ∈ selected) then None
                else removeFromCluster targetIsNamespace primary clusterName obj)
             targets.

End CrudTester.

(** ** The informer event filter *)

Module Handlers.

(** An API object as the informer hands it over. *)
Record ObjectMeta := mkMeta {
  Namespace : string;
  Name : string;
  Labels : list (string * string);
  Annotations : list (string * string);
  ResourceVersion : string
}.

Record Object := mkObject {
  Meta : ObjectMeta;
  Spec : string;
  Status : string
}.

Global Instance ObjectMeta_eq_dec : EqDecision ObjectMeta.
Proof. solve_decision. Defined.
Global Instance Object_eq_dec : EqDecision Object.
Proof. solve_decision. Defined.

(** What OnDelete receives: the object, or a
    cache.DeletedFinalStateUnknown{Key, Obj} whose Obj may be nil. *)
Inductive DeleteArg :=
| DeletedObject (obj : Object)
| DeletedFinalStateUnknown (Key : string) (Obj : option Object).

Inductive InformerEvent :=
| OnAdd (obj : Object) (isInInitialList : bool)
| OnUpdate (old cur : Object)
| OnDelete (arg : DeleteArg).

(** Modelled from the spec: what counts for the event filter is
    "spec+metadata minus status/resourceVersion". *)
Definition semanticPart (obj : Object)
  : string * string * list (string * string) * list (string * string) * string :=
  (Namespace (Meta obj), Name (Meta obj), Labels (Meta obj), Annotations (Meta obj), Spec obj).

(** Modelled from the spec: NewTriggerOnAllChanges (pkg/controller/utils)
    is not part of the sources, only its test is. "An event filter forwards
    only semantic changes (deep-equal of spec+metadata minus
    status/resourceVersion) to a queue"; additions and deletions are
    forwarded as the test expects them, a tombstone through the object it
    carries. The result is the object handed to triggerFunc, if any. *)
Definition NewTriggerOnAllChanges (ev : InformerEvent) : option Object :=
  match ev with
  | OnAdd obj _ => Some obj
  | OnDelete (DeletedObject obj) => Some obj
  | OnDelete (DeletedFinalStateUnknown _ Obj) => Obj
  | OnUpdate old cur =>
      if bool_decide (semanticPart old = semanticPart cur) then None else Some cur
  end.

(** The worker queue behind the filter: what is forwarded is enqueued. *)
Definition enqueue (queue : list Object) (ev : InformerEvent) : list Object :=
  match NewTriggerOnAllChanges ev with
  | Some obj => queue ++ [obj]
  | None => queue
  end.

(** *** TestHandlers *)

(** triggerChan := make(chan interface{}, 1): a buffer of capacity one; a
    send into a full buffer would block the test for ever ([None]). *)
Definition send (obj : Object) (triggerChan : list Object) : option (list Object) :=
  if (length triggerChan <? 1)%nat then Some (triggerChan ++ [obj]) else None.

Definition triggered (triggerChan : list Object) : bool * list Object :=
  match triggerChan with
  | _ :: rest => (true, rest)
  | [] => (false, [])
  end.

(** The test compares pointers; objects here are compared as values. *)
Definition triggeredWith (obj : Object) (triggerChan : list Object) : bool * list Object :=
  match triggerChan with
  | triggeredObj :: rest => (bool_decide (triggeredObj = obj), rest)
  | [] => (false, [])
  end.

Definition fire (trigger : InformerEvent -> option Object) (ev : InformerEvent)
    (triggerChan : list Object) : option (list Object) :=
  match trigger ev with
  | Some obj => send obj triggerChan
  | None => Some triggerChan
  end.

Definition service : Object := mkObject (mkMeta "ns1" "s1" [] [] "") "" "".
Definition service2 : Object := mkObject (mkMeta "ns1" "s1" [] [("A", "B")] "") "" "".

(** The six assertions of the test, in order; [None] if a send blocks. *)
Definition TestHandlers (trigger : InformerEvent -> option Object) : option (list bool) :=
  ch ← fire trigger (OnAdd service false) [];
  let '(a1, ch) := triggered ch in
  ch ← fire trigger (OnDelete (DeletedObject service)) ch;
  let '(a2, ch) := triggeredWith service ch in
  ch ← fire trigger (OnDelete (DeletedFinalStateUnknown "ns1/s1" (Some service))) ch;
  let '(a3, ch) := triggeredWith service ch in
  ch ← fire trigger (OnDelete (DeletedFinalStateUnknown "ns1/s1" None)) ch;
  let '(a4, ch) := triggered ch in
  ch ← fire trigger (OnUpdate service service) ch;
  let '(a5, ch) := triggered ch in
  ch ← fire trigger (OnUpdate service service2) ch;
  let '(a6, ch) := triggered ch in
  Some [a1; a2; a3; negb a4; negb a5; a6].

End Handlers.

(** ** The steps of a live reconcile, as states *)

Module ControllerSteps.
Import TypeConfig FTCController.

(** No stop channel is lost: a channel that was made and has not been
    closed is registered in the map. *)
Definition noStrayChannel (c : Controller) : Prop :=
  forall ch, chans c !! ch = Some false -> exists k, stopChannels c !! k = Some ch.

(** The descriptor handed to UpdateStatus at line 271. *)
Definition publishedStatus (tc : FederatedTypeConfig)
    (syncControllerRunning statusControllerRunning : bool) : FederatedTypeConfig :=
  setStatus (mkStatus (Generation tc) (statusOf syncControllerRunning)
                      (Some (statusOf statusControllerRunning))) tc.

(** Lines 223-232, by outcome: the sync controller is started, the start
    is refused for want of the namespaces descriptor, the start fails, the
    registered controller is stopped, or nothing is done. *)
Inductive syncStep (env : Env) (tc : FederatedTypeConfig) (se : bool) (c : Controller)
  : error -> Controller -> Prop :=
| sync_started :
    stopChannels c !! Name tc = None -> se = true ->
    syncStartable env tc (length (chans c)) = true ->
    syncStep env tc se c None
             (registered (Name tc) [EvSyncStarted (Name tc) (length (chans c))] c)
| sync_refused msg :
    stopChannels c !! Name tc = None -> se = true ->
    namespaceMissing env tc = true ->
    syncStep env tc se c (Some msg) c
| sync_failed msg :
    stopChannels c !! Name tc = None -> se = true ->
    namespaceMissing env tc = false ->
    syncStartable env tc (length (chans c)) = false ->
    syncStep env tc se c (Some msg) (failedStart c)
| sync_stopped ch :
    stopChannels c !! Name tc = Some ch ->
    stopSyncController env tc true se = true ->
    syncStep env tc se c None (stopped (Name tc) ch c)
| sync_kept :
    startNewSyncController (isSome (stopChannels c !! Name tc)) se = false ->
    stopSyncController env tc (isSome (stopChannels c !! Name tc)) se = false ->
    syncStep env tc se c None c.

(** Lines 234-243, by outcome. *)
Inductive statusStep (env : Env) (tc : FederatedTypeConfig) (ste : bool) (c : Controller)
  : error -> Controller -> Prop :=
| status_started :
    stopChannels c !! statusKeyOf (Name tc) = None -> ste = true ->
    statusStartable env tc (length (chans c)) = true ->
    statusStep env tc ste c None
               (registered (statusKeyOf (Name tc))
                           [EvStatusStarted (Name tc) (length (chans c))] c)
| status_failed msg :
    stopChannels c !! statusKeyOf (Name tc) = None -> ste = true ->
    statusStartable env tc (length (chans c)) = false ->
    statusStep env tc ste c (Some msg) (failedStart c)
| status_stopped ch :
    stopChannels c !! statusKeyOf (Name tc) = Some ch -> ste = false ->
    statusStep env tc ste c None (stopped (statusKeyOf (Name tc)) ch c)
| status_kept :
    isSome (stopChannels c !! statusKeyOf (Name tc)) = ste ->
    statusStep env tc ste c None c.

(** Lines 245-251, by outcome; [sr] is the running bit read at line 186. *)
Inductive refreshStep (env : Env) (tc : FederatedTypeConfig) (sr se : bool) (c : Controller)
  : error -> Controller -> Prop :=
| refresh_not_needed :
    refreshNeeded env tc sr se = false ->
    refreshStep env tc sr se c None c
| refresh_started :
    refreshNeeded env tc sr se = true ->
    syncStartable env tc (length (chans c)) = true ->
    refreshStep env tc sr se c None
      (registered (Name tc) [EvSyncStarted (Name tc) (length (chans c))]
                  (afterStop (Name tc) (stopChannels c !! Name tc) c))
| refresh_refused msg :
    refreshNeeded env tc sr se = true ->
    namespaceMissing env tc = true ->
    refreshStep env tc sr se c (Some msg)
                (afterStop (Name tc) (stopChannels c !! Name tc) c)
| refresh_failed msg :
    refreshNeeded env tc sr se = true ->
    namespaceMissing env tc = false ->
    syncStartable env tc (length (chans c)) = false ->
    refreshStep env tc sr se c (Some msg)
                (failedStart (afterStop (Name tc) (stopChannels c !! Name tc) c)).

(** Lines 223-276: the three steps, left at the first error, and the
    status published at the end. *)
Inductive controllersRun (env : Env) (tc : FederatedTypeConfig) (se ste : bool)
    (c : Controller) : ReconciliationStatus -> Controller -> Prop :=
| run_sync_error msg c1 :
    syncStep env tc se c (Some msg) c1 ->
    controllersRun env tc se ste c StatusError c1
| run_status_error msg c1 c2 :
    syncStep env tc se c None c1 ->
    statusStep env tc ste c1 (Some msg) c2 ->
    controllersRun env tc se ste c StatusError c2
| run_refresh_error msg c1 c2 c3 :
    syncStep env tc se c None c1 ->
    statusStep env tc ste c1 None c2 ->
    refreshStep env tc (isSome (stopChannels c !! Name tc)) se c2 (Some msg) c3 ->
    controllersRun env tc se ste c StatusError c3
| run_published c1 c2 c3 :
    syncStep env tc se c None c1 ->
    statusStep env tc ste c1 None c2 ->
    refreshStep env tc (isSome (stopChannels c !! Name tc)) se c2 None c3 ->
    let sr := isSome (stopChannels c !! Name tc) in
    let str := isSome (stopChannels c !! statusKeyOf (Name tc)) in
    let published :=
      publishedStatus tc
        (startNewSyncController sr se || (sr && negb (stopSyncController env tc sr se)))
        (startNewStatusController str ste || (str && negb (stopStatusController str ste))) in
    controllersRun env tc se ste c
      (statusResult (clientUpdateStatus env published))
      (logged (EvUpdateStatus published (clientUpdateStatus env published)) c3).

(** The entry found under the name is as the flags of lines 223-224 want
    it: nothing is registered and nothing can be started, or a controller
    is registered and is not to be stopped. *)
Definition syncSettled (env : Env) (tc : FederatedTypeConfig) (se : bool)
    (found : option chan) : Prop :=
  match found with
  | None => se = true -> namespaceMissing env tc = true
  | Some _ => stopSyncController env tc true se = false
  end.

(** Whether a reconcile of [tc] hands the namespaced descriptors to the
    worker again (lines 198-201 and 215-221). *)
Definition requeues (env : Env) (tc : FederatedTypeConfig) : bool :=
  negb (skipsClusterScoped env tc) && IsNamespace tc
  && (isSome (DeletionTimestamp tc)
      || (negb (ContainsFinalizer tc finalizer)
          && negb (isSome (clientPatch env (AddFinalizer tc finalizer))))).

(** The two keys a reconcile may touch. *)
Definition keysOf (env : Env) (qualifiedName : QualifiedName) : list string :=
  match fetched env qualifiedName with
  | Some tc => bothKeys tc
  | None => []
  end.

End ControllerSteps.

(** ** The checks of the CRUD tester *)

Module CrudChecks.
Import TypeConfig CrudTester.

(** *** Polling *)

(** What wait.PollUntilContextTimeout returns: nil, the error of the
    condition, or an error for which wait.Interrupted holds (the time is
    up or the context is done). *)
Inductive PollResult :=
| PollDone
| PollError (err : string)
| PollInterrupted.

(** wait.PollUntilContextTimeout over what the condition gets to see at
    its successive calls: the condition is called until it reports an
    error or that it is done; when the calls run out the time is up. *)
Fixpoint poll {Obs : Type} (condition : Obs -> bool * option string)
    (observations : list Obs) : PollResult :=
  match observations with
  | [] => PollInterrupted
  | o :: rest =>
      match condition o with
      | (_, Some err) => PollError err
      | (true, None) => PollDone
      | (false, None) => poll condition rest
      end
  end.

(** What a test does next: it goes on, tl.Fatalf ends it (the message is
    the format string of the call), or it panics. *)
Inductive Outcome (A : Type) :=
| Ok (a : A)
| Fatalf (msg : string)
| GoPanic.
Arguments Ok {A} a.
Arguments Fatalf {A} msg.
Arguments GoPanic {A}.

(** *** CheckPropagation, lines 499-528 *)

(** waitForResourceDeletion: an observation is the answer of the cluster
    and what versionRemoved() returns at that moment. *)
Definition waitForResourceDeletion (observations : list (GetResult * bool)) : PollResult :=
  poll (fun o => waitForResourceDeletionCondition o.2 o.1) observations.

(** checkHostNamespaceUnlabeled: a poll, and Fatalf when it fails. *)
Definition checkHostNamespaceUnlabeled (observations : list GetResult) : Outcome unit :=
  match poll checkHostNamespaceUnlabeledCondition observations with
  | PollDone => Ok tt
  | _ => Fatalf "Timeout verifying removal of managed label from %s %q in host cluster %q: %v"
  end.

(** The switch of lines 499-528 for one cluster, given how the wait for
    the resource ended and what the cluster answers while the other waits
    poll it. *)
Definition checkCluster (objExpected targetIsNamespace isPrimary : bool)
    (waitForResource : PollResult)
    (hostNamespace : list GetResult) (deletion : list (GetResult * bool)) : Outcome unit :=
  if objExpected then
    match waitForResource with
    | PollInterrupted => Fatalf "Timeout verifying %s %q in cluster %q: %v"
    | PollError _ => Fatalf "Failed to verify %s %q in cluster %q: %v"
    | PollDone => Ok tt
    end
  else if targetIsNamespace && isPrimary then
    checkHostNamespaceUnlabeled hostNamespace
  else
    match waitForResourceDeletion deletion with
    | PollInterrupted =>
        if objExpected then Fatalf "Timeout verifying deletion of %s %q in cluster %q: %v"
        else Ok tt
    | PollError _ => Fatalf "Failed to verify deletion of %s %q in cluster %q: %v"
    | PollDone => Ok tt
    end.

(** *** CheckDelete, lines 347-378: the wait for one selected cluster *)

Definition checkDeleteInCluster (orphanDependents targetIsNamespace isPrimary : bool)
    (observations : list GetResult) : Outcome unit :=
  let deletingInCluster := negb orphanDependents in
  match poll (checkDeleteCondition deletingInCluster targetIsNamespace isPrimary)
             observations with
  | PollDone => Ok tt
  | _ => Fatalf "Failed to confirm whether %s %q is %s in cluster %q: %v"
  end.

(** *** checkFederatedStatus *)

(** The status of a federated resource (status.GenericFederatedStatus), as
    far as the tester reads it. *)
Inductive ConditionType := PropagationConditionType | OtherConditionType (name : string).

Inductive ConditionStatus := ConditionTrue | ConditionFalse | ConditionUnknown.

Inductive PropagationStatus :=
| ClusterPropagationOK
| WaitingForRemoval
| OtherPropagationStatus (name : string).

Record GenericCondition := mkCondition {
  condType : ConditionType;
  condStatus : ConditionStatus
}.

Record GenericClusterStatus := mkClusterStatus {
  clusterName : string;
  clusterStatus : PropagationStatus
}.

Record GenericFederatedStatus := mkFedStatus {
  ObservedGeneration : Z;
  Conditions : list GenericCondition;
  Clusters : list GenericClusterStatus
}.

Global Instance ConditionType_eq_dec : EqDecision ConditionType.
Proof. solve_decision. Defined.
Global Instance ConditionStatus_eq_dec : EqDecision ConditionStatus.
Proof. solve_decision. Defined.
Global Instance PropagationStatus_eq_dec : EqDecision PropagationStatus.
Proof. solve_decision. Defined.

(** The double quote, and %q as far as it is modelled: the argument
    between double quotes, without escapes. *)
Definition doubleQuote : string := String (Ascii.ascii_of_nat 34) EmptyString.

Definition quoted (s : string) : string := doubleQuote +:+ s +:+ doubleQuote.

(** strings.HasPrefix *)
Definition HasPrefix (s pre : string) : bool := String.prefix pre s.

(** GetGenericResource, lines 946-962: the two calls and their errors. *)
Definition GetGenericResource (got converted : option string)
    (resource : option GenericFederatedStatus)
  : option (option GenericFederatedStatus) * option string :=
  match got with
  | Some err =>
      (None, Some (FTCController.Wrapf err "Failed to retrieve federated resource from the API"))
  | None =>
      match converted with
      | Some err =>
          (None, Some (FTCController.Wrapf err
                         "Failed to unmarshall federated resource to generic resource struct"))
      | None => (Some resource, None)
      end
  end.

(** Lines 579-587: the first condition of type Propagation decides. *)
Fixpoint conditionTrue (conditions : list GenericCondition) : bool :=
  match conditions with
  | [] => false
  | condition :: rest =>
      if bool_decide (condType condition = PropagationConditionType) then
        bool_decide (condStatus condition = ConditionTrue)
      else conditionTrue rest
  end.

(** Lines 594-600. *)
Fixpoint clusterStatusOK (name : string) (clusters : list GenericClusterStatus) : bool :=
  match clusters with
  | [] => false
  | cluster :: rest =>
      if String.eqb (clusterName cluster) name
         && bool_decide (clusterStatus cluster = ClusterPropagationOK)
      then true
      else clusterStatusOK name rest
  end.

(** Lines 605-611. *)
Fixpoint clusterRemoved (name : string) (clusters : list GenericClusterStatus) : bool :=
  match clusters with
  | [] => true
  | cluster :: rest =>
      if String.eqb (clusterName cluster) name
         && negb (bool_decide (clusterStatus cluster = WaitingForRemoval))
      then false
      else clusterRemoved name rest
  end.

(** checkFederatedStatus, lines 558-617; [retrieved] is what
    GetGenericResource returned, [generation] is fedObject.GetGeneration(). *)
Definition checkFederatedStatus (federatedKind : string) (qualifiedName : QualifiedName)
    (generation : Z)
    (retrieved : option (option GenericFederatedStatus) * option string)
    (name : string) (objExpected : bool) : bool * option string :=
  match retrieved with
  | (_, Some err) => (false, Some err)
  | (None, None) => (false, None)
  | (Some None, None) => (false, None)
  | (Some (Some fedStatus), None) =>
      if negb (ObservedGeneration fedStatus =? generation)%Z then
        (false, Some ("Waiting for status.observedGeneration to match metadata.generation for "
                      +:+ federatedKind +:+ " " +:+ quoted (QualifiedName_String qualifiedName)))
      else if negb (conditionTrue (Conditions fedStatus)) then
        (false, Some ("Waiting for the propagated condition of " +:+ federatedKind +:+ " "
                      +:+ quoted (QualifiedName_String qualifiedName)
                      +:+ " to have status True"))
      else if objExpected then
        if negb (clusterStatusOK name (Clusters fedStatus)) then
          (false, Some ("Waiting for " +:+ federatedKind +:+ " "
                        +:+ quoted (QualifiedName_String qualifiedName)
                        +:+ " to have ok status for cluster " +:+ quoted name))
        else (true, None)
      else
        if negb (clusterRemoved name (Clusters fedStatus)) then
          (false, Some ("Waiting for cluster " +:+ quoted name
                        +:+ " to be removed from the status of " +:+ federatedKind +:+ " "
                        +:+ quoted (QualifiedName_String qualifiedName)))
        else (true, None)
  end.

(** CheckPropagation, lines 533-546: the condition of the status poll. *)
Definition statusPollCondition (federatedKind : string) (qualifiedName : QualifiedName)
    (generation : Z) (name : string) (objExpected : bool)
    (retrieved : option (option GenericFederatedStatus) * option string)
  : bool * option string :=
  match checkFederatedStatus federatedKind qualifiedName generation retrieved name objExpected with
  | (ok, Some err) =>
      if HasPrefix err "Waiting" then (false, None) else (false, Some err)
  | (ok, None) => (ok, None)
  end.

(** *** CheckPlacementChange, lines 242-257: the mutation *)

(** [got] is what utils.GetClusterNames returns, [setErr] the error of
    utils.SetClusterNames. *)
Definition placementMutation (got : list string + string) (clusterNameToRemove : string)
    (setErr : option string) : Outcome (list string) :=
  match got with
  | inr _ => Fatalf "Error retrieving cluster names: %v"
  | inl clusterNames =>
      match removeOneClusterName clusterNames clusterNameToRemove with
      | None => GoPanic
      | Some updatedClusterNames =>
          if negb (Z.of_nat (length updatedClusterNames)
                   =? Z.of_nat (length clusterNames) - 1)%Z
          then Fatalf "Expected %d cluster names, got %d"
          else match setErr with
               | Some _ => Fatalf "Error setting cluster names for %s %q: %v"
               | None => Ok updatedClusterNames
               end
      end
  end.

(** How often a name occurs among the cluster names. *)
Definition occurrences (name : string) (clusterNames : list string) : nat :=
  length (List.filter (fun n => String.eqb n name) clusterNames).

(** *** CheckUpdate, lines 193-216: the mutation *)

Record ClusterOverride := mkOverride { Path : string; Value : list (string * string) }.

(** The value of lines 187-190; the managed label is
    utils.ManagedByKubeFedLabelKey: utils.ManagedByKubeFedLabelValue. *)
Definition updateKey : string := "/metadata/labels".

Definition updateValue (managedLabelKey managedLabelValue : string) : list (string * string) :=
  [("crudtester-operation", "update"); (managedLabelKey, managedLabelValue)].

(** Lines 202-206: an override for the path is there already. *)
Definition hasUpdateOverride (items : list ClusterOverride) : bool :=
  existsb (fun item => String.eqb (Path item) updateKey) items.

(** One round of the loop of lines 198-211, for one test cluster; [None]
    is the Fatalf of line 207. *)
Definition addOverride (value : list (string * string))
    (overrides : gmap string (list ClusterOverride)) (name : string)
  : option (gmap string (list ClusterOverride)) :=
  let items := default [] (overrides !! name) in
  if hasUpdateOverride items then None
  else Some (<[name := items ++ [mkOverride updateKey value]]> overrides).

(** The loop over the test clusters, in the order the map is ranged
    over. *)
Fixpoint addOverrides (value : list (string * string)) (testClusters : list string)
    (overrides : gmap string (list ClusterOverride))
  : option (gmap string (list ClusterOverride)) :=
  match testClusters with
  | [] => Some overrides
  | name :: rest =>
      match addOverride value overrides name with
      | None => None
      | Some overrides' => addOverrides value rest overrides'
      end
  end.

(** The whole mutation, lines 193-216, on the overrides of the object:
    [getErr] and [setErr] are the errors of utils.GetOverrides and
    utils.SetOverrides; [None] is a Fatalf. *)
Definition overridesMutation (value : list (string * string)) (testClusters : list string)
    (getErr setErr : option string) (overrides : gmap string (list ClusterOverride))
  : option (gmap string (list ClusterOverride)) :=
  match getErr with
  | Some _ => None
  | None =>
      match addOverrides value testClusters overrides with
      | None => None
      | Some overrides =>
          match setErr with
          | Some _ => None
          | None => Some overrides
          end
      end
  end.

(** *** updateObject, lines 719-740 *)

(** What the API server answers to one Update; after a conflict, what the
    Get that follows returns. *)
Inductive UpdateReply (Obj : Type) :=
| Updated (updatedObj : Obj)
| Conflict (latest : Obj + string)
| ServerTimeout
| UpdateFailed (err : string).
Arguments Updated {Obj} updatedObj.
Arguments Conflict {Obj} latest.
Arguments ServerTimeout {Obj}.
Arguments UpdateFailed {Obj} err.

(** How updateObject ends: with the updated object, with an error of the
    poll (the time is up, or an error of the server), or in the Fatalf of
    the mutation. *)
Inductive UpdateOutcome (Obj : Type) :=
| UpdateDone (updatedObj : Obj)
| UpdateError (err : PollResult)
| UpdateFatal.
Arguments UpdateDone {Obj} updatedObj.
Arguments UpdateError {Obj} err.
Arguments UpdateFatal {Obj}.

(** The poll of updateObject: each attempt mutates the object it holds
    ([None] is a Fatalf of the mutation) and sends it; [replies] are the
    answers of the server to the successive attempts, each as a function
    of the object sent. *)
Fixpoint updateObject {Obj : Type} (mutateResourceFunc : Obj -> option Obj)
    (replies : list (Obj -> UpdateReply Obj)) (obj : Obj) : UpdateOutcome Obj :=
  match replies with
  | [] => UpdateError PollInterrupted
  | reply :: rest =>
      match mutateResourceFunc obj with
      | None => UpdateFatal
      | Some obj =>
          match reply obj with
          | Conflict (inl latest) => updateObject mutateResourceFunc rest latest
          | Conflict (inr err) => UpdateError (PollError err)
          | ServerTimeout => updateObject mutateResourceFunc rest obj
          | UpdateFailed err => UpdateError (PollError err)
          | Updated updatedObj => UpdateDone updatedObj
          end
      end
  end.

(** The mutation applied [n] times, each time to what the time before
    left. *)
Fixpoint mutateTimes {Obj : Type} (mutateResourceFunc : Obj -> option Obj) (n : nat)
    (obj : Obj) : option Obj :=
  match n with
  | O => Some obj
  | S n =>
      match mutateResourceFunc obj with
      | None => None
      | Some obj => mutateTimes mutateResourceFunc n obj
      end
  end.

(** *** expectedVersion and versionForCluster *)

(** fedv1a1.PropagatedVersionStatus *)
Record PropagatedVersionStatus := mkVersion {
  TemplateVersion : string;
  OverrideVersion : string;
  ClusterVersions : list (string * string)
}.

(** versionForCluster, lines 809-816; a cluster version is a pair
    (ClusterName, Version). *)
Fixpoint versionForCluster (clusterVersions : list (string * string)) (name : string)
  : string :=
  match clusterVersions with
  | [] => ""
  | (clusterName, version) :: rest =>
      if String.eqb clusterName name then version else versionForCluster rest name
  end.

(** expectedVersion, lines 756-772: the condition of the poll for the
    version object; an observation is what c.client.Get returns. *)
Inductive VersionReply :=
| VersionFound (version : PropagatedVersionStatus)
| VersionNotFound
| VersionError (err : string).

Definition versionCondition (reply : VersionReply) : bool * option string :=
  match reply with
  | VersionFound _ => (true, None)
  | _ => (false, None)
  end.

(** The version the poll leaves in [version]: that of the call that ended
    it. *)
Fixpoint polledVersion (replies : list VersionReply) : option PropagatedVersionStatus :=
  match replies with
  | [] => None
  | VersionFound version :: _ => Some version
  | _ :: rest => polledVersion rest
  end.

(** expectedVersion, lines 743-784. *)
Definition expectedVersion (replies : list VersionReply)
    (templateVersion overrideVersion name : string) : string * bool :=
  match poll versionCondition replies with
  | PollDone =>
      match polledVersion replies with
      | Some version =>
          let matchedVersions :=
            String.eqb (TemplateVersion version) templateVersion
            && String.eqb (OverrideVersion version) overrideVersion in
          if negb matchedVersions then ("", false)
          else (versionForCluster (ClusterVersions version) name, true)
      | None => ("", false)
      end
  | _ => ("", false)
  end.

(** CheckPropagation, lines 514-517: the versionRemoved of the wait for a
    deletion, and lines 501-504 with 639-642: whether waitForResource has a
    version to wait for. *)
Definition versionRemoved (replies : list VersionReply)
    (templateVersion overrideVersion name : string) : bool :=
  let '(version, ok) := expectedVersion replies templateVersion overrideVersion name in
  String.eqb version "" && ok.

Definition versionExpected (replies : list VersionReply)
    (templateVersion overrideVersion name : string) : bool :=
  let '(version, _) := expectedVersion replies templateVersion overrideVersion name in
  negb (String.length version =? 0)%nat.

End CrudChecks.

(** ** The helpers of the federate test *)

Module FederateTest.
Import CrudTester CrudChecks.

(** What Delete answers. *)
Inductive DeleteReply :=
| Deleted
| DeleteNotFound
| DeleteFailed (err : string).

(** The condition of the wait for a resource to be gone (federate.go,
    lines 304-310; the same in CheckDelete, crudtester.go, lines
    320-326). *)
Definition goneCondition (res : GetResult) : bool * option string :=
  match res with
  | NotFound => (true, None)
  | Found _ => (false, None)
  | OtherError err => (false, Some err)
  end.

(** deleteResource, federate.go, lines 297-314. *)
Definition deleteResource (reply : DeleteReply) (observations : list GetResult)
  : Outcome unit :=
  match reply with
  | DeleteFailed _ => Fatalf "Error deleting %s %q: %v"
  | _ =>
      match poll goneCondition observations with
      | PollDone => Ok tt
      | _ => Fatalf "Error deleting %s %q: %v"
      end
  end.

(** CheckDelete, crudtester.go, lines 304-329: the federated resource is
    deleted and awaited. *)
Definition deleteFederated (reply : DeleteReply) (observations : list GetResult)
  : Outcome unit :=
  match reply with
  | Deleted =>
      match poll goneCondition observations with
      | PollDone => Ok tt
      | _ => Fatalf "Error deleting %s %q: %v"
      end
  | _ => Fatalf "Error deleting %s %q: %v"
  end.

Section Resources.

(** Target objects and type descriptors, as the helpers pass them on. *)
Variables Obj TC : Type.

Record testResources := mkTestResources {
  targetResource : Obj;
  typeConfig : TC
}.

(** common.CreateResource for the target type of a descriptor. *)
Variable CreateResource : TC -> Obj -> Obj + string.

(** The loop of createTargetResources, lines 393-402; [resources] is the
    argument of the function, returned when a creation fails. *)
Fixpoint createLoop (resources rest createResources : list testResources)
  : list testResources * option string :=
  match rest with
  | [] => (createResources, None)
  | resource :: rest =>
      match CreateResource (typeConfig resource) (targetResource resource) with
      | inr err =>
          (resources, Some (FTCController.Wrapf err "Error creating target resource %q"))
      | inl createdTargetResource =>
          createLoop resources rest
            (createResources ++ [mkTestResources createdTargetResource (typeConfig resource)])
      end
  end.

(** createTargetResources, lines 391-405. *)
Definition createTargetResources (resources : list testResources)
  : list testResources * option string :=
  createLoop resources resources [].

(** client.Get of a descriptor by name, and common.NewTestTargetObject on
    the descriptor and the fixture of that name (nil if there is none). *)
Variable Fixture : Type.
Variable getTypeConfig : string -> TC + string.
Variable NewTestTargetObject : TC -> option Fixture -> Obj + string.

(** getTargetTestResources, lines 368-389. *)
Fixpoint targetTestLoop (fixtures : gmap string Fixture) (typeConfigNames : list string)
    (resources : list testResources) : list testResources * option string :=
  match typeConfigNames with
  | [] => (resources, None)
  | typeConfigName :: rest =>
      let fixture := fixtures !! typeConfigName in
      match getTypeConfig typeConfigName with
      | inr err =>
          (resources, Some (FTCController.Wrapf err "Error retrieving federatedtypeconfig %q"))
      | inl typeConfig =>
          match NewTestTargetObject typeConfig fixture with
          | inr err =>
              (resources, Some (FTCController.Wrapf err "Error getting test resource for %s"))
          | inl targetResource =>
              targetTestLoop fixtures rest
                             (resources ++ [mkTestResources targetResource typeConfig])
          end
      end
  end.

Definition getTargetTestResources (fixtures : gmap string Fixture)
    (typeConfigNames : list string) : list testResources * option string :=
  targetTestLoop fixtures typeConfigNames [].

(** What one turn of each loop yields when it succeeds: the resource made
    for an input of createTargetResources, and the resource built for a
    name by getTargetTestResources. *)
Definition createdFrom (resource created : testResources) : Prop :=
  CreateResource (typeConfig resource) (targetResource resource)
  = inl (targetResource created)
  /\ typeConfig created = typeConfig resource.

Definition builtFrom (fixtures : gmap string Fixture) (typeConfigName : string)
    (built : testResources) : Prop :=
  getTypeConfig typeConfigName = inl (typeConfig built)
  /\ NewTestTargetObject (typeConfig built) (fixtures !! typeConfigName)
     = inl (targetResource built).

End Resources.

Arguments mkTestResources {Obj TC} targetResource typeConfig.
Arguments targetResource {Obj TC} t.
Arguments typeConfig {Obj TC} t.
Arguments createTargetResources {Obj TC} CreateResource resources.
Arguments createLoop {Obj TC} CreateResource resources rest createResources.
Arguments getTargetTestResources {Obj TC Fixture} getTypeConfig NewTestTargetObject
  fixtures typeConfigNames.
Arguments targetTestLoop {Obj TC Fixture} getTypeConfig NewTestTargetObject
  fixtures typeConfigNames resources.
Arguments createdFrom {Obj TC} CreateResource resource created.
Arguments builtFrom {Obj TC Fixture} getTypeConfig NewTestTargetObject
  fixtures typeConfigName built.

End FederateTest.

(** * Properties of the type-config controller *)

Module FTCControllerProps.
Import TypeConfig FTCController Scenarios.

(** ** The invariant and the primitive steps *)

Lemma inv_new : inv newController.
Proof.
  split; simpl; try done.
  - intros k ch H. by apply elem_of_nil in H.
  - constructor.
Qed.

(** inv does not look at the queue. *)
Lemma inv_queue c q :
  inv c -> inv (mkController (stopChannels c) (chans c) q (log c)).
Proof. intros [H1 H2 H3 H4 H5 H6]. by split. Qed.

Lemma starts_cons_none e l : startOf e = None -> starts (e :: l) = starts l.
Proof. intros H. unfold starts. simpl. by rewrite H. Qed.

(** An event that starts nothing and leaves map and channels alone. *)
Lemma inv_emit c e :
  startOf e = None -> applyEvent e = (fun m => m) ->
  inv c -> inv (mkController (stopChannels c) (chans c) (queue c) (e :: log c)).
Proof.
  intros Hs Ha [H1 H2 H3 H4 H5 H6]. split; cbn [stopChannels chans queue log].
  - simpl. by rewrite Ha.
  - simpl. by rewrite Hs.
  - done.
  - done.
  - rewrite starts_cons_none by done. done.
  - rewrite starts_cons_none by done. done.
Qed.

Lemma stopController_spec key ch c :
  inv c -> stopChannels c !! key = Some ch ->
  exists c', stopController key ch c = Ret tt c' /\ inv c'
    /\ stopChannels c' = delete key (stopChannels c)
    /\ chans c' = <[ch := true]> (chans c)
    /\ queue c' = queue c
    /\ log c' = EvDelete key :: EvClose ch :: log c.
Proof.
  intros [H1 H2 H3 H4 H5 H6] Hk.
  unfold stopController, bind, closeChan, mapDelete.
  rewrite (H3 _ _ Hk). eexists. split; [reflexivity|].
  split; [|done].
  split; cbn [stopChannels chans queue log].
  - simpl. by rewrite H1.
  - done.
  - intros k ch' Hl. apply lookup_delete_Some in Hl as [Hne Hl].
    rewrite list_lookup_insert_ne; [by eapply H3|].
    intros ->. by apply Hne, (H4 _ _ _ Hk Hl).
  - intros k1 k2 ch' Ha Hb.
    apply lookup_delete_Some in Ha as [_ Ha]. apply lookup_delete_Some in Hb as [_ Hb].
    by eapply H4.
  - intros k ch' Hin. rewrite !starts_cons_none in Hin by done.
    destruct (H5 _ _ Hin) as [Hlt Hreg]. rewrite length_insert. split; [done|].
    intros Hopen. destruct (decide (ch' = ch)) as [->|Hne].
    + rewrite list_lookup_insert_eq in Hopen by done. done.
    + rewrite list_lookup_insert_ne in Hopen by done.
      specialize (Hreg Hopen). rewrite lookup_delete_ne; [done|].
      intros ?; subst; congruence.
  - by rewrite !starts_cons_none by done.
Qed.

Lemma lookup_snoc_old (l : list bool) (b : bool) (i : nat) x :
  l !! i = Some x -> (l ++ [b]) !! i = Some x.
Proof. intros H. rewrite lookup_app_l; [done|]. by eapply lookup_lt_Some. Qed.

Lemma lookup_snoc_lt (l : list bool) (b : bool) (i : nat) :
  (i < length l)%nat -> (l ++ [b]) !! i = l !! i.
Proof. intros H. by rewrite lookup_app_l. Qed.

Lemma lookup_snoc_new (l : list bool) (b : bool) :
  (l ++ [b]) !! length l = Some b.
Proof. rewrite lookup_app_r by lia. by rewrite Nat.sub_diag. Qed.

Lemma starts_in_snd (l : list Event) k ch :
  (k, ch) ∈ starts l -> ch ∈ (starts l).*2.
Proof. intros H. apply list_elem_of_fmap. by exists (k, ch). Qed.

(** A channel made, never handed to a controller, closed again. *)
Lemma inv_failed_start c :
  inv c ->
  inv (mkController (stopChannels c) (<[length (chans c) := true]> (chans c ++ [false]))
                    (queue c) (EvClose (length (chans c)) :: log c)).
Proof.
  intros [H1 H2 H3 H4 H5 H6]. split; cbn [stopChannels chans queue log]; try done.
  - intros k ch Hk. specialize (H3 _ _ Hk).
    rewrite list_lookup_insert_ne.
    + by apply lookup_snoc_old.
    + apply lookup_lt_Some in H3. lia.
  - intros k ch Hin. rewrite starts_cons_none in Hin by done.
    destruct (H5 _ _ Hin) as [Hlt Hreg].
    rewrite length_insert, length_app. simpl. split; [lia|].
    rewrite list_lookup_insert_ne by lia. rewrite lookup_snoc_lt by done. done.
Qed.

(** A fresh channel registered under a free key, with or without a
    controller started on it. *)
Lemma inv_register c key (ev : list Event) :
  inv c -> stopChannels c !! key = None ->
  (ev = [] \/ exists e, ev = [e] /\ startOf e = Some (key, length (chans c))
                      /\ applyEvent e = (fun m => m)) ->
  inv (mkController (<[key := length (chans c)]> (stopChannels c)) (chans c ++ [false])
                    (queue c) (EvStore key (length (chans c)) :: ev ++ log c)).
Proof.
  intros [H1 H2 H3 H4 H5 H6] Hfree Hev.
  assert (Hst : starts (EvStore key (length (chans c)) :: ev ++ log c)
                = starts ev ++ starts (log c)).
  { rewrite starts_cons_none by done. unfold starts. by rewrite omap_app. }
  assert (Hrep : replay (ev ++ log c) = stopChannels c).
  { destruct Hev as [->|(e & -> & _ & Ha)]; simpl; [done|]. by rewrite Ha. }
  assert (Hbound : forall k ch, stopChannels c !! k = Some ch -> (ch < length (chans c))%nat).
  { intros k ch Hk. by eapply lookup_lt_Some, H3. }
  split; cbn [stopChannels chans queue log].
  - change (<[key:=length (chans c)]> (replay (ev ++ log c)) = <[key:=length (chans c)]> (stopChannels c)).
    by rewrite Hrep.
  - split; [done|]. destruct Hev as [->|(e & -> & Hs & Ha)]; simpl; [done|].
    rewrite Hs. split; [|done]. by rewrite H1.
  - intros k ch Hk. apply lookup_insert_Some in Hk as [[<- <-]|[Hne Hk]].
    + apply lookup_snoc_new.
    + apply lookup_snoc_old. by eapply H3.
  - intros k1 k2 ch Ha Hb.
    apply lookup_insert_Some in Ha as [[<- <-]|[Hne1 Ha]];
      apply lookup_insert_Some in Hb as [[<- Hb]|[Hne2 Hb]]; try done.
    + apply Hbound in Hb. lia.
    + apply Hbound in Ha. lia.
    + by eapply H4.
  - intros k ch Hin. rewrite Hst in Hin. rewrite length_app. simpl.
    apply elem_of_app in Hin as [Hin|Hin].
    + destruct Hev as [->|(e & -> & Hs & Ha)].
      * by apply elem_of_nil in Hin.
      * unfold starts in Hin. simpl in Hin. rewrite Hs in Hin.
        apply list_elem_of_singleton in Hin. injection Hin as -> ->.
        split; [lia|]. intros _. apply lookup_insert_eq.
    + destruct (H5 _ _ Hin) as [Hlt Hreg]. split; [lia|].
      rewrite lookup_snoc_lt by done. intros Hopen.
      specialize (Hreg Hopen). rewrite lookup_insert_ne; [done|].
      intros <-. congruence.
  - rewrite Hst, fmap_app. destruct Hev as [->|(e & -> & Hs & Ha)]; [done|].
    unfold starts at 1. simpl. rewrite Hs. simpl. constructor; [|done].
    intros Hin. apply list_elem_of_fmap in Hin as ([k ch] & Heq & Hin). simpl in Heq. subst ch.
    apply H5 in Hin as [Hlt _]. lia.
Qed.

(** ** How a state evolves *)

Lemma evolves_refl K c : inv c -> evolves K c c [].
Proof. intros H. split; try done. exists []. by rewrite app_nil_r. Qed.

Lemma evolves_trans K c1 c2 c3 d1 d2 :
  evolves K c1 c2 d1 -> evolves K c2 c3 d2 -> evolves K c1 c3 (d2 ++ d1).
Proof.
  intros [A1 A2 A3 A4 A5 A6] [B1 B2 B3 B4 B5 B6]. split.
  - done.
  - destruct A2 as [q1 A2], B2 as [q2 B2]. exists (q1 ++ q2).
    rewrite B2, A2. by rewrite app_assoc.
  - rewrite B3, A3. by rewrite app_assoc.
  - intros k Hk. rewrite B4 by done. by apply A4.
  - intros ch Hc. by apply B5, A5.
  - lia.
Qed.

Lemma evolves_weaken K K' c c' d :
  K ⊆ K' -> evolves K c c' d -> evolves K' c c' d.
Proof.
  intros Hsub [A1 A2 A3 A4 A5 A6]. split; try done.
  intros k Hk. apply A4. intros Hin. by apply Hk, Hsub.
Qed.

Lemma evolves_stopped key ch c :
  inv c -> stopChannels c !! key = Some ch ->
  stopController key ch c = Ret tt (stopped key ch c)
  /\ evolves [key] c (stopped key ch c) [EvDelete key; EvClose ch].
Proof.
  intros Hinv Hk. destruct (stopController_spec key ch c Hinv Hk) as (c' & Hrun & Hinv' & Hm & Hc & Hq & Hl).
  assert (c' = stopped key ch c) as ->.
  { destruct c'. unfold stopped. simpl in *. congruence. }
  split; [done|]. split; try done.
  - exists []. cbn. by rewrite app_nil_r.
  - intros k Hne. cbn. apply lookup_delete_ne. set_solver.
  - intros ch' Hc'. cbn. destruct (decide (ch = ch')) as [->|Hne].
    + apply list_lookup_insert_eq. by eapply lookup_lt_Some.
    + by rewrite list_lookup_insert_ne.
  - cbn. by rewrite length_insert.
Qed.

Lemma evolves_failedStart K c :
  inv c -> evolves K c (failedStart c) [EvClose (length (chans c))].
Proof.
  intros Hinv. split; try done.
  - by apply inv_failed_start.
  - exists []. cbn. by rewrite app_nil_r.
  - intros ch Hc. cbn. rewrite list_lookup_insert_ne.
    + by apply lookup_snoc_old.
    + apply lookup_lt_Some in Hc. lia.
  - cbn. rewrite length_insert, length_app. lia.
Qed.

Lemma evolves_registered key ev c :
  inv c -> stopChannels c !! key = None ->
  (ev = [] \/ exists e, ev = [e] /\ startOf e = Some (key, length (chans c))
                      /\ applyEvent e = (fun m => m)) ->
  evolves [key] c (registered key ev c) (EvStore key (length (chans c)) :: ev).
Proof.
  intros Hinv Hfree Hev. split; try done.
  - by apply inv_register.
  - exists []. cbn. by rewrite app_nil_r.
  - intros k Hne. cbn. apply lookup_insert_ne. set_solver.
  - intros ch Hc. cbn. by apply lookup_snoc_old.
  - cbn. rewrite length_app. lia.
Qed.

Lemma evolves_logged K e c :
  startOf e = None -> applyEvent e = (fun m => m) ->
  inv c -> evolves K c (logged e c) [e].
Proof.
  intros Hs Ha Hinv. split; try done.
  - by apply inv_emit.
  - exists []. cbn. by rewrite app_nil_r.
Qed.

Lemma inv_enqueued q c : inv c -> inv (enqueued q c).
Proof. intros H. by apply (inv_queue c (queue c ++ q)). Qed.

Lemma evolves_enqueued K q c : inv c -> evolves K c (enqueued q c) [].
Proof.
  intros Hinv. split; try done.
  - by apply inv_enqueued.
  - by exists q.
Qed.

(** ** Starting and stopping one controller *)

Lemma closeChan_fresh c0 :
  closeChan (length (chans c0))
    (mkController (stopChannels c0) (chans c0 ++ [false]) (queue c0) (log c0))
  = Ret tt (failedStart c0).
Proof. unfold closeChan. cbn [chans]. by rewrite lookup_snoc_new. Qed.

Lemma startSyncController_run env tc c :
  exists err c' delta,
    startSyncController env tc c = Ret err c'
    /\ startResult (Name tc) (EvSyncStarted (Name tc) (length (chans c))) c err c' delta
    /\ (err = None <-> syncStartable env tc (length (chans c)) = true).
Proof.
  unfold startSyncController, syncStartable, namespaceMissing, fedNamespaceResource,
    namespaceFTCExists.
  assert (Hbody : forall r,
    exists err c' delta,
      (do stopChan <- makeChan;
       match StartKubeFedSyncController env tc r stopChan with
       | Some err => closeChan stopChan ;; ret (Some (Wrapf err "Error starting sync controller"))
       | None => emit (EvSyncStarted (Name tc) stopChan) ;; mapStore (Name tc) stopChan ;; ret None
       end) c = Ret err c'
      /\ startResult (Name tc) (EvSyncStarted (Name tc) (length (chans c))) c err c' delta
      /\ (err = None <-> negb (isSome (StartKubeFedSyncController env tc r (length (chans c)))) = true)).
  { intros r. unfold bind at 1. unfold makeChan.
    destruct (StartKubeFedSyncController env tc r (length (chans c))) as [e|] eqn:Hs.
    - unfold bind. rewrite closeChan_fresh. do 3 eexists. split; [reflexivity|].
      split; [apply sr_failed|]. simpl. split; intros; discriminate.
    - unfold bind, emit, mapStore, ret. cbn. do 3 eexists. split; [reflexivity|].
      split; [apply sr_started|]. done. }
  destruct (GetNamespaced tc); simpl.
  - destruct (getFederatedNamespaceAPIResource env) as [r [e|]]; simpl.
    + do 3 eexists. split; [reflexivity|]. split; [apply sr_refused|].
      split; intros; discriminate.
    + apply Hbody.
  - apply Hbody.
Qed.

Lemma startStatusController_run env statusKey tc c :
  exists err c' delta,
    startStatusController env statusKey tc c = Ret err c'
    /\ startResult statusKey (EvStatusStarted (Name tc) (length (chans c))) c err c' delta
    /\ (err = None <-> statusStartable env tc (length (chans c)) = true).
Proof.
  unfold startStatusController, statusStartable. unfold bind at 1. unfold makeChan.
  destruct (StartKubeFedStatusController env tc (length (chans c))) as [e|] eqn:Hs.
  - unfold bind. rewrite closeChan_fresh. do 3 eexists. split; [reflexivity|].
    split; [apply sr_failed|]. simpl. split; intros; discriminate.
  - unfold bind, emit, mapStore, ret. cbn. do 3 eexists. split; [reflexivity|].
    split; [apply sr_started|]. done.
Qed.

Lemma startResult_evolves key e c err c' delta :
  inv c -> stopChannels c !! key = None ->
  startOf e = Some (key, length (chans c)) -> applyEvent e = (fun m => m) ->
  startResult key e c err c' delta ->
  evolves [key] c c' delta.
Proof.
  intros Hinv Hfree Hs Ha Hr. destruct Hr.
  - apply evolves_registered; [done..|]. right. by exists e.
  - by apply evolves_refl.
  - by apply evolves_failedStart.
Qed.

Lemma startResult_failed key e c msg c' delta :
  startResult key e c (Some msg) c' delta ->
  stopChannels c' = stopChannels c /\ starts delta = [] /\ queue c' = queue c
  /\ ((c' = c /\ delta = [])
      \/ (chans c' !! length (chans c) = Some true
          /\ delta = [EvClose (length (chans c))])).
Proof.
  intros Hr. inversion Hr; subst; cbn.
  - split_and!; try done. by left.
  - split_and!; try done. right. split; [|done].
    apply list_lookup_insert_eq. rewrite length_app. simpl. lia.
Qed.

Lemma stopFound_run key c :
  inv c ->
  stopFound key (stopChannels c !! key) c = Ret tt (afterStop key (stopChannels c !! key) c)
  /\ evolves [key] c (afterStop key (stopChannels c !! key) c)
             (stopEvents key (stopChannels c !! key))
  /\ stopChannels (afterStop key (stopChannels c !! key) c) !! key = None.
Proof.
  intros Hinv. unfold stopFound, afterStop, stopEvents.
  destruct (stopChannels c !! key) as [ch|] eqn:Hk.
  - destruct (evolves_stopped key ch c Hinv Hk) as [Hrun Hev].
    split; [done|]. split; [done|]. cbn. apply lookup_delete_eq.
  - split; [done|]. split; [by apply evolves_refl|done].
Qed.

Lemma startResult_statusStarts name key c err c' delta :
  startResult key (EvSyncStarted name (length (chans c))) c err c' delta ->
  statusStarts delta = [].
Proof. by destruct 1. Qed.

Lemma startResult_syncStarts name key c err c' delta :
  startResult key (EvStatusStarted name (length (chans c))) c err c' delta ->
  syncStarts delta = [].
Proof. by destruct 1. Qed.

Lemma statusStarts_app l1 l2 : statusStarts (l1 ++ l2) = statusStarts l1 ++ statusStarts l2.
Proof. unfold statusStarts. by rewrite omap_app. Qed.

Lemma syncStarts_app l1 l2 : syncStarts (l1 ++ l2) = syncStarts l1 ++ syncStarts l2.
Proof. unfold syncStarts. by rewrite omap_app. Qed.

Lemma closes_app l1 l2 : closes (l1 ++ l2) = closes l1 ++ closes l2.
Proof. unfold closes. by rewrite omap_app. Qed.

Lemma stopEvents_no_starts key found :
  syncStarts (stopEvents key found) = [] /\ statusStarts (stopEvents key found) = [].
Proof. by destruct found. Qed.

Lemma startSyncController_spec env tc c :
  inv c -> stopChannels c !! Name tc = None ->
  exists err c' delta,
    startSyncController env tc c = Ret err c'
    /\ startResult (Name tc) (EvSyncStarted (Name tc) (length (chans c))) c err c' delta
    /\ (err = None <-> syncStartable env tc (length (chans c)) = true)
    /\ evolves [Name tc] c c' delta /\ statusStarts delta = [].
Proof.
  intros Hinv Hfree.
  destruct (startSyncController_run env tc c) as (err & c' & delta & Hrun & Hr & Hiff).
  exists err, c', delta. split_and!; try done.
  - eapply startResult_evolves; [done|done| | |exact Hr]; done.
  - by eapply startResult_statusStarts.
Qed.

Lemma startStatusController_spec env tc c :
  inv c -> stopChannels c !! statusKeyOf (Name tc) = None ->
  exists err c' delta,
    startStatusController env (statusKeyOf (Name tc)) tc c = Ret err c'
    /\ startResult (statusKeyOf (Name tc)) (EvStatusStarted (Name tc) (length (chans c)))
                   c err c' delta
    /\ (err = None <-> statusStartable env tc (length (chans c)) = true)
    /\ evolves [statusKeyOf (Name tc)] c c' delta /\ syncStarts delta = [].
Proof.
  intros Hinv Hfree.
  destruct (startStatusController_run env (statusKeyOf (Name tc)) tc c)
    as (err & c' & delta & Hrun & Hr & Hiff).
  exists err, c', delta. split_and!; try done.
  - eapply startResult_evolves; [done|done| | |exact Hr]; done.
  - by eapply startResult_syncStarts.
Qed.

(** refreshSyncController: stop what is registered, then start. *)
Lemma refreshSyncController_spec env tc c :
  inv c ->
  let c1 := afterStop (Name tc) (stopChannels c !! Name tc) c in
  exists err c' delta,
    refreshSyncController env tc c = Ret err c'
    /\ startResult (Name tc) (EvSyncStarted (Name tc) (length (chans c1))) c1 err c' delta
    /\ (err = None <-> syncStartable env tc (length (chans c1)) = true)
    /\ evolves [Name tc] c c' (delta ++ stopEvents (Name tc) (stopChannels c !! Name tc))
    /\ statusStarts (delta ++ stopEvents (Name tc) (stopChannels c !! Name tc)) = [].
Proof.
  intros Hinv c1. destruct (stopFound_run (Name tc) c Hinv) as (Hrun1 & Hev1 & Hfree).
  fold c1 in Hrun1, Hev1, Hfree.
  destruct (startSyncController_spec env tc c1 (ev_inv _ _ _ _ Hev1) Hfree)
    as (err & c' & delta & Hrun & Hr & Hiff & Hev & Hst).
  exists err, c', delta. split_and!; try done.
  - unfold refreshSyncController, bind, getStopChannel. by rewrite Hrun1.
  - by eapply evolves_trans.
  - rewrite statusStarts_app, Hst. by destruct (stopChannels c !! Name tc).
Qed.

Lemma manageSyncController_spec env tc se c :
  inv c ->
  exists err c' delta,
    manageSyncController env tc se (stopChannels c !! Name tc) c = Ret err c'
    /\ evolves [Name tc] c c' delta /\ statusStarts delta = [].
Proof.
  intros Hinv. unfold manageSyncController, startNewSyncController.
  destruct (stopChannels c !! Name tc) as [ch|] eqn:Hk; cbn [isSome negb andb].
  - destruct (stopSyncController env tc true se).
    + destruct (evolves_stopped _ _ _ Hinv Hk) as [Hrun Hev].
      unfold bind, stopFound. rewrite Hrun. do 3 eexists. split; [reflexivity|]. by split.
    + do 3 eexists. split; [reflexivity|]. split; [by apply evolves_refl|done].
  - destruct se; simpl.
    + destruct (startSyncController_spec env tc c Hinv Hk)
        as (err & c' & delta & Hrun & Hr & Hiff & Hev & Hst).
      by exists err, c', delta.
    + do 3 eexists. split; [reflexivity|]. split; [by apply evolves_refl|done].
Qed.

Lemma manageStatusController_spec env tc se c :
  inv c ->
  exists err c' delta,
    manageStatusController env tc (statusKeyOf (Name tc)) se
                           (stopChannels c !! statusKeyOf (Name tc)) c = Ret err c'
    /\ evolves [statusKeyOf (Name tc)] c c' delta /\ syncStarts delta = []
    /\ (statusStarts delta <> [] -> se = true).
Proof.
  intros Hinv. unfold manageStatusController, startNewStatusController, stopStatusController.
  destruct (stopChannels c !! statusKeyOf (Name tc)) as [ch|] eqn:Hk; simpl.
  - destruct se; simpl.
    + do 3 eexists. split; [reflexivity|]. split; [by apply evolves_refl|done].
    + destruct (evolves_stopped _ _ _ Hinv Hk) as [Hrun Hev].
      unfold bind, stopFound. rewrite Hrun. do 3 eexists. split; [reflexivity|]. by split.
  - destruct se; simpl.
    + destruct (startStatusController_spec env tc c Hinv Hk)
        as (err & c' & delta & Hrun & Hr & Hiff & Hev & Hst).
      by exists err, c', delta.
    + do 3 eexists. split; [reflexivity|]. split; [by apply evolves_refl|done].
Qed.

Lemma refreshIfNeeded_spec env tc sr se c :
  inv c ->
  exists err c' delta,
    refreshIfNeeded env tc sr se c = Ret err c'
    /\ evolves [Name tc] c c' delta /\ statusStarts delta = [].
Proof.
  intros Hinv. unfold refreshIfNeeded. destruct (refreshNeeded env tc sr se).
  - destruct (refreshSyncController_spec env tc c Hinv)
      as (err & c' & delta & Hrun & Hr & Hiff & Hev & Hst).
    by do 3 eexists.
  - do 3 eexists. split; [reflexivity|]. split; [by apply evolves_refl|done].
Qed.

Lemma reconcileOnNamespaceFTCUpdate_run env c :
  reconcileOnNamespaceFTCUpdate env c = Ret tt (enqueued (toEnqueue env) c).
Proof.
  unfold reconcileOnNamespaceFTCUpdate, toEnqueue.
  generalize ((map_to_list (store env)).*2). intros l. revert c.
  induction l as [|tc l IH]; intros c.
  - simpl. unfold ret, enqueued. rewrite app_nil_r. by destruct c.
  - simpl. unfold bind at 1.
    destruct (GetNamespaced tc && negb (IsNamespace tc)); simpl.
    + rewrite IH. unfold enqueued. cbn. by rewrite <- app_assoc.
    + by rewrite IH.
Qed.

Lemma updateStatus_run env tc c :
  updateStatus env tc c
  = Ret (match clientUpdateStatus env tc with Some _ => StatusError | None => StatusAllOK end)
        (logged (EvUpdateStatus tc (clientUpdateStatus env tc)) c).
Proof. unfold updateStatus, bind, emit, logged. by destruct (clientUpdateStatus env tc). Qed.

Lemma ensureFinalizer_run env tc c :
  ensureFinalizer env tc c
  = if ContainsFinalizer tc finalizer then Ret (tc, false, None) c
    else Ret (AddFinalizer tc finalizer, true, clientPatch env (AddFinalizer tc finalizer))
             (logged (EvPatch (AddFinalizer tc finalizer)
                              (clientPatch env (AddFinalizer tc finalizer))) c).
Proof. unfold ensureFinalizer. by destruct (ContainsFinalizer tc finalizer). Qed.

Lemma removeFinalizer_run env tc c :
  removeFinalizer env tc c
  = if ContainsFinalizer tc finalizer
    then Ret (clientPatch env (RemoveFinalizer tc finalizer))
             (logged (EvPatch (RemoveFinalizer tc finalizer)
                              (clientPatch env (RemoveFinalizer tc finalizer))) c)
    else Ret None c.
Proof. unfold removeFinalizer. by destruct (ContainsFinalizer tc finalizer). Qed.

(** ** The paths of reconcile *)

Lemma string_length_app (s1 s2 : string) :
  String.length (s1 +:+ s2) = (String.length s1 + String.length s2)%nat.
Proof. induction s1 as [|a s1 IH]; simpl; [done|]. by rewrite IH. Qed.

Lemma statusKey_ne name : name <> statusKeyOf name.
Proof.
  intros H. apply (f_equal String.length) in H.
  unfold statusKeyOf in H. rewrite string_length_app in H. simpl in H. lia.
Qed.

Lemma Name_AddFinalizer tc f : Name (AddFinalizer tc f) = Name tc.
Proof. unfold AddFinalizer. by destruct (ContainsFinalizer tc f). Qed.

Lemma reconcile_fetched env qn tc c :
  fetched env qn = Some tc ->
  reconcile env qn c =
    if skipsClusterScoped env tc then reconcileClusterScoped env tc c
    else if isSome (DeletionTimestamp tc)
         then reconcileDeleted env tc (statusKeyOf (Name tc))
                (stopChannels c !! Name tc) (stopChannels c !! statusKeyOf (Name tc)) c
         else reconcileLive env tc (statusKeyOf (Name tc)) (GetPropagationEnabled tc)
                (statusControllerEnabled env tc)
                (stopChannels c !! Name tc) (stopChannels c !! statusKeyOf (Name tc)) c.
Proof.
  unfold fetched, reconcile.
  destruct (objCopyFromCache env (QualifiedName_String qn)) as [[o|] [e|]]; try done.
  intros [= <-]. destruct (skipsClusterScoped env _); [done|].
  unfold bind, getStopChannel. by destruct (isSome _).
Qed.

Lemma reconcile_not_fetched env qn c :
  fetched env qn = None -> exists r, reconcile env qn c = Ret r c.
Proof.
  unfold fetched, reconcile.
  destruct (objCopyFromCache env (QualifiedName_String qn)) as [[o|] [e|]]; try done;
    intros _; by eexists.
Qed.

Lemma reconcileClusterScoped_run env tc c :
  reconcileClusterScoped env tc c
  = Ret (statusResult (clientUpdateStatus env (notRunningStatus tc)))
        (logged (EvUpdateStatus (notRunningStatus tc)
                                (clientUpdateStatus env (notRunningStatus tc)))
                (afterHolder (Name tc) c)).
Proof.
  unfold reconcileClusterScoped, afterHolder. unfold bind at 1. unfold getStopChannel.
  destruct (stopChannels c !! Name tc) as [ch|].
  - unfold bind, ret. by rewrite updateStatus_run.
  - unfold bind, makeChan, mapStore. by rewrite updateStatus_run.
Qed.

Lemma evolves_afterHolder name c :
  inv c -> evolves [name] c (afterHolder name c)
             (match stopChannels c !! name with
              | Some _ => []
              | None => [EvStore name (length (chans c))]
              end).
Proof.
  intros Hinv. unfold afterHolder. destruct (stopChannels c !! name) eqn:Hk.
  - by apply evolves_refl.
  - apply evolves_registered; [done|done|by left].
Qed.

Lemma reconcileDeleted_run env tc c :
  inv c ->
  reconcileDeleted env tc (statusKeyOf (Name tc))
     (stopChannels c !! Name tc) (stopChannels c !! statusKeyOf (Name tc)) c
  = Ret (deletedResult env tc) (afterDeleted env tc c)
  /\ evolves [Name tc; statusKeyOf (Name tc)] c (afterDeleted env tc c) (deletedEvents env tc c).
Proof.
  intros Hinv. unfold reconcileDeleted, afterDeleted, deletedResult, deletedEvents.
  destruct (stopFound_run (Name tc) c Hinv) as (Hrun1 & Hev1 & Hfree1).
  set (c1 := afterStop (Name tc) (stopChannels c !! Name tc) c) in *.
  assert (Hk2 : stopChannels c1 !! statusKeyOf (Name tc) = stopChannels c !! statusKeyOf (Name tc)).
  { apply (ev_other _ _ _ _ Hev1). pose proof (statusKey_ne (Name tc)). set_solver. }
  destruct (stopFound_run (statusKeyOf (Name tc)) c1 (ev_inv _ _ _ _ Hev1)) as (Hrun2 & Hev2 & Hfree2).
  rewrite Hk2 in Hrun2, Hev2, Hfree2.
  set (c2 := afterStop (statusKeyOf (Name tc)) (stopChannels c !! statusKeyOf (Name tc)) c1) in *.
  assert (Hev12 : evolves [Name tc; statusKeyOf (Name tc)] c c2
            (stopEvents (statusKeyOf (Name tc)) (stopChannels c !! statusKeyOf (Name tc))
             ++ stopEvents (Name tc) (stopChannels c !! Name tc))).
  { eapply evolves_trans; (eapply evolves_weaken; [|eassumption]); set_solver. }
  unfold bind. rewrite Hrun1, Hrun2.
  set (c3 := if IsNamespace tc then enqueued (toEnqueue env) c2 else c2).
  assert (Hrun3 : (if IsNamespace tc then reconcileOnNamespaceFTCUpdate env else ret tt) c2
                  = Ret tt c3).
  { unfold c3. destruct (IsNamespace tc); [apply reconcileOnNamespaceFTCUpdate_run|done]. }
  assert (Hev3 : evolves [Name tc; statusKeyOf (Name tc)] c2 c3 []).
  { unfold c3. destruct (IsNamespace tc).
    - apply evolves_enqueued, (ev_inv _ _ _ _ Hev12).
    - apply evolves_refl, (ev_inv _ _ _ _ Hev12). }
  rewrite Hrun3, removeFinalizer_run.
  pose proof (evolves_trans _ _ _ _ _ _ Hev12 Hev3) as Hev123. simpl in Hev123.
  destruct (ContainsFinalizer tc finalizer).
  - split; [by destruct (clientPatch env _)|].
    eapply (evolves_trans _ _ _ _ _ [_]); [exact Hev123|].
    apply evolves_logged; [done|done|]. apply (ev_inv _ _ _ _ Hev123).
  - split; [done|]. exact Hev123.
Qed.

Lemma name_not_in_status tc : Name tc ∉ [statusKeyOf (Name tc)].
Proof. pose proof (statusKey_ne (Name tc)). set_solver. Qed.

Lemma status_not_in_name tc : statusKeyOf (Name tc) ∉ [Name tc].
Proof. pose proof (statusKey_ne (Name tc)). set_solver. Qed.

Lemma evolves_name tc c c' d : evolves [Name tc] c c' d -> evolves (bothKeys tc) c c' d.
Proof. apply evolves_weaken. unfold bothKeys. set_solver. Qed.

Lemma evolves_status tc c c' d :
  evolves [statusKeyOf (Name tc)] c c' d -> evolves (bothKeys tc) c c' d.
Proof. apply evolves_weaken. unfold bothKeys. set_solver. Qed.

Lemma publishStatus_run env tc a b c :
  exists r e, publishStatus env tc a b c = Ret r (logged e c)
              /\ startOf e = None /\ applyEvent e = (fun m => m)
              /\ statusStarts [e] = [] /\ syncStarts [e] = [] /\ closes [e] = [].
Proof. unfold publishStatus. rewrite updateStatus_run. by do 2 eexists. Qed.

(** Whatever the two controllers need, the reconcile of a live descriptor
    returns, keeps the invariant, and starts a status controller only when
    status collection is on. *)
Lemma reconcileControllers_spec env tc se ste c :
  inv c ->
  exists r c' delta,
    reconcileControllers env tc (statusKeyOf (Name tc)) se ste
      (stopChannels c !! Name tc) (stopChannels c !! statusKeyOf (Name tc)) c = Ret r c'
    /\ evolves (bothKeys tc) c c' delta
    /\ (statusStarts delta <> [] -> ste = true).
Proof.
  intros Hinv. unfold reconcileControllers.
  destruct (manageSyncController_spec env tc se c Hinv) as (e1 & c1 & d1 & Hrun1 & Hev1 & Hst1).
  unfold bind at 1. rewrite Hrun1.
  apply evolves_name in Hev1 as Hev1'.
  destruct e1 as [msg|].
  { exists StatusError, c1, d1. split; [done|]. split; [done|]. by rewrite Hst1. }
  assert (Hk : stopChannels c1 !! statusKeyOf (Name tc) = stopChannels c !! statusKeyOf (Name tc)).
  { apply (ev_other _ _ _ _ Hev1), status_not_in_name. }
  destruct (manageStatusController_spec env tc ste c1 (ev_inv _ _ _ _ Hev1))
    as (e2 & c2 & d2 & Hrun2 & Hev2 & Hsy2 & Hst2).
  rewrite Hk in Hrun2. unfold bind at 1. rewrite Hrun2.
  apply evolves_status in Hev2.
  pose proof (evolves_trans _ _ _ _ _ _ Hev1' Hev2) as Hev12.
  assert (Hst12 : statusStarts (d2 ++ d1) <> [] -> ste = true).
  { rewrite statusStarts_app, Hst1, app_nil_r. exact Hst2. }
  destruct e2 as [msg|].
  { by exists StatusError, c2, (d2 ++ d1). }
  destruct (refreshIfNeeded_spec env tc (isSome (stopChannels c !! Name tc)) se c2
              (ev_inv _ _ _ _ Hev12)) as (e3 & c3 & d3 & Hrun3 & Hev3 & Hst3).
  unfold bind at 1. rewrite Hrun3.
  apply evolves_name in Hev3.
  pose proof (evolves_trans _ _ _ _ _ _ Hev12 Hev3) as Hev123.
  assert (Hst123 : statusStarts (d3 ++ d2 ++ d1) <> [] -> ste = true).
  { rewrite statusStarts_app, Hst3. exact Hst12. }
  destruct e3 as [msg|].
  { by exists StatusError, c3, (d3 ++ d2 ++ d1). }
  destruct (publishStatus_run env tc
     (startNewSyncController (isSome (stopChannels c !! Name tc)) se
      || isSome (stopChannels c !! Name tc)
         && negb (stopSyncController env tc (isSome (stopChannels c !! Name tc)) se))
     (startNewStatusController (isSome (stopChannels c !! statusKeyOf (Name tc))) ste
      || isSome (stopChannels c !! statusKeyOf (Name tc))
         && negb (stopStatusController (isSome (stopChannels c !! statusKeyOf (Name tc))) ste))
     c3) as (r & e & Hrun4 & Hs & Ha & Hst4 & _).
  exists r, (logged e c3), ([e] ++ d3 ++ d2 ++ d1). split; [exact Hrun4|]. split.
  - eapply evolves_trans; [exact Hev123|]. apply evolves_logged; [done|done|].
    apply (ev_inv _ _ _ _ Hev123).
  - rewrite statusStarts_app, Hst4. exact Hst123.
Qed.

Lemma IsNamespace_AddFinalizer tc f : IsNamespace (AddFinalizer tc f) = IsNamespace tc.
Proof. unfold IsNamespace. by rewrite Name_AddFinalizer. Qed.

Lemma AddFinalizer_contained tc f : ContainsFinalizer tc f = true -> AddFinalizer tc f = tc.
Proof. unfold AddFinalizer. by intros ->. Qed.

Lemma reconcileLive_run env tc sk se ste sc stc c :
  reconcileLive env tc sk se ste sc stc c =
    if finalizerEnsured env tc
    then reconcileControllers env (AddFinalizer tc finalizer) sk se ste sc stc
                              (afterFinalizer env tc c)
    else Ret StatusError (afterFinalizer env tc c).
Proof.
  unfold reconcileLive, finalizerEnsured, afterFinalizer. unfold bind at 1.
  rewrite ensureFinalizer_run.
  destruct (ContainsFinalizer tc finalizer) eqn:Hc; cbn [orb].
  - rewrite (AddFinalizer_contained _ _ Hc). done.
  - destruct (clientPatch env (AddFinalizer tc finalizer)) as [e|]; cbn [isSome negb]; [done|].
    rewrite IsNamespace_AddFinalizer. cbn [andb]. unfold bind.
    destruct (IsNamespace tc); [by rewrite reconcileOnNamespaceFTCUpdate_run|done].
Qed.

Lemma evolves_afterFinalizer K env tc c :
  inv c -> evolves K c (afterFinalizer env tc c) (finalizerEvents env tc)
           /\ stopChannels (afterFinalizer env tc c) = stopChannels c
           /\ chans (afterFinalizer env tc c) = chans c.
Proof.
  intros Hinv. unfold afterFinalizer, finalizerEvents.
  destruct (ContainsFinalizer tc finalizer).
  { split; [by apply evolves_refl|done]. }
  assert (Hl : evolves K c (logged (EvPatch (AddFinalizer tc finalizer)
                 (clientPatch env (AddFinalizer tc finalizer))) c)
                 [EvPatch (AddFinalizer tc finalizer) (clientPatch env (AddFinalizer tc finalizer))]).
  { by apply evolves_logged. }
  destruct (isSome _); [done|]. destruct (IsNamespace tc); [|done].
  split; [|done].
  eapply (evolves_trans _ _ _ _ _ []); [exact Hl|].
  apply evolves_enqueued, (ev_inv _ _ _ _ Hl).
Qed.

Lemma finalizerEvents_no_starts env tc :
  statusStarts (finalizerEvents env tc) = [] /\ syncStarts (finalizerEvents env tc) = []
  /\ closes (finalizerEvents env tc) = [].
Proof. unfold finalizerEvents. by destruct (ContainsFinalizer tc finalizer). Qed.

Lemma deletedEvents_no_starts env tc c :
  statusStarts (deletedEvents env tc c) = [] /\ syncStarts (deletedEvents env tc c) = [].
Proof.
  unfold deletedEvents.
  destruct (ContainsFinalizer tc finalizer), (stopChannels c !! statusKeyOf (Name tc)),
    (stopChannels c !! Name tc); done.
Qed.

(** Every reconcile from a state that satisfies the invariant returns. *)
Lemma reconcile_spec env qn c :
  inv c ->
  exists r c' delta,
    reconcile env qn c = Ret r c'
    /\ inv c' /\ log c' = delta ++ log c
    /\ (forall ch, chans c !! ch = Some true -> chans c' !! ch = Some true)
    /\ (statusStarts delta <> [] ->
        exists tc, fetched env qn = Some tc /\ statusControllerEnabled env tc = true).
Proof.
  intros Hinv. destruct (fetched env qn) as [tc|] eqn:Hf.
  2:{ destruct (reconcile_not_fetched env qn c Hf) as [r Hr].
      exists r, c, []. by split_and!. }
  rewrite (reconcile_fetched env qn tc c Hf).
  destruct (skipsClusterScoped env tc).
  { rewrite reconcileClusterScoped_run.
    pose proof (evolves_afterHolder (Name tc) c Hinv) as Hev.
    pose proof (evolves_logged [Name tc]
                  (EvUpdateStatus (notRunningStatus tc) (clientUpdateStatus env (notRunningStatus tc)))
                  _ eq_refl eq_refl (ev_inv _ _ _ _ Hev)) as Hev2.
    pose proof (evolves_trans _ _ _ _ _ _ Hev Hev2) as [A1 A2 A3 A4 A5 A6].
    do 3 eexists. split; [reflexivity|]. split_and!; try done.
    all: intros H; exfalso; apply H; by destruct (stopChannels c !! Name tc). }
  destruct (isSome (DeletionTimestamp tc)).
  { destruct (reconcileDeleted_run env tc c Hinv) as [Hrun [A1 A2 A3 A4 A5 A6]].
    rewrite Hrun. do 3 eexists. split; [reflexivity|]. split_and!; try done.
    all: intros H; exfalso; apply H; apply deletedEvents_no_starts. }
  rewrite reconcileLive_run.
  destruct (evolves_afterFinalizer (bothKeys tc) env tc c Hinv) as (Hev0 & Hm0 & Hc0).
  destruct (finalizerEvents_no_starts env tc) as (Hst0 & _).
  destruct (finalizerEnsured env tc).
  2:{ destruct Hev0 as [A1 A2 A3 A4 A5 A6].
      do 3 eexists. split; [reflexivity|]. split_and!; try done.
      all: by rewrite Hst0. }
  destruct (reconcileControllers_spec env (AddFinalizer tc finalizer)
              (GetPropagationEnabled tc) (statusControllerEnabled env tc)
              (afterFinalizer env tc c) (ev_inv _ _ _ _ Hev0))
    as (r & c' & delta & Hrun & Hev & Hst).
  rewrite Hm0 in Hrun. rewrite Name_AddFinalizer in Hrun.
  unfold bothKeys in Hev. rewrite Name_AddFinalizer in Hev. fold (bothKeys tc) in Hev.
  pose proof (evolves_trans _ _ _ _ _ _ Hev0 Hev) as [A1 A2 A3 A4 A5 A6].
  exists r, c', (delta ++ finalizerEvents env tc). split; [exact Hrun|].
  split_and!; try done.
  rewrite statusStarts_app, Hst0, app_nil_r. intros H. exists tc. split; [done|]. by apply Hst.
Qed.

(** ** shutDown and the reachable states *)

Lemma forEach_stop (l : list (string * nat)) c :
  inv c -> NoDup l.*1 ->
  (forall k ch, (k, ch) ∈ l -> stopChannels c !! k = Some ch) ->
  exists c', forEach l (fun kv => closeChan kv.2 ;; mapDelete kv.1) c = Ret tt c' /\ inv c'.
Proof.
  revert c. induction l as [|[k ch] l IH]; intros c Hinv Hnd Hall.
  - by exists c.
  - simpl. unfold bind at 1.
    assert (Hk : stopChannels c !! k = Some ch) by (apply Hall; left).
    destruct (evolves_stopped k ch c Hinv Hk) as [Hrun Hev].
    change (closeChan ch ;; mapDelete k) with (stopController k ch). rewrite Hrun.
    simpl in Hnd. apply NoDup_cons in Hnd as [Hnotin Hnd].
    apply IH; [apply (ev_inv _ _ _ _ Hev)|done|].
    intros k' ch' Hin. cbn. rewrite lookup_delete_ne.
    + apply Hall. by right.
    + intros <-. apply Hnotin. apply list_elem_of_fmap. by exists (k, ch').
Qed.

Lemma shutDown_spec c : inv c -> exists c', shutDown c = Ret tt c' /\ inv c'.
Proof.
  intros Hinv. unfold shutDown. apply forEach_stop; [done|apply NoDup_fst_map_to_list|].
  intros k ch Hin. by apply elem_of_map_to_list.
Qed.

Lemma reachable_inv c : reachable c -> inv c.
Proof.
  induction 1 as [|env qn c r c' _ IH Hrun|c c' _ IH Hrun].
  - apply inv_new.
  - destruct (reconcile_spec env qn c IH) as (r0 & c0 & d & Hrun0 & Hinv0 & _).
    rewrite Hrun in Hrun0. by injection Hrun0 as -> ->.
  - destruct (shutDown_spec c IH) as (c0 & Hrun0 & Hinv0).
    rewrite Hrun in Hrun0. by injection Hrun0 as ->.
Qed.

(** From a reachable state every reconcile returns, and does not panic. *)
Lemma reconcile_returns env qn c :
  reachable c -> exists r c', reconcile env qn c = Ret r c' /\ reachable c'.
Proof.
  intros Hr. destruct (reconcile_spec env qn c (reachable_inv c Hr))
    as (r & c' & d & Hrun & _).
  exists r, c'. split; [done|]. by eapply reach_reconcile.
Qed.

Lemma syncStarts_sublist l : sublist (syncStarts l) (starts l).
Proof.
  induction l as [|e l IH]; [constructor|].
  destruct e; simpl; try done; by constructor.
Qed.

Lemma statusStarts_sublist l : sublist (statusEntry <$> statusStarts l) (starts l).
Proof.
  induction l as [|e l IH]; [constructor|].
  destruct e; simpl; try done; by constructor.
Qed.

Lemma filter_sublist {A} (f : A -> bool) (l : list A) : sublist (List.filter f l) l.
Proof.
  induction l as [|x l IH]; [constructor|]. simpl. destruct (f x); by constructor.
Qed.

Lemma at_most_one (l : list nat) (a : nat) :
  NoDup l -> (forall x, x ∈ l -> x = a) -> (length l <= 1)%nat.
Proof.
  intros Hnd Hall. destruct l as [|x [|y l]]; simpl; [lia|lia|].
  exfalso. apply NoDup_cons in Hnd as [Hnotin _]. apply Hnotin.
  rewrite (Hall x) by (by left). rewrite (Hall y) by (right; by left). by left.
Qed.

Lemma isOpen_true c ch : isOpen c ch = true -> chans c !! ch = Some false.
Proof. unfold isOpen. destruct (chans c !! ch) as [[]|]; done. Qed.

Lemma in_filter_bool {A} (f : A -> bool) (l : list A) x :
  x ∈ List.filter f l -> x ∈ l /\ f x = true.
Proof. rewrite list_elem_of_In. intros H. apply filter_In in H. by rewrite list_elem_of_In. Qed.

Lemma runningSync_registered c name ch :
  inv c -> ch ∈ runningSync c name -> stopChannels c !! name = Some ch.
Proof.
  intros Hinv Hin. unfold runningSync in Hin.
  apply list_elem_of_fmap in Hin as ([n ch'] & -> & Hin).
  apply in_filter_bool in Hin as [Hin Hf]. simpl in *.
  apply andb_prop in Hf as [Hn Ho]. apply String.eqb_eq in Hn as ->.
  apply isOpen_true in Ho.
  apply (inv_started c Hinv); [|done].
  eapply elem_of_sublist; [done|apply syncStarts_sublist].
Qed.

Lemma runningStatus_registered c name ch :
  inv c -> ch ∈ runningStatus c name -> stopChannels c !! statusKeyOf name = Some ch.
Proof.
  intros Hinv Hin. unfold runningStatus in Hin.
  apply list_elem_of_fmap in Hin as ([n ch'] & -> & Hin).
  apply in_filter_bool in Hin as [Hin Hf]. simpl in *.
  apply andb_prop in Hf as [Hn Ho]. apply String.eqb_eq in Hn as ->.
  apply isOpen_true in Ho.
  apply (inv_started c Hinv); [|done].
  eapply elem_of_sublist; [|apply statusStarts_sublist].
  apply list_elem_of_fmap. by exists (name, ch').
Qed.

Lemma runningSync_NoDup c name : inv c -> NoDup (runningSync c name).
Proof.
  intros Hinv. eapply sublist_NoDup; [apply (inv_nodup c Hinv)|].
  unfold runningSync. apply fmap_sublist.
  etrans; [apply filter_sublist|apply syncStarts_sublist].
Qed.

Lemma runningStatus_NoDup c name : inv c -> NoDup (runningStatus c name).
Proof.
  intros Hinv. eapply sublist_NoDup; [apply (inv_nodup c Hinv)|].
  unfold runningStatus.
  assert (Heq : forall l : list (string * nat), l.*2 = (statusEntry <$> l).*2).
  { intros l. rewrite <- list_fmap_compose. done. }
  rewrite Heq. apply fmap_sublist.
  etrans; [|apply statusStarts_sublist]. apply fmap_sublist, filter_sublist.
Qed.

Lemma entriesUnder_length c key : (length (entriesUnder c key) <= 1)%nat.
Proof.
  unfold entriesUnder.
  assert (Hnd : NoDup (List.filter (fun kv : string * nat => String.eqb kv.1 key)
                                   (map_to_list (stopChannels c))).*1).
  { eapply sublist_NoDup; [apply (NoDup_fst_map_to_list (stopChannels c))|apply fmap_sublist, filter_sublist]. }
  assert (Hall : forall kv, kv ∈ List.filter (fun kv : string * nat => String.eqb kv.1 key)
                                   (map_to_list (stopChannels c)) -> kv.1 = key).
  { intros kv Hin. apply in_filter_bool in Hin as [_ Hf]. by apply String.eqb_eq. }
  destruct (List.filter _ _) as [|x [|y l]]; simpl; [lia|lia|].
  exfalso. simpl in Hnd. apply NoDup_cons in Hnd as [Hnotin _]. apply Hnotin.
  rewrite (Hall x) by (by left). rewrite <- (Hall y) by (right; by left). by left.
Qed.

(** ** The phases of a live reconcile *)

Lemma reconcileControllers_phases env tc se ste c :
  inv c ->
  exists r c' delta,
    reconcileControllers env tc (statusKeyOf (Name tc)) se ste
      (stopChannels c !! Name tc) (stopChannels c !! statusKeyOf (Name tc)) c = Ret r c'
    /\ phases env tc se ste c r c' delta.
Proof.
  intros Hinv. unfold reconcileControllers.
  destruct (manageSyncController_spec env tc se c Hinv) as (e1 & c1 & d1 & Hrun1 & Hev1 & Hst1).
  unfold bind at 1. rewrite Hrun1.
  pose proof (ev_inv _ _ _ _ Hev1) as Hinv1.
  destruct e1 as [msg|].
  { exists StatusError, c1, ([] ++ [] ++ [] ++ d1). split; [done|].
    eapply (mkPhases _ _ _ _ _ _ _ _ (Some msg) c1 d1 (Some msg) c1 [] (Some msg) c1 [] []);
      try done; try (by apply evolves_refl). }
  assert (Hk : stopChannels c1 !! statusKeyOf (Name tc) = stopChannels c !! statusKeyOf (Name tc)).
  { apply (ev_other _ _ _ _ Hev1), status_not_in_name. }
  destruct (manageStatusController_spec env tc ste c1 Hinv1)
    as (e2 & c2 & d2 & Hrun2 & Hev2 & Hsy2 & Hst2).
  rewrite Hk in Hrun2. unfold bind at 1. rewrite Hrun2.
  pose proof (ev_inv _ _ _ _ Hev2) as Hinv2.
  destruct e2 as [msg|].
  { exists StatusError, c2, ([] ++ [] ++ d2 ++ d1). split; [done|].
    eapply (mkPhases _ _ _ _ _ _ _ _ None c1 d1 (Some msg) c2 d2 (Some msg) c2 [] []);
      try done; try (by apply evolves_refl). }
  destruct (refreshIfNeeded_spec env tc (isSome (stopChannels c !! Name tc)) se c2 Hinv2)
    as (e3 & c3 & d3 & Hrun3 & Hev3 & Hst3).
  unfold bind at 1. rewrite Hrun3.
  destruct e3 as [msg|].
  { exists StatusError, c3, ([] ++ d3 ++ d2 ++ d1). split; [done|].
    eapply (mkPhases _ _ _ _ _ _ _ _ None c1 d1 None c2 d2 (Some msg) c3 d3 []);
      try done. }
  match goal with |- context [publishStatus env tc ?a ?b c3] =>
    destruct (publishStatus_run env tc a b c3) as (r & e & Hrun4 & Hs & Ha & Hst4 & Hsy4 & Hcl4)
  end.
  exists r, (logged e c3), ([e] ++ d3 ++ d2 ++ d1). split; [exact Hrun4|].
  eapply (mkPhases _ _ _ _ _ _ _ _ None c1 d1 None c2 d2 None c3 d3 [e]); try done.
  intros _. by exists e.
Qed.

Lemma phases_evolves env tc se ste c r c' delta :
  phases env tc se ste c r c' delta -> evolves (bothKeys tc) c c' delta.
Proof.
  intros [e1 c1 d1 e2 c2 d2 e3 c3 d3 pub H1 Hev1 Hst1 H2 H2s Hev2 Hsy2 H3 H3s Hev3 Hst3 Her Hok ->].
  apply evolves_name in Hev1. apply evolves_status in Hev2. apply evolves_name in Hev3.
  pose proof (evolves_trans _ _ _ _ _ _ (evolves_trans _ _ _ _ _ _ Hev1 Hev2) Hev3) as Hev.
  destruct e3 as [msg|].
  - destruct Her as (_ & -> & ->); [done|]. exact Hev.
  - destruct Hok as (e & -> & -> & Hs & Ha & _); [done|].
    eapply evolves_trans; [exact Hev|]. apply evolves_logged; [done|done|].
    apply (ev_inv _ _ _ _ Hev).
Qed.

Lemma GetNamespaced_AddFinalizer tc f : GetNamespaced (AddFinalizer tc f) = GetNamespaced tc.
Proof. unfold AddFinalizer. by destruct (ContainsFinalizer tc f). Qed.

(** A live descriptor whose finalizer is in place reaches the three
    phases. *)
Lemma reconcile_live env qn tc c :
  inv c -> fetched env qn = Some tc -> skipsClusterScoped env tc = false ->
  DeletionTimestamp tc = None -> finalizerEnsured env tc = true ->
  exists r c' delta,
    reconcile env qn c = Ret r c'
    /\ phases env (AddFinalizer tc finalizer) (GetPropagationEnabled tc)
              (statusControllerEnabled env tc) (afterFinalizer env tc c) r c' delta
    /\ evolves (bothKeys tc) c (afterFinalizer env tc c) (finalizerEvents env tc)
    /\ stopChannels (afterFinalizer env tc c) = stopChannels c
    /\ chans (afterFinalizer env tc c) = chans c.
Proof.
  intros Hinv Hf Hskip Hdel Hfin.
  rewrite (reconcile_fetched env qn tc c Hf), Hskip, Hdel. cbn [isSome].
  rewrite reconcileLive_run, Hfin.
  destruct (evolves_afterFinalizer (bothKeys tc) env tc c Hinv) as (Hev0 & Hm0 & Hc0).
  destruct (reconcileControllers_phases env (AddFinalizer tc finalizer)
              (GetPropagationEnabled tc) (statusControllerEnabled env tc)
              (afterFinalizer env tc c) (ev_inv _ _ _ _ Hev0)) as (r & c' & delta & Hrun & Hph).
  rewrite Hm0, Name_AddFinalizer in Hrun. by exists r, c', delta.
Qed.

Lemma log_delta_unique (l d d' : list Event) : d ++ l = d' ++ l -> d = d'.
Proof. apply app_inv_tail. Qed.

Lemma evolves_delta K c c' d d' : evolves K c c' d -> log c' = d' ++ log c -> d = d'.
Proof. intros Hev Hl. rewrite (ev_log _ _ _ _ Hev) in Hl. by apply app_inv_tail in Hl. Qed.

Lemma evolves_same K c d : evolves K c c d -> d = [].
Proof. intros Hev. by apply (evolves_delta _ _ _ _ [] Hev). Qed.

(** Exact forms of the sync phase. *)
Lemma manageSync_start env tc c :
  manageSyncController env tc true None c = startSyncController env tc c.
Proof. done. Qed.

Lemma manageSync_stop env tc se ch c :
  stopSyncController env tc true se = true ->
  manageSyncController env tc se (Some ch) c = (stopController (Name tc) ch ;; ret None) c.
Proof. unfold manageSyncController. cbn [isSome startNewSyncController negb andb]. by intros ->. Qed.

Lemma manageSync_keep env tc se found c :
  startNewSyncController (isSome found) se = false ->
  stopSyncController env tc (isSome found) se = false ->
  manageSyncController env tc se found c = Ret None c.
Proof. unfold manageSyncController. by intros -> ->. Qed.

Lemma manageStatus_start env tc key c :
  manageStatusController env tc key true None c = startStatusController env key tc c.
Proof. done. Qed.

Lemma manageStatus_stop env tc key ch c :
  manageStatusController env tc key false (Some ch) c = (stopController key ch ;; ret None) c.
Proof. done. Qed.

Lemma stop_then_ret key ch c :
  inv c -> stopChannels c !! key = Some ch ->
  (stopController key ch ;; ret (@None string)) c = Ret None (stopped key ch c).
Proof.
  intros Hinv Hk. destruct (evolves_stopped key ch c Hinv Hk) as [Hrun _].
  unfold bind. by rewrite Hrun.
Qed.

Lemma refresh_skipped env tc sr se c :
  refreshNeeded env tc sr se = false -> refreshIfNeeded env tc sr se c = Ret None c.
Proof. unfold refreshIfNeeded. by intros ->. Qed.

Lemma refreshNeeded_start env tc sr se :
  startNewSyncController sr se = true -> refreshNeeded env tc sr se = false.
Proof. unfold refreshNeeded. by intros ->. Qed.

Lemma refreshNeeded_stop env tc sr se :
  stopSyncController env tc sr se = true -> refreshNeeded env tc sr se = false.
Proof. unfold refreshNeeded. intros ->. by rewrite andb_false_r. Qed.

(** After the sync phase with the refresh switched off, the name's entry
    is what the sync phase left. *)
Lemma phases_no_refresh env tc se ste c r c' delta :
  refreshNeeded env tc (isSome (stopChannels c !! Name tc)) se = false ->
  phases env tc se ste c r c' delta ->
  exists e1 c1 d1 d2 pub,
    manageSyncController env tc se (stopChannels c !! Name tc) c = Ret e1 c1
    /\ evolves [Name tc] c c1 d1
    /\ stopChannels c' !! Name tc = stopChannels c1 !! Name tc
    /\ (forall ch, chans c1 !! ch = Some true -> chans c' !! ch = Some true)
    /\ delta = pub ++ d2 ++ d1 /\ syncStarts d2 = [] /\ syncStarts pub = []
    /\ (e1 <> None -> r = StatusError /\ c' = c1).
Proof.
  intros Hno [e1 c1 d1 e2 c2 d2 e3 c3 d3 pub H1 Hev1 Hst1 H2 H2s Hev2 Hsy2 H3 H3s Hev3 Hst3 Her Hok ->].
  assert (Hc3 : c3 = c2 /\ d3 = [] /\ e3 = e2).
  { destruct e2 as [msg|].
    - destruct H3s as (-> & -> & ->); done.
    - specialize (H3 eq_refl). rewrite refresh_skipped in H3 by done.
      injection H3 as <- <-. split; [done|]. split; [|done]. by eapply evolves_same. }
  destruct Hc3 as (-> & -> & ->).
  assert (Hc' : stopChannels c' = stopChannels c2 /\ chans c' = chans c2 /\ syncStarts pub = []).
  { destruct e2 as [msg|].
    - destruct Her as (_ & -> & ->); done.
    - destruct Hok as (e & -> & -> & _ & _ & Hsy & _); done. }
  destruct Hc' as (Hm & Hch & Hp).
  exists e1, c1, d1, d2, pub. split_and!; try done.
  - rewrite Hm. apply (ev_other _ _ _ _ Hev2), name_not_in_status.
  - intros ch Hc. rewrite Hch. by apply (ev_closed _ _ _ _ Hev2).
  - intros Hne. destruct (H2s Hne) as (-> & -> & ->).
    destruct e1; [|done]. destruct Her as (-> & -> & _); done.
Qed.

Lemma manageSync_ok env tc se c e1 c1 :
  (stopChannels c !! Name tc = None -> se = true ->
   syncStartable env tc (length (chans c)) = true) ->
  manageSyncController env tc se (stopChannels c !! Name tc) c = Ret e1 c1 ->
  inv c -> e1 = None.
Proof.
  intros Hok Hrun Hinv. unfold manageSyncController in Hrun.
  destruct (stopChannels c !! Name tc) as [ch|] eqn:Hk; cbn [isSome startNewSyncController negb andb] in Hrun.
  - destruct (stopSyncController env tc true se).
    + unfold stopFound in Hrun. rewrite stop_then_ret in Hrun by done.
      by injection Hrun as <- _.
    + by injection Hrun as <- _.
  - destruct se.
    + destruct (startSyncController_run env tc c) as (err & c' & d & Hrun' & _ & Hiff).
      rewrite Hrun' in Hrun. injection Hrun as <- _. apply Hiff. by apply Hok.
    + cbn in Hrun. by injection Hrun as <- _.
Qed.

Lemma manageStatus_ok env tc ste c e2 c2 found :
  (found = None -> ste = true -> statusStartable env tc (length (chans c)) = true) ->
  found = stopChannels c !! statusKeyOf (Name tc) ->
  manageStatusController env tc (statusKeyOf (Name tc)) ste found c = Ret e2 c2 ->
  inv c -> e2 = None.
Proof.
  intros Hok -> Hrun Hinv. unfold manageStatusController in Hrun.
  destruct (stopChannels c !! statusKeyOf (Name tc)) as [ch|] eqn:Hk;
    cbn [isSome startNewStatusController stopStatusController negb andb] in Hrun.
  - destruct ste; cbn in Hrun.
    + by injection Hrun as <- _.
    + change (stopFound (statusKeyOf (Name tc)) (Some ch) ;; ret None)
        with (stopController (statusKeyOf (Name tc)) ch ;; ret (@None string)) in Hrun.
      rewrite stop_then_ret in Hrun by done. by injection Hrun as <- _.
  - destruct ste.
    + destruct (startStatusController_run env (statusKeyOf (Name tc)) tc c)
        as (err & c' & d & Hrun' & _ & Hiff).
      rewrite Hrun' in Hrun. injection Hrun as <- _. apply Hiff. by apply Hok.
    + cbn in Hrun. by injection Hrun as <- _.
Qed.

Lemma started_sync env tc c e1 c1 d1 :
  syncStartable env tc (length (chans c)) = true ->
  startSyncController env tc c = Ret e1 c1 ->
  evolves [Name tc] c c1 d1 ->
  e1 = None
  /\ c1 = registered (Name tc) [EvSyncStarted (Name tc) (length (chans c))] c
  /\ d1 = [EvStore (Name tc) (length (chans c)); EvSyncStarted (Name tc) (length (chans c))].
Proof.
  intros Hok Hrun Hev.
  destruct (startSyncController_run env tc c) as (err & c' & d & Hrun' & Hr & Hiff).
  rewrite Hrun' in Hrun. injection Hrun as -> ->.
  apply Hiff in Hok as ->. inversion Hr; subst. split; [done|]. split; [done|].
  by apply (evolves_delta _ _ _ _ _ Hev).
Qed.

Lemma started_status env tc c e1 c1 d1 :
  statusStartable env tc (length (chans c)) = true ->
  startStatusController env (statusKeyOf (Name tc)) tc c = Ret e1 c1 ->
  evolves [statusKeyOf (Name tc)] c c1 d1 ->
  e1 = None
  /\ c1 = registered (statusKeyOf (Name tc)) [EvStatusStarted (Name tc) (length (chans c))] c
  /\ d1 = [EvStore (statusKeyOf (Name tc)) (length (chans c));
           EvStatusStarted (Name tc) (length (chans c))].
Proof.
  intros Hok Hrun Hev.
  destruct (startStatusController_run env (statusKeyOf (Name tc)) tc c)
    as (err & c' & d & Hrun' & Hr & Hiff).
  rewrite Hrun' in Hrun. injection Hrun as -> ->.
  apply Hiff in Hok as ->. inversion Hr; subst. split; [done|]. split; [done|].
  by apply (evolves_delta _ _ _ _ _ Hev).
Qed.

Lemma failed_sync env tc c e1 c1 d1 :
  syncStartable env tc (length (chans c)) = false ->
  startSyncController env tc c = Ret e1 c1 ->
  evolves [Name tc] c c1 d1 ->
  e1 <> None /\ stopChannels c1 = stopChannels c /\ starts d1 = []
  /\ queue c1 = queue c
  /\ ((c1 = c /\ d1 = [])
      \/ (chans c1 !! length (chans c) = Some true /\ d1 = [EvClose (length (chans c))])).
Proof.
  intros Hok Hrun Hev.
  destruct (startSyncController_run env tc c) as (err & c' & d & Hrun' & Hr & Hiff).
  rewrite Hrun' in Hrun. injection Hrun as -> ->.
  destruct e1 as [msg|].
  2:{ destruct Hiff as [Hiff _]. rewrite Hiff in Hok; done. }
  split; [done|].
  destruct (startResult_failed _ _ _ _ _ _ Hr) as (Hm & Hst & Hq & Hcases).
  assert (d = d1) as ->.
  { assert (Hl : log c1 = d ++ log c) by (inversion Hr; subst; done).
    symmetry. by apply (evolves_delta _ _ _ _ _ Hev). }
  done.
Qed.

Lemma failed_status env tc c e1 c1 d1 :
  statusStartable env tc (length (chans c)) = false ->
  startStatusController env (statusKeyOf (Name tc)) tc c = Ret e1 c1 ->
  evolves [statusKeyOf (Name tc)] c c1 d1 ->
  e1 <> None /\ stopChannels c1 = stopChannels c /\ starts d1 = []
  /\ queue c1 = queue c
  /\ chans c1 !! length (chans c) = Some true /\ d1 = [EvClose (length (chans c))].
Proof.
  intros Hok Hrun Hev.
  destruct (startStatusController_run env (statusKeyOf (Name tc)) tc c)
    as (err & c' & d & Hrun' & Hr & Hiff).
  rewrite Hrun' in Hrun. injection Hrun as -> ->.
  destruct e1 as [msg|].
  2:{ destruct Hiff as [Hiff _]. rewrite Hiff in Hok; done. }
  split; [done|].
  destruct (startResult_failed _ _ _ _ _ _ Hr) as (Hm & Hst & Hq & Hcases).
  assert (d = d1) as ->.
  { assert (Hl : log c1 = d ++ log c) by (inversion Hr; subst; done).
    symmetry. by apply (evolves_delta _ _ _ _ _ Hev). }
  split_and!; try done.
  - destruct Hcases as [[-> ->]|[H _]]; [|done].
    (* a status start never gives up before making its channel *)
    exfalso. unfold startStatusController, bind, makeChan in Hrun'.
    destruct (StartKubeFedStatusController env tc (length (chans c))).
    + rewrite closeChan_fresh in Hrun'. injection Hrun' as _ Hc.
      apply (f_equal log) in Hc. simpl in Hc.
      assert (Hlen : length (EvClose (length (chans c)) :: log c) = length (log c)) by (by rewrite Hc).
      simpl in Hlen. lia.
    + cbn in Hrun'. discriminate.
  - destruct Hcases as [[-> ->]|[_ H]]; [|done].
    exfalso. unfold startStatusController, bind, makeChan in Hrun'.
    destruct (StartKubeFedStatusController env tc (length (chans c))).
    + rewrite closeChan_fresh in Hrun'. injection Hrun' as _ Hc.
      apply (f_equal log) in Hc. simpl in Hc.
      assert (Hlen : length (EvClose (length (chans c)) :: log c) = length (log c)) by (by rewrite Hc).
      simpl in Hlen. lia.
    + cbn in Hrun'. discriminate.
Qed.

Lemma total_log K K' c c0 c' d0 d :
  evolves K c c0 d0 -> evolves K' c0 c' d -> log c' = (d ++ d0) ++ log c.
Proof.
  intros H0 H1. rewrite (ev_log _ _ _ _ H1), (ev_log _ _ _ _ H0). by rewrite app_assoc.
Qed.

Lemma stopSync_cases env tc se :
  (se = false \/ (GetNamespaced tc = true /\ namespaceFTCExists env = false)) ->
  stopSyncController env tc true se = true.
Proof.
  unfold stopSyncController. intros [->|[-> ->]]; [done|]. cbn. by rewrite orb_true_r.
Qed.

Section LiveSync.

Variables (env : Env) (qn : QualifiedName) (tc : FederatedTypeConfig) (c : Controller).

Hypothesis Hinv : inv c.

Hypothesis Hf : fetched env qn = Some tc.

Hypothesis Hskip : skipsClusterScoped env tc = false.

Hypothesis Hdel : DeletionTimestamp tc = None.

Hypothesis Hfin : finalizerEnsured env tc = true.

Let tcF := AddFinalizer tc finalizer.

Lemma live_sync_started :
  GetPropagationEnabled tc = true -> stopChannels c !! Name tc = None ->
  syncStartable env tcF (length (chans c)) = true ->
  exists r c' delta,
    reconcile env qn c = Ret r c' /\ inv c' /\ log c' = delta ++ log c
    /\ stopChannels c' !! Name tc = Some (length (chans c))
    /\ chans c' !! length (chans c) = Some false
    /\ syncStarts delta = [(Name tc, length (chans c))].
Proof.
  intros Hse Hk Hok.
  destruct (reconcile_live env qn tc c Hinv Hf Hskip Hdel Hfin)
    as (r & c' & delta & Hrun & Hph & Hev0 & Hm0 & Hc0).
  pose proof (phases_evolves _ _ _ _ _ _ _ _ Hph) as Hev.
  fold tcF in Hph, Hev.
  assert (HnF : Name tcF = Name tc) by apply Name_AddFinalizer.
  assert (Hno : refreshNeeded env tcF
            (isSome (stopChannels (afterFinalizer env tc c) !! Name tcF))
            (GetPropagationEnabled tc) = false).
  { apply refreshNeeded_start. by rewrite HnF, Hm0, Hk, Hse. }
  destruct (phases_no_refresh _ _ _ _ _ _ _ _ Hno Hph)
    as (e1 & c1 & d1 & d2 & pub & H1 & Hev1 & Hm & Hcl & -> & Hsy2 & Hsyp & _).
  rewrite HnF, Hm0, Hk, Hse, manageSync_start in H1.
  rewrite HnF in Hev1, Hm.
  rewrite <- Hc0 in Hok.
  rewrite <- HnF in Hev1.
  destruct (started_sync env tcF _ _ _ _ Hok H1 Hev1) as (-> & -> & ->).
  rewrite HnF, Hc0 in *.
  exists r, c', ((pub ++ d2 ++ [EvStore (Name tc) (length (chans c));
                                 EvSyncStarted (Name tc) (length (chans c))])
                 ++ finalizerEvents env tc).
  assert (Hreg : stopChannels c' !! Name tc = Some (length (chans c))).
  { rewrite Hm. cbn. by rewrite Hc0, lookup_insert_eq. }
  split_and!; try done.
  - apply (ev_inv _ _ _ _ Hev).
  - by eapply total_log.
  - apply (inv_open c' (ev_inv _ _ _ _ Hev) _ _ Hreg).
  - rewrite !syncStarts_app, Hsyp, Hsy2.
    destruct (finalizerEvents_no_starts env tc) as (_ & -> & _). done.
Qed.

Lemma live_sync_stopped ch :
  stopChannels c !! Name tc = Some ch ->
  (GetPropagationEnabled tc = false
   \/ (GetNamespaced tc = true /\ namespaceFTCExists env = false)) ->
  exists r c' delta,
    reconcile env qn c = Ret r c' /\ inv c' /\ log c' = delta ++ log c
    /\ stopChannels c' !! Name tc = None
    /\ chans c' !! ch = Some true
    /\ syncStarts delta = [].
Proof.
  intros Hk Hcond.
  destruct (reconcile_live env qn tc c Hinv Hf Hskip Hdel Hfin)
    as (r & c' & delta & Hrun & Hph & Hev0 & Hm0 & Hc0).
  pose proof (phases_evolves _ _ _ _ _ _ _ _ Hph) as Hev.
  fold tcF in Hph, Hev.
  assert (HnF : Name tcF = Name tc) by apply Name_AddFinalizer.
  assert (Hstop : stopSyncController env tcF true (GetPropagationEnabled tc) = true).
  { apply stopSync_cases. unfold tcF. by rewrite GetNamespaced_AddFinalizer. }
  assert (Hno : refreshNeeded env tcF
            (isSome (stopChannels (afterFinalizer env tc c) !! Name tcF))
            (GetPropagationEnabled tc) = false).
  { apply refreshNeeded_stop. by rewrite HnF, Hm0, Hk. }
  destruct (phases_no_refresh _ _ _ _ _ _ _ _ Hno Hph)
    as (e1 & c1 & d1 & d2 & pub & H1 & Hev1 & Hm & Hcl & -> & Hsy2 & Hsyp & _).
  rewrite HnF, Hm0, Hk, manageSync_stop in H1 by done.
  assert (Hk0 : stopChannels (afterFinalizer env tc c) !! Name tcF = Some ch)
    by (by rewrite HnF, Hm0).
  rewrite stop_then_ret in H1 by (done || apply (ev_inv _ _ _ _ Hev0)).
  injection H1 as <- <-.
  assert (Hd1 : d1 = [EvDelete (Name tcF); EvClose ch]) by (by apply (evolves_delta _ _ _ _ _ Hev1)).
  subst d1. rewrite HnF in *.
  exists r, c', ((pub ++ d2 ++ [EvDelete (Name tc); EvClose ch]) ++ finalizerEvents env tc).
  split_and!; try done.
  - apply (ev_inv _ _ _ _ Hev).
  - by eapply total_log.
  - rewrite Hm. cbn. apply lookup_delete_eq.
  - apply Hcl. cbn. apply list_lookup_insert_eq.
    rewrite Hc0. eapply lookup_lt_Some, (inv_open c Hinv). done.
  - rewrite !syncStarts_app, Hsyp, Hsy2.
    destruct (finalizerEvents_no_starts env tc) as (_ & -> & _). done.
Qed.

End LiveSync.

(** The status phase, once the sync phase has not failed. *)
Lemma phases_status env tc se ste c r c' delta :
  inv c ->
  (stopChannels c !! Name tc = None -> se = true ->
   syncStartable env tc (length (chans c)) = true) ->
  phases env tc se ste c r c' delta ->
  exists c1 d1 e2 c2 d2 rest,
    evolves [Name tc] c c1 d1 /\ statusStarts d1 = []
    /\ stopChannels c1 !! statusKeyOf (Name tc) = stopChannels c !! statusKeyOf (Name tc)
    /\ manageStatusController env tc (statusKeyOf (Name tc)) ste
         (stopChannels c !! statusKeyOf (Name tc)) c1 = Ret e2 c2
    /\ evolves [statusKeyOf (Name tc)] c1 c2 d2
    /\ stopChannels c' !! statusKeyOf (Name tc) = stopChannels c2 !! statusKeyOf (Name tc)
    /\ (forall ch, chans c2 !! ch = Some true -> chans c' !! ch = Some true)
    /\ delta = rest ++ d2 ++ d1 /\ statusStarts rest = []
    /\ (e2 <> None -> r = StatusError /\ c' = c2).
Proof.
  intros Hinv Hok
    [e1 c1 d1 e2 c2 d2 e3 c3 d3 pub H1 Hev1 Hst1 H2 H2s Hev2 Hsy2 H3 H3s Hev3 Hst3 Her Hok' ->].
  assert (e1 = None) as -> by (by eapply manageSync_ok).
  specialize (H2 eq_refl).
  exists c1, d1, e2, c2, d2, (pub ++ d3).
  assert (Hc' : stopChannels c' = stopChannels c3 /\ chans c' = chans c3 /\ statusStarts pub = []).
  { destruct e3 as [msg|].
    - destruct Her as (_ & -> & ->); done.
    - destruct Hok' as (e & -> & -> & _ & _ & _ & Hst & _); done. }
  destruct Hc' as (Hm & Hch & Hp).
  split_and!; try done.
  - apply (ev_other _ _ _ _ Hev1), status_not_in_name.
  - rewrite Hm. apply (ev_other _ _ _ _ Hev3), status_not_in_name.
  - intros ch Hc. rewrite Hch. by apply (ev_closed _ _ _ _ Hev3).
  - by rewrite <- app_assoc.
  - by rewrite statusStarts_app, Hp, Hst3.
  - intros Hne. destruct (H3s Hne) as (-> & -> & ->).
    destruct e2; [|done]. destruct Her as (-> & -> & _); done.
Qed.

Section LiveStatus.

Variables (env : Env) (qn : QualifiedName) (tc : FederatedTypeConfig) (c : Controller).

Hypothesis Hinv : inv c.

Hypothesis Hf : fetched env qn = Some tc.

Hypothesis Hskip : skipsClusterScoped env tc = false.

Hypothesis Hdel : DeletionTimestamp tc = None.

Hypothesis Hfin : finalizerEnsured env tc = true.

Let tcF := AddFinalizer tc finalizer.

Hypothesis Hsync :
  stopChannels c !! Name tc = None -> GetPropagationEnabled tc = true ->
  syncStartable env tcF (length (chans c)) = true.

Lemma live_status_phase :
  exists r c' delta c1 d1 e2 c2 d2 rest,
    reconcile env qn c = Ret r c' /\ inv c'
    /\ log c' = (delta ++ finalizerEvents env tc) ++ log c
    /\ inv c1 /\ (length (chans c) <= length (chans c1))%nat
    /\ (forall ch, chans c !! ch = Some true -> chans c1 !! ch = Some true)
    /\ statusStarts d1 = []
    /\ (forall k, k <> Name tc -> stopChannels c1 !! k = stopChannels c !! k)
    /\ stopChannels c1 !! statusKeyOf (Name tc) = stopChannels c !! statusKeyOf (Name tc)
    /\ manageStatusController env tcF (statusKeyOf (Name tc)) (statusControllerEnabled env tc)
         (stopChannels c !! statusKeyOf (Name tc)) c1 = Ret e2 c2
    /\ evolves [statusKeyOf (Name tc)] c1 c2 d2
    /\ stopChannels c' !! statusKeyOf (Name tc) = stopChannels c2 !! statusKeyOf (Name tc)
    /\ (forall ch, chans c2 !! ch = Some true -> chans c' !! ch = Some true)
    /\ delta = rest ++ d2 ++ d1 /\ statusStarts rest = []
    /\ (e2 <> None -> r = StatusError /\ c' = c2).
Proof.
  destruct (reconcile_live env qn tc c Hinv Hf Hskip Hdel Hfin)
    as (r & c' & delta & Hrun & Hph & Hev0 & Hm0 & Hc0).
  pose proof (phases_evolves _ _ _ _ _ _ _ _ Hph) as Hev.
  fold tcF in Hph, Hev.
  assert (HnF : Name tcF = Name tc) by apply Name_AddFinalizer.
  destruct (phases_status _ _ _ _ _ _ _ _ (ev_inv _ _ _ _ Hev0)
              ltac:(rewrite HnF, Hm0, Hc0; exact Hsync) Hph)
    as (c1 & d1 & e2 & c2 & d2 & rest & Hev1 & Hst1 & Hk1 & H2 & Hev2 & Hm & Hcl & -> & Hrest & He2).
  rewrite HnF, Hm0 in *.
  exists r, c', (rest ++ d2 ++ d1), c1, d1, e2, c2, d2, rest.
  split_and!; try done.
  - apply (ev_inv _ _ _ _ Hev).
  - by eapply total_log.
  - apply (ev_inv _ _ _ _ Hev1).
  - rewrite <- Hc0. apply (ev_alloc _ _ _ _ Hev1).
  - intros ch Hc. apply (ev_closed _ _ _ _ Hev1). by rewrite Hc0.
  - intros k Hne. rewrite <- Hm0. apply (ev_other _ _ _ _ Hev1). set_solver.
Qed.

Lemma live_status_started :
  statusControllerEnabled env tc = true ->
  stopChannels c !! statusKeyOf (Name tc) = None ->
  (forall ch, statusStartable env tcF ch = true) ->
  exists r c' delta ch,
    reconcile env qn c = Ret r c' /\ inv c' /\ log c' = delta ++ log c
    /\ chans c !! ch = None
    /\ stopChannels c' !! statusKeyOf (Name tc) = Some ch
    /\ chans c' !! ch = Some false
    /\ statusStarts delta = [(Name tc, ch)].
Proof.
  intros Hste Hk Hok.
  destruct live_status_phase
    as (r & c' & delta & c1 & d1 & e2 & c2 & d2 & rest & Hrun & Hinv' & Hlog & Hinv1 & Hal
        & _ & Hst1 & Hoth & Hk1 & H2 & Hev2 & Hm & Hcl & -> & Hrest & He2).
  assert (HnF : Name tcF = Name tc) by apply Name_AddFinalizer.
  rewrite Hste, Hk, manageStatus_start in H2. rewrite <- HnF in H2, Hev2.
  destruct (started_status env tcF c1 e2 c2 d2 (Hok _) H2 Hev2) as (-> & -> & ->).
  rewrite HnF in *.
  assert (Hreg : stopChannels c' !! statusKeyOf (Name tc) = Some (length (chans c1))).
  { rewrite Hm. cbn. apply lookup_insert_eq. }
  exists r, c', ((rest ++ [EvStore (statusKeyOf (Name tc)) (length (chans c1));
                           EvStatusStarted (Name tc) (length (chans c1))] ++ d1)
                 ++ finalizerEvents env tc), (length (chans c1)).
  split_and!; try done.
  - apply lookup_ge_None. lia.
  - apply (inv_open c' Hinv' _ _ Hreg).
  - rewrite !statusStarts_app, Hrest, Hst1.
    destruct (finalizerEvents_no_starts env tc) as (-> & _). done.
Qed.

Lemma live_status_stopped ch :
  statusControllerEnabled env tc = false ->
  stopChannels c !! statusKeyOf (Name tc) = Some ch ->
  exists r c' delta,
    reconcile env qn c = Ret r c' /\ inv c' /\ log c' = delta ++ log c
    /\ stopChannels c' !! statusKeyOf (Name tc) = None
    /\ chans c' !! ch = Some true
    /\ statusStarts delta = [].
Proof.
  intros Hste Hk.
  destruct live_status_phase
    as (r & c' & delta & c1 & d1 & e2 & c2 & d2 & rest & Hrun & Hinv' & Hlog & Hinv1 & Hal
        & _ & Hst1 & Hoth & Hk1 & H2 & Hev2 & Hm & Hcl & -> & Hrest & He2).
  rewrite Hste, Hk, manageStatus_stop in H2. rewrite Hk in Hk1.
  rewrite stop_then_ret in H2 by done. injection H2 as <- <-.
  assert (Hd2 : d2 = [EvDelete (statusKeyOf (Name tc)); EvClose ch])
    by (by apply (evolves_delta _ _ _ _ _ Hev2)).
  subst d2.
  exists r, c', ((rest ++ [EvDelete (statusKeyOf (Name tc)); EvClose ch] ++ d1)
                 ++ finalizerEvents env tc).
  split_and!; try done.
  - rewrite Hm. cbn. apply lookup_delete_eq.
  - apply Hcl. cbn. apply list_lookup_insert_eq.
    eapply lookup_lt_Some, (inv_open c1 Hinv1). done.
  - rewrite !statusStarts_app, Hrest, Hst1.
    destruct (finalizerEvents_no_starts env tc) as (-> & _). done.
Qed.

Lemma live_status_failed :
  statusControllerEnabled env tc = true ->
  stopChannels c !! statusKeyOf (Name tc) = None ->
  (forall ch, statusStartable env tcF ch = false) ->
  exists c' delta ch,
    reconcile env qn c = Ret StatusError c' /\ inv c' /\ log c' = delta ++ log c
    /\ chans c !! ch = None /\ chans c' !! ch = Some true
    /\ stopChannels c' !! statusKeyOf (Name tc) = None
    /\ (forall k, k <> Name tc -> stopChannels c' !! k = stopChannels c !! k)
    /\ statusStarts delta = [].
Proof.
  intros Hste Hk Hok.
  destruct live_status_phase
    as (r & c' & delta & c1 & d1 & e2 & c2 & d2 & rest & Hrun & Hinv' & Hlog & Hinv1 & Hal
        & _ & Hst1 & Hoth & Hk1 & H2 & Hev2 & Hm & Hcl & -> & Hrest & He2).
  assert (HnF : Name tcF = Name tc) by apply Name_AddFinalizer.
  rewrite Hste, Hk, manageStatus_start in H2. rewrite <- HnF in H2, Hev2.
  destruct (failed_status env tcF c1 e2 c2 d2 (Hok _) H2 Hev2)
    as (Hne & Hm2 & Hs2 & Hq2 & Hclosed & ->).
  destruct (He2 Hne) as (-> & ->).
  rewrite HnF in *.
  exists c2, ((rest ++ [EvClose (length (chans c1))] ++ d1) ++ finalizerEvents env tc),
    (length (chans c1)).
  split_and!; try done.
  - apply lookup_ge_None. lia.
  - by rewrite Hm2, Hk1.
  - intros k Hne'. rewrite Hm2. by apply Hoth.
  - rewrite !statusStarts_app, Hrest, Hst1.
    destruct (finalizerEvents_no_starts env tc) as (-> & _). done.
Qed.

End LiveStatus.

Lemma stopSync_AddFinalizer env tc f sr se :
  stopSyncController env (AddFinalizer tc f) sr se = stopSyncController env tc sr se.
Proof. unfold stopSyncController. by rewrite GetNamespaced_AddFinalizer. Qed.

Lemma Status_AddFinalizer tc f : Status (AddFinalizer tc f) = Status tc.
Proof. unfold AddFinalizer. by destruct (ContainsFinalizer tc f). Qed.

Lemma Generation_AddFinalizer tc f : Generation (AddFinalizer tc f) = Generation tc.
Proof. unfold AddFinalizer. by destruct (ContainsFinalizer tc f). Qed.

Lemma refreshNeeded_AddFinalizer env tc f sr se :
  refreshNeeded env (AddFinalizer tc f) sr se = refreshNeeded env tc sr se.
Proof.
  unfold refreshNeeded.
  by rewrite stopSync_AddFinalizer, Status_AddFinalizer, Generation_AddFinalizer.
Qed.

Lemma startResult_closed key e c err c' d :
  startResult key e c err c' d ->
  forall ch, chans c !! ch = Some true -> chans c' !! ch = Some true.
Proof.
  intros Hr ch Hc. destruct Hr; cbn.
  - by apply lookup_snoc_old.
  - done.
  - rewrite list_lookup_insert_ne; [by apply lookup_snoc_old|].
    apply lookup_lt_Some in Hc. lia.
Qed.

Lemma afterStop_facts key c :
  inv c ->
  let c1 := afterStop key (stopChannels c !! key) c in
  length (chans c1) = length (chans c)
  /\ (forall ch, stopChannels c !! key = Some ch -> chans c1 !! ch = Some true)
  /\ syncStarts (stopEvents key (stopChannels c !! key)) = [].
Proof.
  intros Hinv. cbn zeta. destruct (stopChannels c !! key) as [ch|] eqn:Hk; cbn.
  - rewrite length_insert. split; [done|]. split; [|done].
    intros ch' [= <-]. apply list_lookup_insert_eq.
    eapply lookup_lt_Some, (inv_open c Hinv). done.
  - done.
Qed.

Section Refresh.

Variables (env : Env) (qn : QualifiedName) (tc : FederatedTypeConfig) (c : Controller).

Hypothesis Hinv : inv c.

Hypothesis Hf : fetched env qn = Some tc.

Hypothesis Hskip : skipsClusterScoped env tc = false.

Hypothesis Hdel : DeletionTimestamp tc = None.

Hypothesis Hfin : finalizerEnsured env tc = true.

Let tcF := AddFinalizer tc finalizer.

Hypothesis Hneeded :
  refreshNeeded env tc (isSome (stopChannels c !! Name tc)) (GetPropagationEnabled tc) = true.

Hypothesis Hstatus :
  stopChannels c !! statusKeyOf (Name tc) = None ->
  statusControllerEnabled env tc = true ->
  forall ch, statusStartable env tcF ch = true.

Lemma live_refresh :
  exists r c' delta n,
    reconcile env qn c = Ret r c' /\ inv c' /\ log c' = delta ++ log c
    /\ chans c !! n = None
    /\ (forall ch0, stopChannels c !! Name tc = Some ch0 -> chans c' !! ch0 = Some true)
    /\ ((syncStartable env tcF n = true
         /\ stopChannels c' !! Name tc = Some n /\ chans c' !! n = Some false
         /\ syncStarts delta = [(Name tc, n)])
        \/ (syncStartable env tcF n = false
            /\ r = StatusError /\ stopChannels c' !! Name tc = None
            /\ syncStarts delta = [])).
Proof.
  destruct (reconcile_live env qn tc c Hinv Hf Hskip Hdel Hfin)
    as (r & c' & delta & Hrun & Hph & Hev0 & Hm0 & Hc0).
  pose proof (phases_evolves _ _ _ _ _ _ _ _ Hph) as Hev.
  fold tcF in Hph, Hev.
  assert (HnF : Name tcF = Name tc) by apply Name_AddFinalizer.
  pose proof (ev_inv _ _ _ _ Hev0) as Hinv0.
  pose proof (ev_inv _ _ _ _ Hev) as Hinv'.
  destruct Hph as [e1 c1 d1 e2 c2 d2 e3 c3 d3 pub H1 Hev1 Hst1 H2 H2s Hev2 Hsy2 H3 H3s Hev3 Hst3 Her Hok ->].
  rewrite HnF, Hm0 in *.
  (* the sync phase does nothing *)
  assert (Hflags : startNewSyncController (isSome (stopChannels c !! Name tc))
                     (GetPropagationEnabled tc) = false
                   /\ stopSyncController env tcF (isSome (stopChannels c !! Name tc))
                        (GetPropagationEnabled tc) = false).
  { unfold tcF. rewrite stopSync_AddFinalizer. unfold refreshNeeded in Hneeded.
    apply andb_prop in Hneeded as [Hn _]. apply andb_prop in Hn as [Ha Hb].
    by rewrite negb_true_iff in Ha, Hb. }
  destruct Hflags as [Hfa Hfb].
  rewrite manageSync_keep in H1 by done. injection H1 as <- <-.
  assert (d1 = []) as -> by (by eapply evolves_same).
  specialize (H2 eq_refl).
  (* the status phase does not fail *)
  assert (e2 = None) as ->.
  { eapply (manageStatus_ok env tcF); [| |rewrite HnF; exact H2|exact Hinv0].
    - intros Hn Hs. apply Hstatus; [|done]. exact Hn.
    - by rewrite HnF, Hm0. }
  specialize (H3 eq_refl).
  pose proof (ev_inv _ _ _ _ Hev2) as Hinv2.
  assert (Hk2 : stopChannels c2 !! Name tc = stopChannels c !! Name tc).
  { rewrite <- Hm0. apply (ev_other _ _ _ _ Hev2), name_not_in_status. }
  (* the refresh *)
  unfold refreshIfNeeded in H3. unfold tcF in H3 at 1.
  rewrite refreshNeeded_AddFinalizer, Hneeded in H3. fold tcF in H3.
  destruct (refreshSyncController_spec env tcF c2 Hinv2)
    as (err & c3' & dd & Hrun3 & Hr & Hiff & Hev3' & _).
  rewrite H3 in Hrun3. injection Hrun3 as <- <-.
  rewrite HnF, Hk2 in *.
  destruct (afterStop_facts (Name tc) c2 Hinv2) as (Hlen & Hold & Hsys).
  rewrite Hk2 in Hlen, Hold, Hsys.
  set (c2' := afterStop (Name tc) (stopChannels c !! Name tc) c2) in *.
  assert (Hd3 : d3 = dd ++ stopEvents (Name tc) (stopChannels c !! Name tc)).
  { symmetry. apply (evolves_delta _ _ _ _ _ Hev3'). apply (ev_log _ _ _ _ Hev3). }
  subst d3.
  assert (Hc' : stopChannels c' = stopChannels c3 /\ chans c' = chans c3 /\ syncStarts pub = []).
  { destruct e3 as [msg|].
    - destruct Her as (_ & -> & ->); done.
    - destruct Hok as (e & -> & -> & _ & _ & Hsy & _); done. }
  destruct Hc' as (Hm' & Hch' & Hp).
  exists r, c', ((pub ++ (dd ++ stopEvents (Name tc) (stopChannels c !! Name tc)) ++ d2 ++ [])
                 ++ finalizerEvents env tc), (length (chans c2')).
  assert (Hfree : stopChannels c2' !! Name tc = None).
  { destruct (stopFound_run (Name tc) c2 Hinv2) as (_ & _ & Hn). by rewrite Hk2 in Hn. }
  split_and!; try done.
  - by eapply total_log.
  - apply lookup_ge_None. rewrite Hlen, <- Hc0.
    apply (ev_alloc _ _ _ _ Hev2).
  - intros ch0 Hk. rewrite Hch'. eapply startResult_closed; [exact Hr|]. by apply Hold.
  - destruct e3 as [msg|].
    + right. destruct Her as (-> & _ & _); [done|].
      destruct (startResult_failed _ _ _ _ _ _ Hr) as (Hm3 & Hs3 & _).
      split_and!; try done.
      * destruct (syncStartable env tcF (length (chans c2'))); [|done].
        destruct Hiff as [_ Hiff]. by specialize (Hiff eq_refl).
      * by rewrite Hm', Hm3.
      * rewrite !syncStarts_app, Hp, Hsy2, Hsys.
        destruct (finalizerEvents_no_starts env tc) as (_ & -> & _).
        inversion Hr; subst; done.
    + left. destruct Hiff as [Hiff _]. specialize (Hiff eq_refl).
      inversion Hr; subst.
      assert (Hreg : stopChannels c' !! Name tc = Some (length (chans c2'))).
      { rewrite Hm'. cbn. apply lookup_insert_eq. }
      split_and!; try done.
      * apply (inv_open c' Hinv' _ _ Hreg).
      * rewrite !syncStarts_app, Hp, Hsy2, Hsys.
        destruct (finalizerEvents_no_starts env tc) as (_ & -> & _). done.
Qed.

End Refresh.

Section SyncFails.

Variables (env : Env) (qn : QualifiedName) (tc : FederatedTypeConfig) (c : Controller).

Hypothesis Hinv : inv c.

Hypothesis Hf : fetched env qn = Some tc.

Hypothesis Hskip : skipsClusterScoped env tc = false.

Hypothesis Hdel : DeletionTimestamp tc = None.

Hypothesis Hfin : finalizerEnsured env tc = true.

Let tcF := AddFinalizer tc finalizer.

Lemma live_sync_failed :
  GetPropagationEnabled tc = true -> stopChannels c !! Name tc = None ->
  syncStartable env tcF (length (chans c)) = false ->
  exists c' delta,
    reconcile env qn c = Ret StatusError c' /\ inv c' /\ log c' = delta ++ log c
    /\ stopChannels c' = stopChannels c
    /\ (chans c' = chans c \/ chans c' !! length (chans c) = Some true)
    /\ syncStarts delta = [] /\ statusStarts delta = [].
Proof.
  intros Hse Hk Hok.
  destruct (reconcile_live env qn tc c Hinv Hf Hskip Hdel Hfin)
    as (r & c' & delta & Hrun & Hph & Hev0 & Hm0 & Hc0).
  pose proof (phases_evolves _ _ _ _ _ _ _ _ Hph) as Hev.
  fold tcF in Hph, Hev.
  assert (HnF : Name tcF = Name tc) by apply Name_AddFinalizer.
  assert (Hno : refreshNeeded env tcF
            (isSome (stopChannels (afterFinalizer env tc c) !! Name tcF))
            (GetPropagationEnabled tc) = false).
  { apply refreshNeeded_start. by rewrite HnF, Hm0, Hk, Hse. }
  destruct (phases_no_refresh _ _ _ _ _ _ _ _ Hno Hph)
    as (e1 & c1 & d1 & d2 & pub & H1 & Hev1 & Hm & Hcl & -> & Hsy2 & Hsyp & Hfail).
  rewrite HnF, Hm0, Hk, Hse, manageSync_start in H1.
  rewrite <- Hc0 in Hok.
  destruct (failed_sync env tcF _ _ _ _ Hok H1 Hev1) as (Hne & Hm1 & Hs1 & Hq1 & Hcases).
  destruct (Hfail Hne) as (-> & ->).
  exists c1, (d1 ++ finalizerEvents env tc).
  split_and!; try done.
  - apply (ev_inv _ _ _ _ Hev).
  - rewrite (ev_log _ _ _ _ Hev1), (ev_log _ _ _ _ Hev0). by rewrite app_assoc.
  - by rewrite Hm1.
  - destruct Hcases as [[-> ->]|[Hc _]]; [by left|right]. by rewrite <- Hc0.
  - rewrite syncStarts_app. destruct (finalizerEvents_no_starts env tc) as (_ & -> & _).
    destruct Hcases as [[_ ->]|[_ ->]]; done.
  - rewrite statusStarts_app. destruct (finalizerEvents_no_starts env tc) as (-> & _).
    destruct Hcases as [[_ ->]|[_ ->]]; done.
Qed.

End SyncFails.

(** ** The claims about the controller *)

Lemma startsFresh_split (l newer older : list Event) e key ch :
  startsFresh l -> l = newer ++ e :: older -> startOf e = Some (key, ch) ->
  replay older !! key = None.
Proof.
  revert l. induction newer as [|x newer IH]; intros l Hf -> Hs; simpl in Hf.
  - rewrite Hs in Hf. by destruct Hf.
  - destruct Hf as [_ Hf]. by eapply IH.
Qed.

Lemma runningSync_nil c name :
  inv c -> stopChannels c !! name = None -> runningSync c name = [].
Proof.
  intros Hinv Hk. destruct (runningSync c name) as [|ch l] eqn:Hr; [done|].
  assert (Hin : ch ∈ runningSync c name) by (rewrite Hr; left).
  apply (runningSync_registered c name ch Hinv) in Hin. congruence.
Qed.

Lemma runningStatus_nil c name :
  inv c -> stopChannels c !! statusKeyOf name = None -> runningStatus c name = [].
Proof.
  intros Hinv Hk. destruct (runningStatus c name) as [|ch l] eqn:Hr; [done|].
  assert (Hin : ch ∈ runningStatus c name) by (rewrite Hr; left).
  apply (runningStatus_registered c name ch Hinv) in Hin. congruence.
Qed.


Lemma statusControllerEnabled_true env tc :
  statusControllerEnabled env tc = true ->
  RawResourceStatusCollection (controllerConfig env) = false
  /\ GetStatusEnabled tc = true /\ Name tc = "services" /\ is_Some (GetStatusType tc).
Proof.
  unfold statusControllerEnabled, isEnabledFederatedServiceStatusCollection.
  destruct (RawResourceStatusCollection (controllerConfig env)); cbn; [done|].
  destruct (GetStatusEnabled tc); cbn; [|done].
  destruct (String.eqb_spec (Name tc) "services") as [Hn|Hn]; cbn; [|done].
  destruct (GetStatusType tc) eqn:Hs; [|done]. intros _. split_and!; try done.
Qed.

Lemma insert_true_mono (l : list bool) (i j : nat) :
  l !! j = Some true -> <[i := true]> l !! j = Some true.
Proof.
  intros H. destruct (decide (i = j)) as [->|Hne].
  - apply list_lookup_insert_eq. by eapply lookup_lt_Some.
  - by rewrite list_lookup_insert_ne.
Qed.

Lemma afterStop_queue key found c : queue (afterStop key found c) = queue c.
Proof. by destruct found. Qed.

Lemma afterStop_closed key found c ch :
  chans c !! ch = Some true -> chans (afterStop key found c) !! ch = Some true.
Proof. destruct found; [|done]. cbn. apply insert_true_mono. Qed.

Lemma afterDeleted_facts env tc c :
  inv c ->
  stopChannels (afterDeleted env tc c) !! Name tc = None
  /\ stopChannels (afterDeleted env tc c) !! statusKeyOf (Name tc) = None
  /\ (forall ch, stopChannels c !! Name tc = Some ch ->
        chans (afterDeleted env tc c) !! ch = Some true)
  /\ (forall ch, stopChannels c !! statusKeyOf (Name tc) = Some ch ->
        chans (afterDeleted env tc c) !! ch = Some true)
  /\ (IsNamespace tc = true -> exists q, queue (afterDeleted env tc c) = q ++ toEnqueue env).
Proof.
  intros Hinv. unfold afterDeleted.
  pose proof (statusKey_ne (Name tc)) as Hne.
  assert (Hb : forall k ch, stopChannels c !! k = Some ch -> (ch < length (chans c))%nat).
  { intros k ch Hk. eapply lookup_lt_Some, (inv_open c Hinv), Hk. }
  set (c2 := afterStop (statusKeyOf (Name tc)) (stopChannels c !! statusKeyOf (Name tc))
               (afterStop (Name tc) (stopChannels c !! Name tc) c)).
  assert (H2 : stopChannels c2 !! Name tc = None
               /\ stopChannels c2 !! statusKeyOf (Name tc) = None
               /\ (forall ch, stopChannels c !! Name tc = Some ch -> chans c2 !! ch = Some true)
               /\ (forall ch, stopChannels c !! statusKeyOf (Name tc) = Some ch ->
                     chans c2 !! ch = Some true)
               /\ queue c2 = queue c).
  { unfold c2.
    destruct (stopChannels c !! Name tc) as [a|] eqn:Ha;
      destruct (stopChannels c !! statusKeyOf (Name tc)) as [b|] eqn:Hbk; cbn.
    - split_and!; try done.
      + rewrite lookup_delete_ne by done. apply lookup_delete_eq.
      + apply lookup_delete_eq.
      + intros ch [= <-]. apply insert_true_mono, list_lookup_insert_eq. by eapply Hb.
      + intros ch [= <-]. apply list_lookup_insert_eq. rewrite length_insert. by eapply Hb.
    - split_and!; try done.
      + apply lookup_delete_eq.
      + by rewrite lookup_delete_ne.
      + intros ch [= <-]. apply list_lookup_insert_eq. by eapply Hb.
    - split_and!; try done.
      + by rewrite lookup_delete_ne.
      + apply lookup_delete_eq.
      + intros ch [= <-]. apply list_lookup_insert_eq. by eapply Hb.
    - done. }
  destruct H2 as (A1 & A2 & A3 & A4 & A5).
  destruct (IsNamespace tc), (ContainsFinalizer tc finalizer); cbn;
    (split_and!; try done); intros _; exists (queue c); by rewrite A5.
Qed.



Lemma same_run {A} (r1 r2 : A) (c1 c2 c : Controller) (d1 d2 : list Event) (m : Result A) :
  m = Ret r1 c1 -> m = Ret r2 c2 ->
  log c1 = d1 ++ log c -> log c2 = d2 ++ log c ->
  r1 = r2 /\ c1 = c2 /\ d1 = d2.
Proof.
  intros H1 H2 L1 L2. rewrite H1 in H2. injection H2 as -> ->.
  split; [done|]. split; [done|]. rewrite L1 in L2. by apply app_inv_tail in L2.
Qed.

(** Claim C6. In every reachable state at most one sync controller and at
    most one status controller run for a descriptor (started, stop channel
    not closed); the map holds at most one entry under the descriptor's
    name and at most one under its status key; the log replays to the map,
    and every controller in the log was started at a moment when the map
    had no entry under its key. *)
Theorem one_controller_per_descriptor c :
  reachable c ->
  forall name,
    (length (runningSync c name) <= 1)%nat
    /\ (length (runningStatus c name) <= 1)%nat
    /\ (length (entriesUnder c name) <= 1)%nat
    /\ (length (entriesUnder c (statusKeyOf name)) <= 1)%nat
    /\ replay (log c) = stopChannels c
    /\ (forall newer e older key ch,
          log c = newer ++ e :: older -> startOf e = Some (key, ch) ->
          replay older !! key = None).
Proof.
  intros Hr name. apply reachable_inv in Hr as Hinv. split_and!.
  - destruct (stopChannels c !! name) as [ch|] eqn:Hk.
    + apply (at_most_one _ ch); [by apply runningSync_NoDup|].
      intros x Hx. apply (runningSync_registered c name x Hinv) in Hx. congruence.
    + rewrite runningSync_nil by done. simpl. lia.
  - destruct (stopChannels c !! statusKeyOf name) as [ch|] eqn:Hk.
    + apply (at_most_one _ ch); [by apply runningStatus_NoDup|].
      intros x Hx. apply (runningStatus_registered c name x Hinv) in Hx. congruence.
    + rewrite runningStatus_nil by done. simpl. lia.
  - apply entriesUnder_length.
  - apply entriesUnder_length.
  - apply (inv_replay c Hinv).
  - intros newer e older key ch Hl Hs.
    eapply startsFresh_split; [apply (inv_fresh c Hinv)|exact Hl|exact Hs].
Qed.


Lemma deleted_spec env qn tc c :
  inv c -> fetched env qn = Some tc -> skipsClusterScoped env tc = false ->
  is_Some (DeletionTimestamp tc) ->
  reconcile env qn c = Ret (deletedResult env tc) (afterDeleted env tc c)
  /\ evolves [Name tc; statusKeyOf (Name tc)] c (afterDeleted env tc c)
              (deletedEvents env tc c).
Proof.
  intros Hinv Hf Hskip [t Hdel].
  rewrite (reconcile_fetched env qn tc c Hf), Hskip, Hdel. cbn [isSome].
  apply (reconcileDeleted_run env tc c Hinv).
Qed.

(** Claim C3, amended. Outside the cluster-scoped special case, the
    reconcile of a descriptor with a DeletionTimestamp closes and removes
    what is registered under its name and under its status key, and only
    then patches the finalizer away (the patch is the newest event of the
    log, after the stops); it returns AllOK when the patch succeeds or no
    finalizer was there, Error when the patch fails, and in either case no
    controller of the descriptor is left running. *)
Theorem deleted_descriptor_is_stopped_then_released env qn tc c :
  reachable c -> fetched env qn = Some tc -> skipsClusterScoped env tc = false ->
  is_Some (DeletionTimestamp tc) ->
  exists r c',
    reconcile env qn c = Ret r c'
    /\ r = (if ContainsFinalizer tc finalizer
            then statusResult (clientPatch env (RemoveFinalizer tc finalizer))
            else StatusAllOK)
    /\ log c'
       = (if ContainsFinalizer tc finalizer
          then [EvPatch (RemoveFinalizer tc finalizer)
                        (clientPatch env (RemoveFinalizer tc finalizer))]
          else [])
         ++ stopEvents (statusKeyOf (Name tc)) (stopChannels c !! statusKeyOf (Name tc))
         ++ stopEvents (Name tc) (stopChannels c !! Name tc)
         ++ log c
    /\ stopChannels c' !! Name tc = None
    /\ stopChannels c' !! statusKeyOf (Name tc) = None
    /\ (forall ch, stopChannels c !! Name tc = Some ch -> chans c' !! ch = Some true)
    /\ (forall ch, stopChannels c !! statusKeyOf (Name tc) = Some ch ->
          chans c' !! ch = Some true)
    /\ runningSync c' (Name tc) = [] /\ runningStatus c' (Name tc) = [].
Proof.
  intros Hr Hf Hskip Hdel. apply reachable_inv in Hr as Hinv.
  destruct (deleted_spec env qn tc c Hinv Hf Hskip Hdel) as [Hrun Hev].
  destruct (afterDeleted_facts env tc c Hinv) as (A1 & A2 & A3 & A4 & _).
  exists (deletedResult env tc), (afterDeleted env tc c).
  split_and!; try done.
  - rewrite (ev_log _ _ _ _ Hev). unfold deletedEvents. by rewrite <- !app_assoc.
  - apply runningSync_nil; [apply (ev_inv _ _ _ _ Hev)|done].
  - apply runningStatus_nil; [apply (ev_inv _ _ _ _ Hev)|done].
Qed.


(** Claim C1, amended. For a live descriptor outside the special case
    whose finalizer is in place: the status key differs from the name; if
    propagation is on, nothing is registered under the name and the start
    succeeds (for a namespaced type this needs the namespaces descriptor),
    exactly one sync controller is started and its fresh, open stop channel
    is registered under the name; if an entry is registered and propagation
    is off (or the type is namespaced and the namespaces descriptor is
    absent), its channel is closed and the entry removed; and, provided
    the sync step did not fail, the status controller is started (when
    enabled, unregistered and startable) or stopped (when registered and
    not enabled) in the same way under the status key. *)
Theorem live_descriptor_starts_and_stops_controllers env qn tc c :
  reachable c -> fetched env qn = Some tc -> skipsClusterScoped env tc = false ->
  DeletionTimestamp tc = None -> finalizerEnsured env tc = true ->
  exists r c' delta,
    reconcile env qn c = Ret r c' /\ log c' = delta ++ log c
    /\ Name tc <> statusKeyOf (Name tc)
    /\ (GetPropagationEnabled tc = true -> stopChannels c !! Name tc = None ->
        syncStartable env (AddFinalizer tc finalizer) (length (chans c)) = true ->
        stopChannels c' !! Name tc = Some (length (chans c))
        /\ chans c' !! length (chans c) = Some false
        /\ syncStarts delta = [(Name tc, length (chans c))])
    /\ (forall ch,
          stopChannels c !! Name tc = Some ch ->
          (GetPropagationEnabled tc = false
           \/ (GetNamespaced tc = true /\ namespaceFTCExists env = false)) ->
          chans c' !! ch = Some true /\ stopChannels c' !! Name tc = None
          /\ syncStarts delta = [])
    /\ ((stopChannels c !! Name tc = None -> GetPropagationEnabled tc = true ->
         syncStartable env (AddFinalizer tc finalizer) (length (chans c)) = true) ->
        (statusControllerEnabled env tc = true ->
         stopChannels c !! statusKeyOf (Name tc) = None ->
         (forall ch, statusStartable env (AddFinalizer tc finalizer) ch = true) ->
         exists ch,
           chans c !! ch = None
           /\ stopChannels c' !! statusKeyOf (Name tc) = Some ch
           /\ chans c' !! ch = Some false
           /\ statusStarts delta = [(Name tc, ch)])
        /\ (forall ch,
              statusControllerEnabled env tc = false ->
              stopChannels c !! statusKeyOf (Name tc) = Some ch ->
              chans c' !! ch = Some true
              /\ stopChannels c' !! statusKeyOf (Name tc) = None
              /\ statusStarts delta = [])).
Proof.
  intros Hr Hf Hskip Hdel Hfin. apply reachable_inv in Hr as Hinv.
  destruct (reconcile_spec env qn c Hinv) as (r & c' & delta & Hrun & _ & Hlog & _).
  exists r, c', delta. split; [done|]. split; [done|]. split; [apply statusKey_ne|].
  split_and!.
  - intros Hse Hk Hok.
    destruct (live_sync_started env qn tc c Hinv Hf Hskip Hdel Hfin Hse Hk Hok)
      as (r2 & c2 & d2 & Hrun2 & _ & Hlog2 & A1 & A2 & A3).
    destruct (same_run _ _ _ _ _ _ _ _ Hrun Hrun2 Hlog Hlog2) as (-> & -> & ->). done.
  - intros ch Hk Hcond.
    destruct (live_sync_stopped env qn tc c Hinv Hf Hskip Hdel Hfin ch Hk Hcond)
      as (r2 & c2 & d2 & Hrun2 & _ & Hlog2 & A1 & A2 & A3).
    destruct (same_run _ _ _ _ _ _ _ _ Hrun Hrun2 Hlog Hlog2) as (-> & -> & ->). done.
  - intros Hsync. split.
    + intros Hste Hk Hok.
      destruct (live_status_started env qn tc c Hinv Hf Hskip Hdel Hfin Hsync Hste Hk Hok)
        as (r2 & c2 & d2 & ch & Hrun2 & _ & Hlog2 & A1 & A2 & A3 & A4).
      destruct (same_run _ _ _ _ _ _ _ _ Hrun Hrun2 Hlog Hlog2) as (-> & -> & ->).
      by exists ch.
    + intros ch Hste Hk.
      destruct (live_status_stopped env qn tc c Hinv Hf Hskip Hdel Hfin Hsync ch Hste Hk)
        as (r2 & c2 & d2 & Hrun2 & _ & Hlog2 & A1 & A2 & A3).
      destruct (same_run _ _ _ _ _ _ _ _ Hrun Hrun2 Hlog Hlog2) as (-> & -> & ->). done.
Qed.

Lemma refreshNeeded_true env tc sr se :
  startNewSyncController sr se = false -> stopSyncController env tc sr se = false ->
  ObservedGeneration (Status tc) <> Generation tc ->
  refreshNeeded env tc sr se = true.
Proof.
  intros H1 H2 Hg. unfold refreshNeeded. rewrite H1, H2. cbn.
  destruct (Z.eqb_spec (ObservedGeneration (Status tc)) (Generation tc)); done.
Qed.

(** Claim C4, amended. For a live descriptor whose sync controller is
    neither newly started nor stopped and whose observedGeneration differs
    from its generation, provided the status step did not fail: the channel
    registered under the name, if any, is closed and removed, and a start
    of a new sync controller is attempted on a fresh channel n; if it
    succeeds exactly one sync controller is started and n is registered,
    open, under the name; if it fails the reconcile returns Error, nothing
    is registered under the name and no sync controller was started. *)
Theorem changed_generation_refreshes_sync_controller env qn tc c :
  reachable c -> fetched env qn = Some tc -> skipsClusterScoped env tc = false ->
  DeletionTimestamp tc = None -> finalizerEnsured env tc = true ->
  startNewSyncController (isSome (stopChannels c !! Name tc))
                         (GetPropagationEnabled tc) = false ->
  stopSyncController env tc (isSome (stopChannels c !! Name tc))
                     (GetPropagationEnabled tc) = false ->
  ObservedGeneration (Status tc) <> Generation tc ->
  (stopChannels c !! statusKeyOf (Name tc) = None ->
   statusControllerEnabled env tc = true ->
   forall ch, statusStartable env (AddFinalizer tc finalizer) ch = true) ->
  exists r c' delta n,
    reconcile env qn c = Ret r c' /\ log c' = delta ++ log c
    /\ chans c !! n = None
    /\ (forall ch0, stopChannels c !! Name tc = Some ch0 -> chans c' !! ch0 = Some true)
    /\ ((syncStartable env (AddFinalizer tc finalizer) n = true
         /\ stopChannels c' !! Name tc = Some n /\ chans c' !! n = Some false
         /\ syncStarts delta = [(Name tc, n)])
        \/ (syncStartable env (AddFinalizer tc finalizer) n = false
            /\ r = StatusError /\ stopChannels c' !! Name tc = None
            /\ syncStarts delta = [])).
Proof.
  intros Hr Hf Hskip Hdel Hfin Hn1 Hn2 Hg Hstatus. apply reachable_inv in Hr as Hinv.
  destruct (live_refresh env qn tc c Hinv Hf Hskip Hdel Hfin
              (refreshNeeded_true _ _ _ _ Hn1 Hn2 Hg) Hstatus)
    as (r & c' & delta & n & Hrun & _ & Hlog & A1 & A2 & A3).
  by exists r, c', delta, n.
Qed.

(** Claim C9, amended. A reconcile starts a status controller only for a
    descriptor named "services" with status collection on and a status
    type, and with the RawResourceStatusCollection feature off. For any
    other descriptor a registered status controller is closed and removed
    whenever the reconcile reaches that step: outside the special case,
    and either the descriptor is being deleted, or its finalizer is in
    place and the start of the sync controller, if one is due, succeeds. *)
Theorem status_controller_only_for_services env qn c :
  reachable c ->
  exists r c' delta,
    reconcile env qn c = Ret r c' /\ log c' = delta ++ log c
    /\ (statusStarts delta <> [] ->
        exists tc,
          fetched env qn = Some tc
          /\ RawResourceStatusCollection (controllerConfig env) = false
          /\ GetStatusEnabled tc = true /\ Name tc = "services"
          /\ is_Some (GetStatusType tc))
    /\ (forall tc ch,
          fetched env qn = Some tc -> statusControllerEnabled env tc = false ->
          stopChannels c !! statusKeyOf (Name tc) = Some ch ->
          skipsClusterScoped env tc = false ->
          (is_Some (DeletionTimestamp tc)
           \/ (DeletionTimestamp tc = None /\ finalizerEnsured env tc = true
               /\ (stopChannels c !! Name tc = None -> GetPropagationEnabled tc = true ->
                   syncStartable env (AddFinalizer tc finalizer) (length (chans c)) = true))) ->
          chans c' !! ch = Some true /\ stopChannels c' !! statusKeyOf (Name tc) = None).
Proof.
  intros Hr. apply reachable_inv in Hr as Hinv.
  destruct (reconcile_spec env qn c Hinv) as (r & c' & delta & Hrun & _ & Hlog & _ & Hst).
  exists r, c', delta. split; [done|]. split; [done|]. split.
  - intros Hne. destruct (Hst Hne) as (tc & Hf & Hen). exists tc. split; [done|].
    by apply statusControllerEnabled_true.
  - intros tc ch Hf Hste Hk Hskip [Hdel|(Hdel & Hfin & Hsync)].
    + destruct (deleted_spec env qn tc c Hinv Hf Hskip Hdel) as [Hrun2 _].
      destruct (afterDeleted_facts env tc c Hinv) as (_ & A2 & _ & A4 & _).
      rewrite Hrun in Hrun2. injection Hrun2 as -> ->. split; [by apply A4|done].
    + destruct (live_status_stopped env qn tc c Hinv Hf Hskip Hdel Hfin Hsync ch Hste Hk)
        as (r2 & c2 & d2 & Hrun2 & _ & Hlog2 & A1 & A2 & A3).
      destruct (same_run _ _ _ _ _ _ _ _ Hrun Hrun2 Hlog Hlog2) as (-> & -> & ->). done.
Qed.

(** Claim C10, amended. For a live descriptor outside the special case
    whose finalizer is in place: if the start of the sync controller at
    line 226 fails, the reconcile returns Error and leaves the map as it
    was, and a channel made for the start is closed; if the start of the
    status controller fails, the reconcile returns Error, the channel made
    for it is closed, nothing is registered under the status key and the
    map is as it was except for what the sync step did under the name; if
    the start inside a refresh fails, the reconcile returns Error and
    nothing is registered under the name, the old channel being closed.
    A start function that fails leaves the map as it found it, and one
    that succeeds registers the channel after the controller was
    started. *)
Theorem failed_start_registers_nothing env qn tc c :
  reachable c -> fetched env qn = Some tc -> skipsClusterScoped env tc = false ->
  DeletionTimestamp tc = None -> finalizerEnsured env tc = true ->
  exists r c' delta,
    reconcile env qn c = Ret r c' /\ log c' = delta ++ log c
    /\ (GetPropagationEnabled tc = true -> stopChannels c !! Name tc = None ->
        syncStartable env (AddFinalizer tc finalizer) (length (chans c)) = false ->
        r = StatusError /\ stopChannels c' = stopChannels c
        /\ (chans c' = chans c \/ chans c' !! length (chans c) = Some true)
        /\ syncStarts delta = [] /\ statusStarts delta = [])
    /\ ((stopChannels c !! Name tc = None -> GetPropagationEnabled tc = true ->
         syncStartable env (AddFinalizer tc finalizer) (length (chans c)) = true) ->
        statusControllerEnabled env tc = true ->
        stopChannels c !! statusKeyOf (Name tc) = None ->
        (forall ch, statusStartable env (AddFinalizer tc finalizer) ch = false) ->
        r = StatusError
        /\ (exists ch, chans c !! ch = None /\ chans c' !! ch = Some true)
        /\ stopChannels c' !! statusKeyOf (Name tc) = None
        /\ (forall k, k <> Name tc -> stopChannels c' !! k = stopChannels c !! k)
        /\ statusStarts delta = [])
    /\ (refreshNeeded env tc (isSome (stopChannels c !! Name tc))
                      (GetPropagationEnabled tc) = true ->
        (stopChannels c !! statusKeyOf (Name tc) = None ->
         statusControllerEnabled env tc = true ->
         forall ch, statusStartable env (AddFinalizer tc finalizer) ch = true) ->
        (forall ch, syncStartable env (AddFinalizer tc finalizer) ch = false) ->
        r = StatusError /\ stopChannels c' !! Name tc = None
        /\ (forall ch0, stopChannels c !! Name tc = Some ch0 -> chans c' !! ch0 = Some true)
        /\ syncStarts delta = [])
    /\ (forall c0 err c1,
          startSyncController env (AddFinalizer tc finalizer) c0 = Ret err c1 ->
          match err with
          | Some _ => stopChannels c1 = stopChannels c0
          | None =>
              c1 = registered (Name tc) [EvSyncStarted (Name tc) (length (chans c0))] c0
          end)
    /\ (forall c0 err c1,
          startStatusController env (statusKeyOf (Name tc)) (AddFinalizer tc finalizer) c0
          = Ret err c1 ->
          match err with
          | Some _ => stopChannels c1 = stopChannels c0
          | None =>
              c1 = registered (statusKeyOf (Name tc))
                              [EvStatusStarted (Name tc) (length (chans c0))] c0
          end).
Proof.
  intros Hr Hf Hskip Hdel Hfin. apply reachable_inv in Hr as Hinv.
  destruct (reconcile_spec env qn c Hinv) as (r & c' & delta & Hrun & _ & Hlog & _).
  exists r, c', delta. split; [done|]. split; [done|]. split_and!.
  - intros Hse Hk Hok.
    destruct (live_sync_failed env qn tc c Hinv Hf Hskip Hdel Hfin Hse Hk Hok)
      as (c2 & d2 & Hrun2 & _ & Hlog2 & A1 & A2 & A3 & A4).
    destruct (same_run _ _ _ _ _ _ _ _ Hrun Hrun2 Hlog Hlog2) as (-> & -> & ->). done.
  - intros Hsync Hste Hk Hok.
    destruct (live_status_failed env qn tc c Hinv Hf Hskip Hdel Hfin Hsync Hste Hk Hok)
      as (c2 & d2 & ch & Hrun2 & _ & Hlog2 & A1 & A2 & A3 & A4 & A5).
    destruct (same_run _ _ _ _ _ _ _ _ Hrun Hrun2 Hlog Hlog2) as (-> & -> & ->).
    split_and!; try done. by exists ch.
  - intros Hneed Hstatus Hok.
    destruct (live_refresh env qn tc c Hinv Hf Hskip Hdel Hfin Hneed Hstatus)
      as (r2 & c2 & d2 & n & Hrun2 & _ & Hlog2 & A1 & A2 & A3).
    destruct (same_run _ _ _ _ _ _ _ _ Hrun Hrun2 Hlog Hlog2) as (-> & -> & ->).
    destruct A3 as [(Hyes & _)|(_ & B1 & B2 & B3)]; [by rewrite Hok in Hyes|done].
  - intros c0 err c1 Hrun0.
    destruct (startSyncController_run env (AddFinalizer tc finalizer) c0)
      as (err' & c1' & d & Hrun' & Hres & _).
    rewrite Hrun0 in Hrun'. injection Hrun' as <- <-.
    rewrite Name_AddFinalizer in Hres. by destruct Hres.
  - intros c0 err c1 Hrun0.
    destruct (startStatusController_run env (statusKeyOf (Name tc)) (AddFinalizer tc finalizer) c0)
      as (err' & c1' & d & Hrun' & Hres & _).
    rewrite Hrun0 in Hrun'. injection Hrun' as <- <-.
    rewrite Name_AddFinalizer in Hres. by destruct Hres.
Qed.

(** ** Runs on concrete worlds *)

(** Claim C1 fails here. First, "services" is live, namespaced, with
    propagation and status collection on and nothing registered, but there
    is no namespaces descriptor in the store: the reconcile returns Error
    and starts and registers nothing, neither the sync nor the status
    controller. Second, a descriptor without the finalizer whose patch
    fails: the reconcile returns Error before any controller is looked
    at. *)
Lemma sync_start_refused_without_namespaces :
  let env := world "" [services] None None None in
  let envPatch := patchFails (world "" [withoutFinalizer clusterroles] None None None)
                             "conflict" in
  (fetched env (qnOf "services") = Some services
   /\ skipsClusterScoped env services = false
   /\ DeletionTimestamp services = None
   /\ GetPropagationEnabled services = true
   /\ stopChannels newController !! "services" = None
   /\ statusControllerEnabled env services = true
   /\ stopChannels newController !! "services/status" = None
   /\ reconcile env (qnOf "services") newController = Ret StatusError newController)
  /\ (fetched envPatch (qnOf "clusterroles") = Some (withoutFinalizer clusterroles)
      /\ skipsClusterScoped envPatch (withoutFinalizer clusterroles) = false
      /\ GetPropagationEnabled (withoutFinalizer clusterroles) = true
      /\ exists c',
           reconcile envPatch (qnOf "clusterroles") newController = Ret StatusError c'
           /\ stopChannels c' = ∅ /\ syncStarts (log c') = []).
Proof.
  cbn zeta. split.
  - vm_compute. by split_and!.
  - split_and!; [by vm_compute..|]. eexists. split; [vm_compute; reflexivity|].
    by vm_compute.
Qed.


(** Claim C3 fails here: a cluster-scoped descriptor under a namespaced
    control plane, being deleted and carrying the finalizer: the reconcile
    records a placeholder, sends no patch and returns AllOK. *)
Lemma deleted_cluster_scoped_type_keeps_finalizer :
  let env := world "ns1" [clusterrolesDeleted] None None None in
  fetched env (qnOf "clusterroles") = Some clusterrolesDeleted
  /\ is_Some (DeletionTimestamp clusterrolesDeleted)
  /\ ContainsFinalizer clusterrolesDeleted finalizer = true
  /\ reconcile env (qnOf "clusterroles") newController
     = Ret StatusAllOK
           (mkController {[ "clusterroles" := 0%nat ]} [false] []
              [EvUpdateStatus (notRunningStatus clusterrolesDeleted) None;
               EvStore "clusterroles" 0]).
Proof. cbn zeta. split_and!; [by vm_compute|by eexists|by vm_compute|]. vm_compute. reflexivity. Qed.

Lemma servicesSyncStarted_reachable : reachable servicesSyncStarted.
Proof.
  apply (reach_reconcile (world "" [servicesSyncOnly; namespacesLive] None None None)
           (qnOf "services") newController StatusAllOK servicesSyncStarted reach_new).
  vm_compute. reflexivity.
Qed.

(** Claim C4 fails here. First, a namespaced type, propagation off,
    nothing registered, generation ahead of observedGeneration, no
    namespaces descriptor: the refresh starts no sync controller and the
    reconcile returns Error. Second, the sync controller of "services"
    runs and the generation has moved on, but the status controller fails
    to start: the reconcile returns Error before the refresh, and the old
    sync controller stays as it is. *)
Lemma refresh_without_namespaces_starts_nothing :
  let env := world "" [configmapsOff] None None None in
  let envStatus := world "" [servicesNext; namespacesLive] None None (Some "no informer") in
  (fetched env (qnOf "configmaps") = Some configmapsOff
   /\ skipsClusterScoped env configmapsOff = false
   /\ DeletionTimestamp configmapsOff = None
   /\ startNewSyncController (isSome (stopChannels newController !! "configmaps"))
                             (GetPropagationEnabled configmapsOff) = false
   /\ stopSyncController env configmapsOff
                         (isSome (stopChannels newController !! "configmaps"))
                         (GetPropagationEnabled configmapsOff) = false
   /\ ObservedGeneration (Status configmapsOff) <> Generation configmapsOff
   /\ reconcile env (qnOf "configmaps") newController = Ret StatusError newController)
  /\ (reachable servicesSyncStarted
      /\ fetched envStatus (qnOf "services") = Some servicesNext
      /\ refreshNeeded envStatus servicesNext
           (isSome (stopChannels servicesSyncStarted !! "services"))
           (GetPropagationEnabled servicesNext) = true
      /\ exists c',
           reconcile envStatus (qnOf "services") servicesSyncStarted = Ret StatusError c'
           /\ stopChannels c' = stopChannels servicesSyncStarted
           /\ closes (log c') = [1%nat] /\ syncStarts (log c') = [("services", 0%nat)]).
Proof.
  cbn zeta. split.
  - split_and!; by vm_compute.
  - split_and!; [apply servicesSyncStarted_reachable|by vm_compute..|].
    eexists. split; [vm_compute; reflexivity|]. by vm_compute.
Qed.


Lemma statusRunning_reachable : reachable statusRunning.
Proof.
  apply (reach_reconcile (world "" [servicesStatusOnly] None None None) (qnOf "services")
           newController StatusAllOK statusRunning reach_new).
  vm_compute. reflexivity.
Qed.

Lemma statusRunningLimited_reachable : reachable statusRunningLimited.
Proof.
  apply (reach_reconcile (world "ns1" [servicesStatusOnly] None None None) (qnOf "services")
           newController StatusAllOK statusRunningLimited reach_new).
  vm_compute. reflexivity.
Qed.

(** Claim C9 fails here. First, status collection has been switched off
    for "services" while its status controller runs, but the start of the
    sync controller fails first (no namespaces descriptor): the reconcile
    returns Error and the status controller keeps running. Second, the
    descriptor has come under the cluster-scoped special case: the
    reconcile returns AllOK and the status controller keeps running. *)
Lemma status_controller_survives_failed_sync_start :
  let env := world "" [servicesNoStatus] None None None in
  let envLimited := world "ns1" [servicesClusterScoped] None None None in
  (reachable statusRunning
   /\ fetched env (qnOf "services") = Some servicesNoStatus
   /\ statusControllerEnabled env servicesNoStatus = false
   /\ stopChannels statusRunning !! "services/status" = Some 0%nat
   /\ runningStatus statusRunning "services" = [0%nat]
   /\ reconcile env (qnOf "services") statusRunning = Ret StatusError statusRunning)
  /\ (reachable statusRunningLimited
      /\ fetched envLimited (qnOf "services") = Some servicesClusterScoped
      /\ statusControllerEnabled envLimited servicesClusterScoped = false
      /\ stopChannels statusRunningLimited !! "services/status" = Some 0%nat
      /\ exists c',
           reconcile envLimited (qnOf "services") statusRunningLimited = Ret StatusAllOK c'
           /\ runningStatus c' "services" = [0%nat]).
Proof.
  cbn zeta. split.
  - split_and!; [apply statusRunning_reachable|by vm_compute..].
  - split_and!; [apply statusRunningLimited_reachable|by vm_compute..|].
    eexists. split; vm_compute; reflexivity.
Qed.

Lemma clusterrolesStarted_reachable : reachable clusterrolesStarted.
Proof.
  apply (reach_reconcile (world "" [clusterroles] None None None) (qnOf "clusterroles")
           newController StatusAllOK clusterrolesStarted reach_new).
  vm_compute. reflexivity.
Qed.

(** Claim C10 fails here. First, the sync controller starts and the
    status controller does not: the reconcile returns Error and the map
    has the sync entry it did not have. Second, the start inside a refresh
    fails: the reconcile returns Error and the map has lost the entry of
    the sync controller that ran. *)
Lemma failed_status_start_keeps_the_sync_entry :
  let env := world "" [services; namespacesLive] None None (Some "no informer") in
  let envSync := world "" [clusterrolesNext] None (Some "no client") None in
  (fetched env (qnOf "services") = Some services
   /\ exists c', reconcile env (qnOf "services") newController = Ret StatusError c'
                 /\ stopChannels c' = {[ "services" := 0%nat ]}
                 /\ chans c' = [false; true]
                 /\ stopChannels c' <> stopChannels newController)
  /\ (reachable clusterrolesStarted
      /\ fetched envSync (qnOf "clusterroles") = Some clusterrolesNext
      /\ stopChannels clusterrolesStarted = {[ "clusterroles" := 0%nat ]}
      /\ exists c',
           reconcile envSync (qnOf "clusterroles") clusterrolesStarted = Ret StatusError c'
           /\ stopChannels c' = ∅ /\ chans c' = [true; true]).
Proof.
  cbn zeta. split.
  - split; [by vm_compute|]. eexists. split; [vm_compute; reflexivity|].
    split_and!; [by vm_compute|by vm_compute|].
    intros H. apply (f_equal (fun m => m !! "services")) in H. vm_compute in H. discriminate.
  - split_and!; [apply clusterrolesStarted_reachable|by vm_compute..|].
    eexists. split; [vm_compute; reflexivity|]. by vm_compute.
Qed.

Lemma servicesStarted_reachable : reachable servicesStarted.
Proof.
  apply (reach_reconcile servicesWorld (qnOf "services") newController
           StatusAllOK servicesStarted reach_new).
  vm_compute. reflexivity.
Defined.

(** The claims at concrete worlds. *)

Lemma one_controller_per_descriptor_witness :
  reachable servicesStarted
  /\ (length (runningSync servicesStarted "services") <= 1)%nat
  /\ (length (runningStatus servicesStarted "services") <= 1)%nat.
Proof.
  split; [apply servicesStarted_reachable|].
  destruct (one_controller_per_descriptor servicesStarted servicesStarted_reachable "services")
    as (H1 & H2 & _).
  split; [exact H1|exact H2].
Defined.

Lemma live_descriptor_starts_and_stops_controllers_witness :
  exists r c',
    reconcile servicesWorld (qnOf "services") newController = Ret r c'
    /\ stopChannels c' !! "services" = Some 0%nat
    /\ exists ch, stopChannels c' !! "services/status" = Some ch.
Proof.
  destruct (live_descriptor_starts_and_stops_controllers servicesWorld (qnOf "services")
              services newController reach_new eq_refl eq_refl eq_refl eq_refl)
    as (r & c' & delta & Hrun & _ & _ & Hstart & _ & Hstatus).
  exists r, c'. split; [exact Hrun|]. split.
  - apply Hstart; reflexivity.
  - destruct Hstatus as [Hst _]; [intros; reflexivity|].
    destruct Hst as (ch & _ & Hreg & _); [reflexivity|reflexivity|intros; reflexivity|].
    exists ch. exact Hreg.
Defined.


Lemma deleted_descriptor_is_stopped_then_released_witness :
  exists c',
    reconcile (world "" [servicesDeleted; namespacesLive] None None None) (qnOf "services")
              servicesStarted = Ret StatusAllOK c'
    /\ chans c' !! 0%nat = Some true /\ chans c' !! 1%nat = Some true
    /\ runningSync c' "services" = [].
Proof.
  destruct (deleted_descriptor_is_stopped_then_released
              (world "" [servicesDeleted; namespacesLive] None None None) (qnOf "services")
              servicesDeleted servicesStarted servicesStarted_reachable eq_refl eq_refl
              (ex_intro _ 100%Z eq_refl))
    as (r & c' & Hrun & -> & _ & _ & _ & Hsync & Hstatus & Hnone & _).
  exists c'. split; [exact Hrun|]. split; [|split].
  - apply Hsync. vm_compute. reflexivity.
  - apply Hstatus. vm_compute. reflexivity.
  - exact Hnone.
Defined.

Lemma changed_generation_refreshes_sync_controller_witness :
  exists r c',
    reconcile (world "" [clusterrolesNext] None None None) (qnOf "clusterroles")
              clusterrolesStarted = Ret r c'
    /\ chans c' !! 0%nat = Some true.
Proof.
  destruct (changed_generation_refreshes_sync_controller
              (world "" [clusterrolesNext] None None None) (qnOf "clusterroles")
              clusterrolesNext clusterrolesStarted clusterrolesStarted_reachable
              eq_refl eq_refl eq_refl eq_refl eq_refl eq_refl
              ltac:(discriminate) ltac:(intros _ H; discriminate H))
    as (r & c' & delta & n & Hrun & _ & _ & Hold & _).
  exists r, c'. split; [exact Hrun|]. apply Hold. vm_compute. reflexivity.
Defined.


Lemma status_controller_only_for_services_witness :
  exists r c',
    reconcile (world "" [servicesNoStatus; namespacesLive] None None None) (qnOf "services")
              statusRunning = Ret r c'
    /\ chans c' !! 0%nat = Some true
    /\ stopChannels c' !! "services/status" = None.
Proof.
  destruct (status_controller_only_for_services
              (world "" [servicesNoStatus; namespacesLive] None None None) (qnOf "services")
              statusRunning statusRunning_reachable)
    as (r & c' & delta & Hrun & _ & _ & Hstop).
  exists r, c'. split; [exact Hrun|].
  apply (Hstop servicesNoStatus 0%nat); try reflexivity.
  right. split; [reflexivity|]. split; [reflexivity|]. intros _ _. reflexivity.
Defined.

Lemma failed_start_registers_nothing_witness :
  exists c',
    reconcile (world "" [services; namespacesLive] None None (Some "no informer"))
              (qnOf "services") newController = Ret StatusError c'
    /\ stopChannels c' !! "services/status" = None.
Proof.
  destruct (failed_start_registers_nothing
              (world "" [services; namespacesLive] None None (Some "no informer"))
              (qnOf "services") services newController reach_new
              eq_refl eq_refl eq_refl eq_refl)
    as (r & c' & delta & Hrun & _ & _ & Hstatus & _).
  destruct Hstatus as (-> & _ & Hnone & _);
    [intros; reflexivity|reflexivity|reflexivity|intros; reflexivity|].
  exists c'. split; [exact Hrun|exact Hnone].
Defined.

End FTCControllerProps.

(** * Properties of target deletion *)

Module CrudTesterProps.
Import CrudTester.

Lemma removeFromCluster_primary primary obj :
  removeFromCluster true primary primary obj = Some (RemoveManagedLabel obj).
Proof. unfold removeFromCluster. by rewrite String.eqb_refl. Qed.

Lemma removeFromCluster_other tin primary clusterName obj :
  clusterName <> primary -> removeFromCluster tin primary clusterName obj = None.
Proof.
  intros Hne. unfold removeFromCluster.
  destruct (String.eqb_spec clusterName primary); [done|]. by rewrite andb_false_r.
Qed.

Lemma removeFromCluster_not_namespace primary clusterName obj :
  removeFromCluster false primary clusterName obj = None.
Proof. done. Qed.

Lemma deletion_lookup tin primary targets clusterName :
  deletionSubflow false tin primary targets !! clusterName
  = targets !! clusterName ≫= removeFromCluster tin primary clusterName.
Proof. unfold deletionSubflow. apply map_lookup_imap. Qed.

Lemma placement_lookup_selected selected desired tin primary targets clusterName :
  clusterName ∈ selected ->
  reconcilePlacement selected desired tin primary targets !! clusterName
  = Some (AddManagedLabel desired).
Proof.
  intros Hin. unfold reconcilePlacement. apply lookup_union_Some_l.
  induction selected as [|x l IH]; [by apply elem_of_nil in Hin|].
  simpl. destruct (decide (clusterName = x)) as [->|Hne].
  - apply lookup_insert_eq.
  - rewrite lookup_insert_ne by done. apply IH.
    apply elem_of_cons in Hin as [|]; done.
Qed.

Lemma placement_lookup_unselected selected desired tin primary targets clusterName :
  clusterName ∉ selected ->
  reconcilePlacement selected desired tin primary targets !! clusterName
  = targets !! clusterName ≫= removeFromCluster tin primary clusterName.
Proof.
  intros Hnot. unfold reconcilePlacement. rewrite lookup_union_r.
  - rewrite map_lookup_imap. destruct (targets !! clusterName); [|done]. simpl.
    by rewrite bool_decide_eq_false_2.
  - apply not_elem_of_list_to_map_1. intros Hin. apply Hnot.
    rewrite <- list_fmap_compose in Hin. simpl in Hin.
    by rewrite list_fmap_id in Hin.
Qed.



(** Under a placement change the clusters that stay selected keep the
    target, labeled; the others lose it. *)
Lemma placement_change_keeps_selected selected desired tin primary targets clusterName :
  (clusterName ∈ selected ->
   reconcilePlacement selected desired tin primary targets !! clusterName
   = Some (AddManagedLabel desired))
  /\ (clusterName ∉ selected -> clusterName <> primary ->
      reconcilePlacement selected desired tin primary targets !! clusterName = None).
Proof.
  split.
  - apply placement_lookup_selected.
  - intros Hnot Hne. rewrite placement_lookup_unselected by done.
    destruct (targets !! clusterName); [|done]. simpl. by apply removeFromCluster_other.
Qed.

(** What the model leaves behind is what CheckDelete waits for. *)
Lemma CheckDelete_accepts_deletion tin primary targets clusterName :
  checkDeleteCondition true tin (String.eqb clusterName primary)
    (clusterGet (deletionSubflow false tin primary targets) clusterName) = (true, None).
Proof.
  unfold clusterGet. rewrite deletion_lookup.
  destruct (targets !! clusterName) as [obj|]; [|done]. simpl.
  unfold removeFromCluster. destruct tin; [|done].
  destruct (String.eqb clusterName primary); done.
Qed.

Lemma CheckDelete_accepts_orphaning tin primary targets clusterName obj :
  targets !! clusterName = Some obj ->
  checkDeleteCondition false tin (String.eqb clusterName primary)
    (clusterGet (deletionSubflow true tin primary targets) clusterName) = (true, None).
Proof.
  intros Hk. unfold clusterGet, deletionSubflow. by rewrite lookup_fmap, Hk.
Qed.

Lemma CheckPropagation_accepts_host_namespace selected desired primary targets obj :
  primary ∉ selected -> targets !! primary = Some obj ->
  propagationExpectation (bool_decide (primary ∈ selected)) true (String.eqb primary primary)
  = ExpectHostNamespaceUnlabeled
  /\ checkHostNamespaceUnlabeledCondition
       (clusterGet (reconcilePlacement selected desired true primary targets) primary)
     = (true, None).
Proof.
  intros Hnot Hk. split.
  - unfold propagationExpectation. rewrite bool_decide_eq_false_2 by done.
    by rewrite String.eqb_refl.
  - unfold clusterGet. rewrite placement_lookup_unselected, Hk by done. simpl.
    by rewrite removeFromCluster_primary.
Qed.

Lemma removeOneClusterName_drops_primary clusterNames primary :
  primary <> "" ->
  exists updated, removeOneClusterName clusterNames primary = Some updated
                  /\ primary ∉ updated.
Proof.
  intros Hne. unfold removeOneClusterName.
  destruct primary as [|a s]; [done|]. simpl. eexists. split; [done|].
  intros Hin. apply list_elem_of_In, filter_In in Hin as [_ Hf].
  by rewrite String.eqb_refl in Hf.
Qed.

End CrudTesterProps.

(** * Properties of the event filter *)

Module HandlersProps.
Import Handlers.

Lemma TestHandlers_passes :
  TestHandlers NewTriggerOnAllChanges = Some [true; true; true; true; true; true].
Proof. reflexivity. Qed.

(** Claim C8. Every add is enqueued; a delete is enqueued with the
    deleted object, also when it comes as a tombstone that carries the
    object, and a tombstone without an object enqueues nothing; an update
    with equal old and new objects enqueues nothing, and an update that
    changes the spec or the metadata the filter looks at (namespace, name,
    labels, annotations) enqueues the new object. Only such changes are
    forwarded: an update leaves the queue as it is exactly if the old and
    the new object have the same semantic part, so an update that differs
    only in the status or the resourceVersion enqueues nothing. *)
Theorem trigger_forwards_semantic_changes (queue : list Object) :
  (forall obj isInInitialList, enqueue queue (OnAdd obj isInInitialList) = queue ++ [obj])
  /\ (forall obj, enqueue queue (OnDelete (DeletedObject obj)) = queue ++ [obj])
  /\ (forall key obj,
        enqueue queue (OnDelete (DeletedFinalStateUnknown key (Some obj))) = queue ++ [obj])
  /\ (forall key, enqueue queue (OnDelete (DeletedFinalStateUnknown key None)) = queue)
  /\ (forall obj, enqueue queue (OnUpdate obj obj) = queue)
  /\ (forall old cur,
        (Spec old <> Spec cur
         \/ Namespace (Meta old) <> Namespace (Meta cur)
         \/ Name (Meta old) <> Name (Meta cur)
         \/ Labels (Meta old) <> Labels (Meta cur)
         \/ Annotations (Meta old) <> Annotations (Meta cur)) ->
        enqueue queue (OnUpdate old cur) = queue ++ [cur])
  /\ enqueue queue (OnUpdate service service2) = queue ++ [service2]
  /\ (forall old cur,
        enqueue queue (OnUpdate old cur) = queue <-> semanticPart old = semanticPart cur)
  /\ (forall old cur,
        Spec old = Spec cur ->
        Namespace (Meta old) = Namespace (Meta cur) ->
        Name (Meta old) = Name (Meta cur) ->
        Labels (Meta old) = Labels (Meta cur) ->
        Annotations (Meta old) = Annotations (Meta cur) ->
        enqueue queue (OnUpdate old cur) = queue)
  /\ (forall obj status resourceVersion,
        enqueue queue
          (OnUpdate obj
             (mkObject (mkMeta (Namespace (Meta obj)) (Name (Meta obj)) (Labels (Meta obj))
                               (Annotations (Meta obj)) resourceVersion)
                       (Spec obj) status))
        = queue).
Proof.
  split_and!; try done.
  - intros obj. unfold enqueue. simpl. by rewrite bool_decide_eq_true_2.
  - intros old cur Hdiff. unfold enqueue. simpl.
    rewrite bool_decide_eq_false_2; [done|].
    unfold semanticPart. intros [= H1 H2 H3 H4 H5]. tauto.
  - intros old cur. unfold enqueue. simpl. case_bool_decide as Hsem; [done|].
    split; [|done]. intros Heq. apply (f_equal length) in Heq.
    rewrite length_app in Heq. simpl in Heq. lia.
  - intros old cur H1 H2 H3 H4 H5. unfold enqueue. simpl.
    rewrite bool_decide_eq_true_2; [done|]. unfold semanticPart. congruence.
  - intros obj status resourceVersion. unfold enqueue. simpl.
    by rewrite bool_decide_eq_true_2.
Qed.

Lemma trigger_forwards_semantic_changes_witness :
  enqueue [] (OnUpdate service service2) = [service2]
  /\ enqueue [] (OnUpdate service service) = []
  /\ enqueue [] (OnUpdate service (mkObject (mkMeta "ns1" "s1" [] [] "42") "" "Ready")) = [].
Proof.
  destruct (trigger_forwards_semantic_changes [])
    as (_ & _ & _ & _ & Hsame & Hdiff & _ & _ & _ & Hstatus).
  split_and!.
  - apply (Hdiff service service2). right. right. right. right. discriminate.
  - apply Hsame.
  - apply (Hstatus service "Ready" "42").
Defined.

End HandlersProps.

(** * More on the type-config controller *)

Module ControllerStepsProps.
Import TypeConfig FTCController ControllerSteps FTCControllerProps.

(** ** The steps, as the code runs them *)

Lemma startSync_refused env tc c :
  namespaceMissing env tc = true ->
  exists msg, startSyncController env tc c = Ret (Some msg) c.
Proof.
  unfold namespaceMissing, namespaceFTCExists, startSyncController.
  destruct (GetNamespaced tc); [|done]. simpl.
  destruct (getFederatedNamespaceAPIResource env) as [r [e|]]; [|done].
  intros _. by eexists.
Qed.

Lemma startSync_attempted env tc c :
  namespaceMissing env tc = false ->
  startSyncController env tc c =
    match StartKubeFedSyncController env tc (fedNamespaceResource env tc) (length (chans c)) with
    | Some err => Ret (Some (Wrapf err "Error starting sync controller")) (failedStart c)
    | None => Ret None (registered (Name tc) [EvSyncStarted (Name tc) (length (chans c))] c)
    end.
Proof.
  unfold namespaceMissing, namespaceFTCExists, startSyncController, fedNamespaceResource.
  assert (Hbody : forall r,
    (do stopChan <- makeChan;
     match StartKubeFedSyncController env tc r stopChan with
     | Some err => closeChan stopChan ;; ret (Some (Wrapf err "Error starting sync controller"))
     | None => emit (EvSyncStarted (Name tc) stopChan) ;; mapStore (Name tc) stopChan ;; ret None
     end) c =
    match StartKubeFedSyncController env tc r (length (chans c)) with
    | Some err => Ret (Some (Wrapf err "Error starting sync controller")) (failedStart c)
    | None => Ret None (registered (Name tc) [EvSyncStarted (Name tc) (length (chans c))] c)
    end).
  { intros r. unfold bind at 1. unfold makeChan.
    destruct (StartKubeFedSyncController env tc r (length (chans c))) as [e|].
    - unfold bind. by rewrite closeChan_fresh.
    - done. }
  destruct (GetNamespaced tc); simpl.
  - destruct (getFederatedNamespaceAPIResource env) as [r [e|]]; [done|]. intros _. apply Hbody.
  - intros _. apply Hbody.
Qed.

Lemma startStatus_attempted env key tc c :
  startStatusController env key tc c =
    match StartKubeFedStatusController env tc (length (chans c)) with
    | Some err => Ret (Some (Wrapf err "Error starting status controller")) (failedStart c)
    | None => Ret None (registered key [EvStatusStarted (Name tc) (length (chans c))] c)
    end.
Proof.
  unfold startStatusController. unfold bind at 1. unfold makeChan.
  destruct (StartKubeFedStatusController env tc (length (chans c))) as [e|].
  - unfold bind. by rewrite closeChan_fresh.
  - done.
Qed.

Lemma syncStartable_missing env tc ch :
  namespaceMissing env tc = true -> syncStartable env tc ch = false.
Proof. unfold syncStartable. by intros ->. Qed.

Lemma syncStartable_started env tc ch :
  syncStartable env tc ch = true -> namespaceMissing env tc = false.
Proof. unfold syncStartable. by destruct (namespaceMissing env tc). Qed.

(** Starting the sync controller on a free key. *)
Lemma startSync_cases env tc c :
  exists err c',
    startSyncController env tc c = Ret err c'
    /\ ((err = None /\ syncStartable env tc (length (chans c)) = true
         /\ c' = registered (Name tc) [EvSyncStarted (Name tc) (length (chans c))] c)
        \/ (is_Some err /\ namespaceMissing env tc = true /\ c' = c)
        \/ (is_Some err /\ namespaceMissing env tc = false
            /\ syncStartable env tc (length (chans c)) = false /\ c' = failedStart c)).
Proof.
  destruct (namespaceMissing env tc) eqn:Hm.
  - destruct (startSync_refused env tc c Hm) as [msg Hrun].
    exists (Some msg), c. split; [done|]. right. left. by split_and!.
  - rewrite startSync_attempted by done. unfold syncStartable. rewrite Hm.
    destruct (StartKubeFedSyncController env tc _ _) as [e|].
    + do 2 eexists. split; [reflexivity|]. right. right. by split_and!.
    + do 2 eexists. split; [reflexivity|]. left. by split_and!.
Qed.

Lemma manageSync_step env tc se c :
  inv c ->
  exists e1 c1,
    manageSyncController env tc se (stopChannels c !! Name tc) c = Ret e1 c1
    /\ syncStep env tc se c e1 c1.
Proof.
  intros Hinv. unfold manageSyncController.
  destruct (stopChannels c !! Name tc) as [ch|] eqn:Hk; cbn [isSome startNewSyncController negb andb].
  - destruct (stopSyncController env tc true se) eqn:Hstop.
    + change (stopFound (Name tc) (Some ch) ;; ret None)
        with (stopController (Name tc) ch ;; ret (@None string)).
      rewrite stop_then_ret by done. do 2 eexists. split; [reflexivity|].
      by apply sync_stopped.
    + do 2 eexists. split; [reflexivity|]. apply sync_kept; rewrite Hk; done.
  - destruct se.
    + destruct (startSync_cases env tc c) as (err & c' & Hrun & Hcase).
      exists err, c'. split; [done|].
      destruct Hcase as [(-> & Hok & ->)|[([msg ->] & Hm & ->)|([msg ->] & Hm & Hno & ->)]].
      * by apply sync_started.
      * by apply sync_refused.
      * by apply sync_failed.
    + do 2 eexists. split; [reflexivity|]. apply sync_kept; rewrite Hk; done.
Qed.

Lemma manageStatus_step env tc ste c :
  inv c ->
  exists e2 c2,
    manageStatusController env tc (statusKeyOf (Name tc)) ste
                           (stopChannels c !! statusKeyOf (Name tc)) c = Ret e2 c2
    /\ statusStep env tc ste c e2 c2.
Proof.
  intros Hinv. unfold manageStatusController.
  destruct (stopChannels c !! statusKeyOf (Name tc)) as [ch|] eqn:Hk;
    cbn [isSome startNewStatusController stopStatusController negb andb].
  - destruct ste; cbn [negb andb].
    + do 2 eexists. split; [reflexivity|]. apply status_kept. by rewrite Hk.
    + change (stopFound (statusKeyOf (Name tc)) (Some ch) ;; ret None)
        with (stopController (statusKeyOf (Name tc)) ch ;; ret (@None string)).
      rewrite stop_then_ret by done. do 2 eexists. split; [reflexivity|].
      by apply status_stopped.
  - destruct ste; cbn [negb andb].
    + rewrite startStatus_attempted. unfold statusStartable.
      destruct (StartKubeFedStatusController env tc (length (chans c))) as [e|] eqn:Hs.
      * do 2 eexists. split; [reflexivity|]. apply status_failed; try done.
        unfold statusStartable. by rewrite Hs.
      * do 2 eexists. split; [reflexivity|]. apply status_started; try done.
        unfold statusStartable. by rewrite Hs.
    + do 2 eexists. split; [reflexivity|]. apply status_kept. by rewrite Hk.
Qed.

Lemma afterStop_chans_length key found c :
  length (chans (afterStop key found c)) = length (chans c).
Proof. destruct found; cbn; [by rewrite length_insert|done]. Qed.

Lemma refresh_step env tc sr se c :
  inv c ->
  exists e3 c3,
    refreshIfNeeded env tc sr se c = Ret e3 c3
    /\ refreshStep env tc sr se c e3 c3.
Proof.
  intros Hinv. unfold refreshIfNeeded.
  destruct (refreshNeeded env tc sr se) eqn:Hn.
  2:{ do 2 eexists. split; [reflexivity|]. by apply refresh_not_needed. }
  destruct (stopFound_run (Name tc) c Hinv) as (Hrun1 & Hev1 & Hfree).
  unfold refreshSyncController, bind, getStopChannel. rewrite Hrun1.
  set (c1 := afterStop (Name tc) (stopChannels c !! Name tc) c) in *.
  assert (Hlen : length (chans c1) = length (chans c)) by apply afterStop_chans_length.
  destruct (startSync_cases env tc c1) as (err & c' & Hrun & Hcase).
  exists err, c'. split; [done|]. rewrite Hlen in Hcase.
  destruct Hcase as [(-> & Hok & ->)|[([msg ->] & Hm & ->)|([msg ->] & Hm & Hno & ->)]].
  - by apply refresh_started.
  - by apply refresh_refused.
  - by apply refresh_failed.
Qed.

(** What a step leaves behind. *)
Lemma syncStep_evolves env tc se c e1 c1 :
  inv c -> syncStep env tc se c e1 c1 ->
  inv c1 /\ queue c1 = queue c
  /\ (forall k, k <> Name tc -> stopChannels c1 !! k = stopChannels c !! k)
  /\ (length (chans c) <= length (chans c1))%nat.
Proof.
  intros Hinv Hs. destruct Hs.
  - split; [|split_and!; try done].
    + apply inv_register; [done|done|]. right. by eexists.
    + intros k Hk. cbn. by apply lookup_insert_ne.
    + cbn. rewrite length_app. lia.
  - by split_and!.
  - split; [by apply inv_failed_start|]. split_and!; try done.
    cbn. rewrite length_insert, length_app. lia.
  - destruct (evolves_stopped _ _ _ Hinv H) as [_ Hev]. split; [apply (ev_inv _ _ _ _ Hev)|].
    split_and!; try done.
    + intros k Hk. cbn. by apply lookup_delete_ne.
    + cbn. by rewrite length_insert.
  - by split_and!.
Qed.

Lemma statusStep_evolves env tc ste c e2 c2 :
  inv c -> statusStep env tc ste c e2 c2 ->
  inv c2 /\ queue c2 = queue c
  /\ (forall k, k <> statusKeyOf (Name tc) -> stopChannels c2 !! k = stopChannels c !! k)
  /\ (length (chans c) <= length (chans c2))%nat.
Proof.
  intros Hinv Hs. destruct Hs.
  - split; [|split_and!; try done].
    + apply inv_register; [done|done|]. right. by eexists.
    + intros k Hk. cbn. by apply lookup_insert_ne.
    + cbn. rewrite length_app. lia.
  - split; [by apply inv_failed_start|]. split_and!; try done.
    cbn. rewrite length_insert, length_app. lia.
  - destruct (evolves_stopped _ _ _ Hinv H) as [_ Hev]. split; [apply (ev_inv _ _ _ _ Hev)|].
    split_and!; try done.
    + intros k Hk. cbn. by apply lookup_delete_ne.
    + cbn. by rewrite length_insert.
  - by split_and!.
Qed.

Lemma afterStop_inv key c :
  inv c -> inv (afterStop key (stopChannels c !! key) c)
           /\ stopChannels (afterStop key (stopChannels c !! key) c) !! key = None
           /\ (forall k, k <> key ->
                 stopChannels (afterStop key (stopChannels c !! key) c) !! k
                 = stopChannels c !! k).
Proof.
  intros Hinv. destruct (stopFound_run key c Hinv) as (_ & Hev & Hfree).
  split; [apply (ev_inv _ _ _ _ Hev)|]. split; [done|].
  intros k Hk. apply (ev_other _ _ _ _ Hev). set_solver.
Qed.

Lemma refreshStep_evolves env tc sr se c e3 c3 :
  inv c -> refreshStep env tc sr se c e3 c3 ->
  inv c3 /\ queue c3 = queue c
  /\ (forall k, k <> Name tc -> stopChannels c3 !! k = stopChannels c !! k)
  /\ (length (chans c) <= length (chans c3))%nat.
Proof.
  intros Hinv Hs.
  destruct (afterStop_inv (Name tc) c Hinv) as (Hinv1 & Hfree & Hother).
  pose proof (afterStop_chans_length (Name tc) (stopChannels c !! Name tc) c) as Hlen.
  pose proof (afterStop_queue (Name tc) (stopChannels c !! Name tc) c) as Hq.
  destruct Hs.
  - by split_and!.
  - split; [|split_and!].
    + rewrite <- Hlen. apply inv_register; [done|done|]. right. eexists. by rewrite Hlen.
    + done.
    + intros k Hk. cbn. rewrite lookup_insert_ne by done. by apply Hother.
    + cbn. rewrite length_app. lia.
  - split_and!; try done. lia.
  - split; [by apply inv_failed_start|]. split_and!; try done.
    cbn. rewrite length_insert, length_app. lia.
Qed.

(** reconcileControllers runs the three steps. *)
Lemma reconcileControllers_run env tc se ste c :
  inv c ->
  exists r c',
    reconcileControllers env tc (statusKeyOf (Name tc)) se ste
      (stopChannels c !! Name tc) (stopChannels c !! statusKeyOf (Name tc)) c = Ret r c'
    /\ controllersRun env tc se ste c r c'.
Proof.
  intros Hinv. unfold reconcileControllers.
  destruct (manageSync_step env tc se c Hinv) as (e1 & c1 & Hrun1 & Hs1).
  unfold bind at 1. rewrite Hrun1.
  destruct (syncStep_evolves _ _ _ _ _ _ Hinv Hs1) as (Hinv1 & _ & Ho1 & _).
  destruct e1 as [msg|].
  { exists StatusError, c1. split; [done|]. by eapply run_sync_error. }
  assert (Hk : stopChannels c1 !! statusKeyOf (Name tc) = stopChannels c !! statusKeyOf (Name tc)).
  { apply Ho1. intros H. symmetry in H. by apply statusKey_ne in H. }
  destruct (manageStatus_step env tc ste c1 Hinv1) as (e2 & c2 & Hrun2 & Hs2).
  rewrite Hk in Hrun2. unfold bind at 1. rewrite Hrun2.
  destruct (statusStep_evolves _ _ _ _ _ _ Hinv1 Hs2) as (Hinv2 & _ & Ho2 & _).
  destruct e2 as [msg|].
  { exists StatusError, c2. split; [done|]. by eapply run_status_error. }
  destruct (refresh_step env tc (isSome (stopChannels c !! Name tc)) se c2 Hinv2)
    as (e3 & c3 & Hrun3 & Hs3).
  unfold bind at 1. rewrite Hrun3.
  destruct e3 as [msg|].
  { exists StatusError, c3. split; [done|]. by eapply run_refresh_error. }
  unfold publishStatus. rewrite updateStatus_run.
  do 2 eexists. split; [reflexivity|].
  pose proof (run_published env tc se ste c c1 c2 c3 Hs1 Hs2 Hs3) as Hp.
  cbv zeta in Hp. unfold publishedStatus, statusResult in Hp. exact Hp.
Qed.

End ControllerStepsProps.

Module ControllerRunProps.
Import TypeConfig FTCController ControllerSteps FTCControllerProps ControllerStepsProps.

(** ** The paths of reconcile, as states *)

Lemma reconcile_run env qn tc c :
  inv c -> fetched env qn = Some tc ->
  if skipsClusterScoped env tc then
    reconcile env qn c
    = Ret (statusResult (clientUpdateStatus env (notRunningStatus tc)))
          (logged (EvUpdateStatus (notRunningStatus tc)
                                  (clientUpdateStatus env (notRunningStatus tc)))
                  (afterHolder (Name tc) c))
  else if isSome (DeletionTimestamp tc) then
    reconcile env qn c = Ret (deletedResult env tc) (afterDeleted env tc c)
  else if finalizerEnsured env tc then
    exists r c',
      reconcile env qn c = Ret r c'
      /\ controllersRun env (AddFinalizer tc finalizer) (GetPropagationEnabled tc)
                        (statusControllerEnabled env tc) (afterFinalizer env tc c) r c'
  else reconcile env qn c = Ret StatusError (afterFinalizer env tc c).
Proof.
  intros Hinv Hf. rewrite (reconcile_fetched env qn tc c Hf).
  destruct (skipsClusterScoped env tc); [apply reconcileClusterScoped_run|].
  destruct (isSome (DeletionTimestamp tc)); [by apply reconcileDeleted_run|].
  rewrite reconcileLive_run.
  destruct (finalizerEnsured env tc); [|done].
  destruct (evolves_afterFinalizer (bothKeys tc) env tc c Hinv) as (Hev0 & Hm0 & Hc0).
  destruct (reconcileControllers_run env (AddFinalizer tc finalizer)
              (GetPropagationEnabled tc) (statusControllerEnabled env tc)
              (afterFinalizer env tc c) (ev_inv _ _ _ _ Hev0)) as (r & c' & Hrun & Hsteps).
  rewrite Hm0, Name_AddFinalizer in Hrun. by exists r, c'.
Qed.

(** ** No stop channel is lost *)

Lemma noStray_same c c' :
  stopChannels c' = stopChannels c -> chans c' = chans c ->
  noStrayChannel c -> noStrayChannel c'.
Proof. intros Hm Hc H ch. rewrite Hm, Hc. apply H. Qed.

Lemma noStray_registered key ev c :
  stopChannels c !! key = None -> noStrayChannel c -> noStrayChannel (registered key ev c).
Proof.
  intros Hfree H ch Hopen. cbn in *.
  destruct (decide (ch < length (chans c))%nat) as [Hlt|Hge].
  - rewrite lookup_snoc_lt in Hopen by done. destruct (H ch Hopen) as [k Hk].
    exists k. rewrite lookup_insert_ne; [done|]. intros <-. congruence.
  - assert (ch = length (chans c)) as ->.
    { apply lookup_lt_Some in Hopen. rewrite length_app in Hopen. simpl in Hopen. lia. }
    exists key. apply lookup_insert_eq.
Qed.

Lemma noStray_failedStart c : noStrayChannel c -> noStrayChannel (failedStart c).
Proof.
  intros H ch Hopen. cbn in *.
  destruct (decide (ch = length (chans c))) as [->|Hne].
  - rewrite list_lookup_insert_eq in Hopen; [done|]. rewrite length_app. simpl. lia.
  - rewrite list_lookup_insert_ne in Hopen by done.
    assert (Hlt : (ch < length (chans c))%nat).
    { apply lookup_lt_Some in Hopen. rewrite length_app in Hopen. simpl in Hopen. lia. }
    rewrite lookup_snoc_lt in Hopen by done. by apply H.
Qed.

Lemma noStray_stopped key ch c :
  inv c -> stopChannels c !! key = Some ch ->
  noStrayChannel c -> noStrayChannel (stopped key ch c).
Proof.
  intros Hinv Hk H ch' Hopen. cbn in *.
  destruct (decide (ch' = ch)) as [->|Hne].
  - rewrite list_lookup_insert_eq in Hopen; [done|].
    eapply lookup_lt_Some, (inv_open c Hinv). done.
  - rewrite list_lookup_insert_ne in Hopen by done.
    destruct (H ch' Hopen) as [k Hk']. exists k.
    rewrite lookup_delete_ne; [done|]. intros <-. congruence.
Qed.

Lemma noStray_afterStop key c :
  inv c -> noStrayChannel c -> noStrayChannel (afterStop key (stopChannels c !! key) c).
Proof.
  intros Hinv H. unfold afterStop. destruct (stopChannels c !! key) eqn:Hk; [|done].
  by apply noStray_stopped.
Qed.

Lemma noStray_afterHolder name c : noStrayChannel c -> noStrayChannel (afterHolder name c).
Proof.
  intros H. unfold afterHolder. destruct (stopChannels c !! name) eqn:Hk; [done|].
  by apply noStray_registered.
Qed.

Lemma noStray_afterFinalizer env tc c :
  noStrayChannel c -> noStrayChannel (afterFinalizer env tc c).
Proof.
  intros H. unfold afterFinalizer. destruct (ContainsFinalizer tc finalizer); [done|].
  destruct (isSome _); [done|]. by destruct (IsNamespace tc).
Qed.

Lemma noStray_afterDeleted env tc c :
  inv c -> noStrayChannel c -> noStrayChannel (afterDeleted env tc c).
Proof.
  intros Hinv H. unfold afterDeleted.
  destruct (afterStop_inv (Name tc) c Hinv) as (Hinv1 & _ & Hother).
  set (c1 := afterStop (Name tc) (stopChannels c !! Name tc) c) in *.
  assert (Hk : stopChannels c !! statusKeyOf (Name tc) = stopChannels c1 !! statusKeyOf (Name tc)).
  { symmetry. apply Hother. intros Heq. symmetry in Heq. by apply statusKey_ne in Heq. }
  rewrite Hk.
  assert (H2 : noStrayChannel (afterStop (statusKeyOf (Name tc))
                                 (stopChannels c1 !! statusKeyOf (Name tc)) c1)).
  { apply noStray_afterStop; [done|]. by apply noStray_afterStop. }
  destruct (IsNamespace tc), (ContainsFinalizer tc finalizer); done.
Qed.

Lemma noStray_syncStep env tc se c e1 c1 :
  inv c -> syncStep env tc se c e1 c1 -> noStrayChannel c -> noStrayChannel c1.
Proof.
  intros Hinv Hs H. destruct Hs; try done.
  - by apply noStray_registered.
  - by apply noStray_failedStart.
  - by apply noStray_stopped.
Qed.

Lemma noStray_statusStep env tc ste c e2 c2 :
  inv c -> statusStep env tc ste c e2 c2 -> noStrayChannel c -> noStrayChannel c2.
Proof.
  intros Hinv Hs H. destruct Hs; try done.
  - by apply noStray_registered.
  - by apply noStray_failedStart.
  - by apply noStray_stopped.
Qed.

Lemma noStray_refreshStep env tc sr se c e3 c3 :
  inv c -> refreshStep env tc sr se c e3 c3 -> noStrayChannel c -> noStrayChannel c3.
Proof.
  intros Hinv Hs H.
  destruct (afterStop_inv (Name tc) c Hinv) as (Hinv1 & Hfree & _).
  pose proof (noStray_afterStop (Name tc) c Hinv H) as H1.
  destruct Hs; try done.
  - by apply noStray_registered.
  - by apply noStray_failedStart.
Qed.

Lemma noStray_controllersRun env tc se ste c r c' :
  inv c -> controllersRun env tc se ste c r c' -> noStrayChannel c -> noStrayChannel c'.
Proof.
  intros Hinv Hrun H. destruct Hrun as [msg c1 H1|msg c1 c2 H1 H2|msg c1 c2 c3 H1 H2 H3|c1 c2 c3 H1 H2 H3 sr str published].
  - eapply noStray_syncStep; [exact Hinv|exact H1|exact H].
  - destruct (syncStep_evolves _ _ _ _ _ _ Hinv H1) as (Hinv1 & _).
    eapply noStray_statusStep; [exact Hinv1|exact H2|]. eapply noStray_syncStep; [exact Hinv|exact H1|exact H].
  - destruct (syncStep_evolves _ _ _ _ _ _ Hinv H1) as (Hinv1 & _).
    destruct (statusStep_evolves _ _ _ _ _ _ Hinv1 H2) as (Hinv2 & _).
    eapply noStray_refreshStep; [exact Hinv2|exact H3|].
    eapply noStray_statusStep; [exact Hinv1|exact H2|]. eapply noStray_syncStep; [exact Hinv|exact H1|exact H].
  - destruct (syncStep_evolves _ _ _ _ _ _ Hinv H1) as (Hinv1 & _).
    destruct (statusStep_evolves _ _ _ _ _ _ Hinv1 H2) as (Hinv2 & _).
    apply (noStray_same c3); [done|done|].
    eapply noStray_refreshStep; [exact Hinv2|exact H3|].
    eapply noStray_statusStep; [exact Hinv1|exact H2|]. eapply noStray_syncStep; [exact Hinv|exact H1|exact H].
Qed.

Lemma noStray_reconcile env qn c r c' :
  inv c -> noStrayChannel c -> reconcile env qn c = Ret r c' -> noStrayChannel c'.
Proof.
  intros Hinv H Hrun. destruct (fetched env qn) as [tc|] eqn:Hf.
  2:{ destruct (reconcile_not_fetched env qn c Hf) as [r0 Hr0].
      rewrite Hrun in Hr0. by injection Hr0 as _ ->. }
  pose proof (reconcile_run env qn tc c Hinv Hf) as Hshape.
  destruct (skipsClusterScoped env tc).
  { rewrite Hrun in Hshape. injection Hshape as _ ->.
    apply (noStray_same (afterHolder (Name tc) c)); [done|done|]. by apply noStray_afterHolder. }
  destruct (isSome (DeletionTimestamp tc)).
  { rewrite Hrun in Hshape. injection Hshape as _ ->. by apply noStray_afterDeleted. }
  destruct (finalizerEnsured env tc).
  2:{ rewrite Hrun in Hshape. injection Hshape as _ ->. by apply noStray_afterFinalizer. }
  destruct Hshape as (r0 & c0 & Hrun0 & Hsteps).
  rewrite Hrun in Hrun0. injection Hrun0 as <- <-.
  destruct (evolves_afterFinalizer (bothKeys tc) env tc c Hinv) as (Hev0 & _).
  eapply noStray_controllersRun; [apply (ev_inv _ _ _ _ Hev0)|exact Hsteps|].
  by apply noStray_afterFinalizer.
Qed.

(** ** shutDown *)

(** Closing and forgetting the entries of a list, one after the other. *)
Lemma forEach_stop_all (l : list (string * nat)) c :
  inv c -> NoDup l.*1 ->
  (forall k ch, (k, ch) ∈ l -> stopChannels c !! k = Some ch) ->
  exists c',
    forEach l (fun kv => closeChan kv.2 ;; mapDelete kv.1) c = Ret tt c'
    /\ inv c' /\ queue c' = queue c
    /\ length (chans c') = length (chans c)
    /\ (forall k, stopChannels c' !! k
                  = if bool_decide (k ∈ l.*1) then None else stopChannels c !! k)
    /\ (forall ch, chans c' !! ch
                   = if bool_decide (ch ∈ l.*2) then Some true else chans c !! ch)
    /\ starts (log c') = starts (log c).
Proof.
  revert c. induction l as [|[k ch] l IH]; intros c Hinv Hnd Hall.
  - exists c. split_and!; try done.
  - cbn [forEach fst snd]. unfold bind at 1.
    assert (Hk : stopChannels c !! k = Some ch) by (apply Hall; left).
    destruct (evolves_stopped k ch c Hinv Hk) as [Hrun Hev].
    change (closeChan ch ;; mapDelete k) with (stopController k ch). rewrite Hrun.
    simpl in Hnd. apply NoDup_cons in Hnd as [Hnotin Hnd].
    destruct (IH (stopped k ch c) (ev_inv _ _ _ _ Hev) Hnd) as (c' & Hrun' & Hinv' & Hq & Hlen & Hm & Hc & Hst).
    { intros k' ch' Hin. cbn. rewrite lookup_delete_ne.
      + apply Hall. by right.
      + intros <-. apply Hnotin. apply list_elem_of_fmap. by exists (k, ch'). }
    exists c'. split; [done|]. split; [done|]. split; [done|]. split_and!.
    + rewrite Hlen. cbn. by rewrite length_insert.
    + intros k'. rewrite Hm, fmap_cons. cbn [fst stopped stopChannels].
      destruct (decide (k' = k)) as [->|Hne].
      * rewrite lookup_delete_eq. rewrite (bool_decide_eq_true_2 (k ∈ k :: l.*1)) by set_solver.
        by destruct (bool_decide _).
      * rewrite lookup_delete_ne by done.
        destruct (bool_decide (k' ∈ l.*1)) eqn:Hb.
        -- apply bool_decide_eq_true_1 in Hb.
           by rewrite (bool_decide_eq_true_2 (k' ∈ k :: l.*1)) by set_solver.
        -- apply bool_decide_eq_false_1 in Hb.
           by rewrite (bool_decide_eq_false_2 (k' ∈ k :: l.*1)) by set_solver.
    + intros ch'. rewrite Hc, fmap_cons. cbn [snd stopped chans].
      destruct (bool_decide (ch' ∈ l.*2)) eqn:Hb.
      * apply bool_decide_eq_true_1 in Hb.
        by rewrite (bool_decide_eq_true_2 (ch' ∈ ch :: l.*2)) by set_solver.
      * apply bool_decide_eq_false_1 in Hb.
        destruct (decide (ch' = ch)) as [->|Hne].
        -- rewrite (bool_decide_eq_true_2 (ch ∈ ch :: l.*2)) by set_solver.
           apply list_lookup_insert_eq. eapply lookup_lt_Some, (inv_open c Hinv). done.
        -- rewrite (bool_decide_eq_false_2 (ch' ∈ ch :: l.*2)) by set_solver.
           by rewrite list_lookup_insert_ne.
    + rewrite Hst. cbn [stopped log]. by rewrite !starts_cons_none.
Qed.

Lemma shutDown_run c :
  inv c -> noStrayChannel c ->
  exists c',
    shutDown c = Ret tt c'
    /\ inv c' /\ noStrayChannel c'
    /\ stopChannels c' = ∅
    /\ queue c' = queue c
    /\ length (chans c') = length (chans c)
    /\ (forall ch, (ch < length (chans c'))%nat -> chans c' !! ch = Some true)
    /\ starts (log c') = starts (log c).
Proof.
  intros Hinv Htidy. unfold shutDown.
  destruct (forEach_stop_all (map_to_list (stopChannels c)) c Hinv
              (NoDup_fst_map_to_list (stopChannels c)))
    as (c' & Hrun & Hinv' & Hq & Hlen & Hm & Hc & Hst).
  { intros k ch Hin. by apply elem_of_map_to_list. }
  assert (Hall : forall ch, (ch < length (chans c'))%nat -> chans c' !! ch = Some true).
  { intros ch Hlt. rewrite Hc. destruct (bool_decide _) eqn:Hb; [done|].
    apply bool_decide_eq_false_1 in Hb.
    rewrite Hlen in Hlt. apply lookup_lt_is_Some_2 in Hlt as [b Hb'].
    destruct b; [done|]. exfalso. apply Hb.
    destruct (Htidy ch Hb') as [k Hk]. apply list_elem_of_fmap. exists (k, ch).
    split; [done|]. by apply elem_of_map_to_list. }
  exists c'. split_and!; try done.
  - intros ch Hopen. rewrite Hall in Hopen; [done|]. by eapply lookup_lt_Some.
  - apply map_eq. intros k. rewrite Hm, lookup_empty.
    destruct (bool_decide _) eqn:Hb; [done|]. apply bool_decide_eq_false_1 in Hb.
    destruct (stopChannels c !! k) as [ch|] eqn:Hk; [|done].
    exfalso. apply Hb. apply list_elem_of_fmap. exists (k, ch).
    split; [done|]. by apply elem_of_map_to_list.
Qed.

Lemma noStray_new : noStrayChannel newController.
Proof. intros ch H. cbn in H. by rewrite lookup_nil in H. Qed.

Lemma reachable_noStray c : reachable c -> noStrayChannel c.
Proof.
  induction 1 as [|env qn c r c' Hr IH Hrun|c c' Hr IH Hrun].
  - apply noStray_new.
  - eapply noStray_reconcile; [by apply reachable_inv|exact IH|exact Hrun].
  - destruct (shutDown_run c (reachable_inv c Hr) IH) as (c0 & Hrun0 & _ & Ht & _).
    rewrite Hrun in Hrun0. by injection Hrun0 as ->.
Qed.

End ControllerRunProps.

Module ControllerSafetyProps.
Import TypeConfig FTCController Scenarios ControllerSteps.
Import FTCControllerProps ControllerStepsProps ControllerRunProps.

(** ** What a reconcile may touch *)

Lemma reconcile_evolves env qn c :
  inv c ->
  exists r c' delta,
    reconcile env qn c = Ret r c' /\ evolves (keysOf env qn) c c' delta.
Proof.
  intros Hinv. unfold keysOf. destruct (fetched env qn) as [tc|] eqn:Hf.
  2:{ destruct (reconcile_not_fetched env qn c Hf) as [r Hr].
      exists r, c, []. split; [done|]. by apply evolves_refl. }
  rewrite (reconcile_fetched env qn tc c Hf).
  destruct (skipsClusterScoped env tc).
  { rewrite reconcileClusterScoped_run.
    pose proof (evolves_afterHolder (Name tc) c Hinv) as Hev.
    pose proof (evolves_logged [Name tc]
                  (EvUpdateStatus (notRunningStatus tc) (clientUpdateStatus env (notRunningStatus tc)))
                  _ eq_refl eq_refl (ev_inv _ _ _ _ Hev)) as Hev2.
    do 3 eexists. split; [reflexivity|].
    apply evolves_name. eapply evolves_trans; [exact Hev|exact Hev2]. }
  destruct (isSome (DeletionTimestamp tc)).
  { destruct (reconcileDeleted_run env tc c Hinv) as [Hrun Hev].
    rewrite Hrun. do 3 eexists. split; [reflexivity|exact Hev]. }
  rewrite reconcileLive_run.
  destruct (evolves_afterFinalizer (bothKeys tc) env tc c Hinv) as (Hev0 & Hm0 & Hc0).
  destruct (finalizerEnsured env tc).
  2:{ do 3 eexists. split; [reflexivity|exact Hev0]. }
  destruct (reconcileControllers_spec env (AddFinalizer tc finalizer)
              (GetPropagationEnabled tc) (statusControllerEnabled env tc)
              (afterFinalizer env tc c) (ev_inv _ _ _ _ Hev0))
    as (r & c' & delta & Hrun & Hev & Hst).
  rewrite Hm0 in Hrun. rewrite Name_AddFinalizer in Hrun.
  unfold bothKeys in Hev. rewrite Name_AddFinalizer in Hev. fold (bothKeys tc) in Hev.
  exists r, c', (delta ++ finalizerEvents env tc). split; [exact Hrun|].
  eapply evolves_trans; [exact Hev0|exact Hev].
Qed.

(** Closing a channel that is closed already panics; this is what the
    invariant keeps a reconcile from. *)
Lemma stopController_closed_panics key ch c :
  chans c !! ch = Some true -> stopController key ch c = Panic.
Proof. intros H. unfold stopController, bind, closeChan. by rewrite H. Qed.

Lemma stopController_unallocated_panics key ch c :
  chans c !! ch = None -> stopController key ch c = Panic.
Proof. intros H. unfold stopController, bind, closeChan. by rewrite H. Qed.

(** X1. From every reachable state, whatever the store and the
    collaborators answer, a reconcile returns and shutDown returns: no
    stop channel is closed twice. *)
Theorem stop_channels_are_closed_at_most_once c :
  reachable c ->
  (forall env qn, exists r c', reconcile env qn c = Ret r c' /\ reachable c')
  /\ (exists c', shutDown c = Ret tt c' /\ reachable c').
Proof.
  intros Hr. split.
  - intros env qn. by apply reconcile_returns.
  - destruct (shutDown_spec c (reachable_inv c Hr)) as (c' & Hrun & _).
    exists c'. split; [done|]. by eapply reach_shutDown.
Qed.

(** X2. shutDown, from a reachable state, empties the map and closes every
    stop channel the controller has ever made, without making a new one or
    touching the queue; afterwards no controller of any descriptor runs. *)
Theorem shutDown_stops_every_controller c :
  reachable c ->
  exists c',
    shutDown c = Ret tt c'
    /\ stopChannels c' = ∅
    /\ length (chans c') = length (chans c)
    /\ (forall ch, (ch < length (chans c'))%nat -> chans c' !! ch = Some true)
    /\ queue c' = queue c
    /\ (forall name, runningSync c' name = [] /\ runningStatus c' name = []).
Proof.
  intros Hr.
  destruct (shutDown_run c (reachable_inv c Hr) (reachable_noStray c Hr))
    as (c' & Hrun & Hinv & _ & Hm & Hq & Hlen & Hall & _).
  exists c'. split_and!; try done.
  intros name. split.
  - apply runningSync_nil; [done|]. by rewrite Hm.
  - apply runningStatus_nil; [done|]. by rewrite Hm.
Qed.

(** X3. In every reachable state the open stop channels are exactly the
    registered ones: a channel that was made and not closed is held by the
    map, under one key only, and every channel the map holds is open. *)
Theorem open_stop_channels_are_the_registered_ones c :
  reachable c ->
  forall ch,
    (chans c !! ch = Some false <-> exists k, stopChannels c !! k = Some ch)
    /\ (forall k1 k2,
          stopChannels c !! k1 = Some ch -> stopChannels c !! k2 = Some ch -> k1 = k2).
Proof.
  intros Hr ch. pose proof (reachable_inv c Hr) as Hinv. split; [split|].
  - apply (reachable_noStray c Hr).
  - intros [k Hk]. by apply (inv_open c Hinv k).
  - intros k1 k2. apply (inv_inj c Hinv).
Qed.

(** X4. A reconcile leaves the controllers of other descriptors alone:
    outside the name and the status key of the descriptor it fetched (all
    keys, if it fetched none) the map is unchanged and the channels held
    there stay open; closed channels stay closed and the queue only
    grows. *)
Theorem reconcile_leaves_other_descriptors_alone env qn c r c' :
  reachable c -> reconcile env qn c = Ret r c' ->
  (forall k, k ∉ keysOf env qn ->
     stopChannels c' !! k = stopChannels c !! k
     /\ forall ch, stopChannels c !! k = Some ch -> chans c' !! ch = Some false)
  /\ (forall ch, chans c !! ch = Some true -> chans c' !! ch = Some true)
  /\ (exists q, queue c' = queue c ++ q).
Proof.
  intros Hr Hrun. pose proof (reachable_inv c Hr) as Hinv.
  destruct (reconcile_evolves env qn c Hinv) as (r0 & c0 & delta & Hrun0 & Hev).
  rewrite Hrun in Hrun0. injection Hrun0 as <- <-.
  split_and!.
  - intros k Hk. pose proof (ev_other _ _ _ _ Hev k Hk) as Hsame. split; [done|].
    intros ch Hch. apply (inv_open c' (ev_inv _ _ _ _ Hev) k). by rewrite Hsame.
  - apply (ev_closed _ _ _ _ Hev).
  - apply (ev_queue _ _ _ _ Hev).
Qed.

End ControllerSafetyProps.

Module ControllerOutcomeProps.
Import TypeConfig FTCController Scenarios ControllerSteps.
Import FTCControllerProps ControllerStepsProps ControllerRunProps ControllerSafetyProps.

(** ** The queue *)

Lemma controllersRun_facts env tc se ste c r c' :
  inv c -> controllersRun env tc se ste c r c' ->
  inv c' /\ queue c' = queue c.
Proof.
  intros Hinv Hrun.
  destruct Hrun as [msg c1 H1|msg c1 c2 H1 H2|msg c1 c2 c3 H1 H2 H3|c1 c2 c3 H1 H2 H3 sr str published].
  - destruct (syncStep_evolves _ _ _ _ _ _ Hinv H1) as (Hinv1 & Hq1 & _). done.
  - destruct (syncStep_evolves _ _ _ _ _ _ Hinv H1) as (Hinv1 & Hq1 & _).
    destruct (statusStep_evolves _ _ _ _ _ _ Hinv1 H2) as (Hinv2 & Hq2 & _).
    split; [done|congruence].
  - destruct (syncStep_evolves _ _ _ _ _ _ Hinv H1) as (Hinv1 & Hq1 & _).
    destruct (statusStep_evolves _ _ _ _ _ _ Hinv1 H2) as (Hinv2 & Hq2 & _).
    destruct (refreshStep_evolves _ _ _ _ _ _ _ Hinv2 H3) as (Hinv3 & Hq3 & _).
    split; [done|congruence].
  - destruct (syncStep_evolves _ _ _ _ _ _ Hinv H1) as (Hinv1 & Hq1 & _).
    destruct (statusStep_evolves _ _ _ _ _ _ Hinv1 H2) as (Hinv2 & Hq2 & _).
    destruct (refreshStep_evolves _ _ _ _ _ _ _ Hinv2 H3) as (Hinv3 & Hq3 & _).
    split; [by apply inv_emit|]. cbn. congruence.
Qed.

Lemma afterHolder_queue name c : queue (afterHolder name c) = queue c.
Proof. unfold afterHolder. by destruct (stopChannels c !! name). Qed.

Lemma afterDeleted_queue env tc c :
  queue (afterDeleted env tc c)
  = queue c ++ (if IsNamespace tc then toEnqueue env else []).
Proof.
  unfold afterDeleted.
  destruct (IsNamespace tc), (ContainsFinalizer tc finalizer); cbn;
    rewrite !afterStop_queue; by rewrite ?app_nil_r.
Qed.

Lemma afterFinalizer_queue_all env tc c :
  queue (afterFinalizer env tc c)
  = queue c ++ (if IsNamespace tc
                   && (negb (ContainsFinalizer tc finalizer)
                       && negb (isSome (clientPatch env (AddFinalizer tc finalizer))))
                then toEnqueue env else []).
Proof.
  unfold afterFinalizer.
  destruct (ContainsFinalizer tc finalizer); cbn [negb andb].
  { rewrite andb_false_r. by rewrite app_nil_r. }
  destruct (isSome (clientPatch env (AddFinalizer tc finalizer))); cbn [negb andb].
  { rewrite andb_false_r. cbn. by rewrite app_nil_r. }
  destruct (IsNamespace tc); cbn; by rewrite ?app_nil_r.
Qed.

(** X5. A reconcile puts descriptors into the worker's queue only when it
    has fetched the namespaces descriptor, outside the cluster-scoped
    special case, and that descriptor is being deleted or has just had its
    finalizer added by a successful patch; it then appends, once and in
    the order of the store, the namespaced descriptors other than the
    namespaces descriptor. In every other case the queue is unchanged. *)
Theorem only_the_namespaces_descriptor_requeues env qn c r c' :
  reachable c -> reconcile env qn c = Ret r c' ->
  queue c' = queue c ++ match fetched env qn with
                        | Some tc => if requeues env tc then toEnqueue env else []
                        | None => []
                        end.
Proof.
  intros Hr Hrun. pose proof (reachable_inv c Hr) as Hinv.
  destruct (fetched env qn) as [tc|] eqn:Hf.
  2:{ destruct (reconcile_not_fetched env qn c Hf) as [r0 Hr0].
      rewrite Hrun in Hr0. injection Hr0 as _ ->. by rewrite app_nil_r. }
  pose proof (reconcile_run env qn tc c Hinv Hf) as Hshape. unfold requeues.
  destruct (skipsClusterScoped env tc); cbn [negb andb].
  { rewrite Hrun in Hshape. injection Hshape as _ ->. cbn.
    by rewrite afterHolder_queue, app_nil_r. }
  destruct (isSome (DeletionTimestamp tc)); cbn [orb].
  { rewrite Hrun in Hshape. injection Hshape as _ ->.
    rewrite afterDeleted_queue. by rewrite andb_true_r. }
  destruct (finalizerEnsured env tc).
  2:{ rewrite Hrun in Hshape. injection Hshape as _ ->. apply afterFinalizer_queue_all. }
  destruct Hshape as (r0 & c0 & Hrun0 & Hsteps).
  rewrite Hrun in Hrun0. injection Hrun0 as <- <-.
  destruct (evolves_afterFinalizer (bothKeys tc) env tc c Hinv) as (Hev0 & _).
  destruct (controllersRun_facts _ _ _ _ _ _ _ (ev_inv _ _ _ _ Hev0) Hsteps) as (_ & Hq).
  rewrite Hq. apply afterFinalizer_queue_all.
Qed.

(** ** A second reconcile *)

Lemma stopSync_true_enabled env tc :
  stopSyncController env tc true true = namespaceMissing env tc.
Proof. done. Qed.

Lemma syncStep_settled env tc se c c1 :
  syncStep env tc se c None c1 -> syncSettled env tc se (stopChannels c1 !! Name tc).
Proof.
  intros Hs. inversion Hs; subst; unfold syncSettled.
  - cbn [registered stopChannels]. rewrite lookup_insert_eq, stopSync_true_enabled.
    by eapply syncStartable_started.
  - cbn [stopped stopChannels]. rewrite lookup_delete_eq. intros ->.
    by rewrite <- stopSync_true_enabled.
  - destruct (stopChannels c1 !! Name tc); cbn [isSome] in *; [done|].
    intros ->. done.
Qed.

Lemma statusStep_settled env tc ste c c2 :
  statusStep env tc ste c None c2 ->
  isSome (stopChannels c2 !! statusKeyOf (Name tc)) = ste.
Proof.
  intros Hs. inversion Hs; subst; cbn.
  - by rewrite lookup_insert_eq.
  - by rewrite lookup_delete_eq.
  - done.
Qed.

Lemma refreshNeeded_observed env tc sr se :
  ObservedGeneration (Status tc) = Generation tc -> refreshNeeded env tc sr se = false.
Proof.
  intros H. unfold refreshNeeded. rewrite H, Z.eqb_refl. cbn. by rewrite andb_false_r.
Qed.

Lemma refreshStep_not_needed env tc sr se c e3 c3 :
  refreshNeeded env tc sr se = false -> refreshStep env tc sr se c e3 c3 ->
  e3 = None /\ c3 = c.
Proof. intros Hn Hs. destruct Hs; try done; congruence. Qed.

(** Once the entries are as the flags want them, the three steps change
    neither the map nor the channels. *)
Lemma settled_run env tc se ste c r c' :
  syncSettled env tc se (stopChannels c !! Name tc) ->
  isSome (stopChannels c !! statusKeyOf (Name tc)) = ste ->
  ObservedGeneration (Status tc) = Generation tc ->
  controllersRun env tc se ste c r c' ->
  stopChannels c' = stopChannels c /\ chans c' = chans c.
Proof.
  intros Hsync Hstatus Hgen Hrun.
  assert (Hkeep : forall e1 c1, syncStep env tc se c e1 c1 -> c1 = c).
  { intros e1 c1 Hs. unfold syncSettled in Hsync.
    inversion Hs; subst; try done; rewrite H in Hsync; exfalso.
    - specialize (Hsync eq_refl). apply syncStartable_started in H1. congruence.
    - specialize (Hsync eq_refl). congruence.
    - congruence. }
  assert (Hkeep2 : forall e2 c2, statusStep env tc ste c e2 c2 -> c2 = c).
  { intros e2 c2 Hs. inversion Hs; subst; try done.
    - by rewrite H in H0.
    - by rewrite H in H0.
    - by rewrite H in H0. }
  destruct Hrun as [msg c1 H1|msg c1 c2 H1 H2|msg c1 c2 c3 H1 H2 H3|c1 c2 c3 H1 H2 H3 sr str published].
  - by rewrite (Hkeep _ _ H1).
  - apply Hkeep in H1 as ->. by apply Hkeep2 in H2 as ->.
  - apply Hkeep in H1 as ->. apply Hkeep2 in H2 as ->.
    destruct (refreshStep_not_needed _ _ _ _ _ _ _ (refreshNeeded_observed _ _ _ _ Hgen) H3). done.
  - apply Hkeep in H1 as ->. apply Hkeep2 in H2 as ->.
    destruct (refreshStep_not_needed _ _ _ _ _ _ _ (refreshNeeded_observed _ _ _ _ Hgen) H3)
      as [_ ->]. done.
Qed.

Lemma controllersRun_ok env tc se ste c c' :
  controllersRun env tc se ste c StatusAllOK c' ->
  exists c1 c2 c3 published,
    syncStep env tc se c None c1 /\ statusStep env tc ste c1 None c2
    /\ refreshStep env tc (isSome (stopChannels c !! Name tc)) se c2 None c3
    /\ published
       = publishedStatus tc
           (startNewSyncController (isSome (stopChannels c !! Name tc)) se
            || (isSome (stopChannels c !! Name tc)
                && negb (stopSyncController env tc (isSome (stopChannels c !! Name tc)) se)))
           (startNewStatusController (isSome (stopChannels c !! statusKeyOf (Name tc))) ste
            || (isSome (stopChannels c !! statusKeyOf (Name tc))
                && negb (stopStatusController
                           (isSome (stopChannels c !! statusKeyOf (Name tc))) ste)))
    /\ clientUpdateStatus env published = None
    /\ c' = logged (EvUpdateStatus published None) c3.
Proof.
  intros Hrun. inversion Hrun as [| | |c1 c2 c3 H1 H2 H3 sr str published Hres Hc]; subst.
  exists c1, c2, c3, published. split_and!; try done.
  - destruct (clientUpdateStatus env published); [discriminate|done].
  - destruct (clientUpdateStatus env published); [discriminate|done].
Qed.

Lemma afterHolder_found name c : is_Some (stopChannels (afterHolder name c) !! name).
Proof.
  unfold afterHolder. destruct (stopChannels c !! name) eqn:Hk.
  - by rewrite Hk.
  - cbn. by rewrite lookup_insert_eq.
Qed.

Lemma afterHolder_again name c :
  is_Some (stopChannels c !! name) -> afterHolder name c = c.
Proof. intros [x Hx]. unfold afterHolder. by rewrite Hx. Qed.

Lemma afterDeleted_again env tc c :
  stopChannels c !! Name tc = None -> stopChannels c !! statusKeyOf (Name tc) = None ->
  stopChannels (afterDeleted env tc c) = stopChannels c
  /\ chans (afterDeleted env tc c) = chans c.
Proof.
  intros H1 H2. unfold afterDeleted. rewrite H1. cbn [afterStop]. rewrite H2. cbn [afterStop].
  by destruct (IsNamespace tc), (ContainsFinalizer tc finalizer).
Qed.

(** X6. Once a reconcile has returned AllOK for a descriptor whose
    generation is the observed one, reconciling the same name again in the
    same world changes nothing for the controllers: the second reconcile
    returns, the map is the same, and no stop channel is made or closed. *)
Theorem successful_reconcile_is_idempotent env qn c c1 :
  reachable c ->
  (forall tc, fetched env qn = Some tc -> ObservedGeneration (Status tc) = Generation tc) ->
  reconcile env qn c = Ret StatusAllOK c1 ->
  exists r c2,
    reconcile env qn c1 = Ret r c2
    /\ stopChannels c2 = stopChannels c1 /\ chans c2 = chans c1.
Proof.
  intros Hr Hgen Hrun. pose proof (reachable_inv c Hr) as Hinv.
  assert (Hinv1 : inv c1).
  { apply reachable_inv. by eapply reach_reconcile. }
  destruct (fetched env qn) as [tc|] eqn:Hf.
  2:{ destruct (reconcile_not_fetched env qn c Hf) as [r0 Hr0].
      rewrite Hrun in Hr0. injection Hr0 as _ ->. by exists StatusAllOK, c. }
  specialize (Hgen tc eq_refl).
  pose proof (reconcile_run env qn tc c Hinv Hf) as Hshape.
  pose proof (reconcile_run env qn tc c1 Hinv1 Hf) as Hshape1.
  destruct (skipsClusterScoped env tc).
  { rewrite Hrun in Hshape. injection Hshape as _ ->.
    do 2 eexists. split; [exact Hshape1|].
    rewrite (afterHolder_again (Name tc)); [done|].
    cbn. apply afterHolder_found. }
  destruct (isSome (DeletionTimestamp tc)).
  { rewrite Hrun in Hshape. injection Hshape as _ ->.
    do 2 eexists. split; [exact Hshape1|].
    destruct (afterDeleted_facts env tc c Hinv) as (A1 & A2 & _).
    by apply afterDeleted_again. }
  destruct (evolves_afterFinalizer (bothKeys tc) env tc c1 Hinv1) as (_ & Hm1 & Hc1).
  destruct (finalizerEnsured env tc).
  2:{ rewrite Hrun in Hshape. discriminate. }
  destruct Hshape as (r0 & c0 & Hrun0 & Hsteps).
  rewrite Hrun in Hrun0. injection Hrun0 as <- <-.
  destruct Hshape1 as (r2 & c2 & Hrun2 & Hsteps2).
  exists r2, c2. split; [done|].
  destruct (evolves_afterFinalizer (bothKeys tc) env tc c Hinv) as (Hev0 & _).
  pose proof (ev_inv _ _ _ _ Hev0) as Hinv0.
  destruct (controllersRun_ok _ _ _ _ _ _ Hsteps)
    as (s1 & s2 & s3 & published & H1 & H2 & H3 & _ & _ & ->).
  assert (HgenF : ObservedGeneration (Status (AddFinalizer tc finalizer))
                  = Generation (AddFinalizer tc finalizer)).
  { by rewrite Status_AddFinalizer, Generation_AddFinalizer. }
  destruct (refreshStep_not_needed _ _ _ _ _ _ _ (refreshNeeded_observed _ _ _ _ HgenF) H3)
    as [_ ->].
  destruct (syncStep_evolves _ _ _ _ _ _ Hinv0 H1) as (Hi1 & _ & _ & _).
  destruct (statusStep_evolves _ _ _ _ _ _ Hi1 H2) as (_ & _ & Ho2 & _).
  rewrite <- Hm1, <- Hc1.
  apply (settled_run env (AddFinalizer tc finalizer) (GetPropagationEnabled tc)
           (statusControllerEnabled env tc) _ r2 c2); [| |done|done].
  - rewrite Hm1. cbn [logged stopChannels]. rewrite Ho2.
    + by eapply syncStep_settled.
    + apply statusKey_ne.
  - rewrite Hm1. cbn [logged stopChannels]. by eapply statusStep_settled.
Qed.

End ControllerOutcomeProps.

Module ControllerStatusProps.
Import TypeConfig FTCController Scenarios ControllerSteps.
Import FTCControllerProps ControllerStepsProps ControllerRunProps ControllerSafetyProps.
Import ControllerOutcomeProps.

(** ** The published status and the map *)

Lemma syncStep_log env tc se c e1 c1 :
  syncStep env tc se c e1 c1 -> exists d, log c1 = d ++ log c.
Proof.
  intros Hs. destruct Hs.
  - by eexists [_; _].
  - by exists [].
  - by eexists [_].
  - by eexists [_; _].
  - by exists [].
Qed.

Lemma statusStep_log env tc ste c e2 c2 :
  statusStep env tc ste c e2 c2 -> exists d, log c2 = d ++ log c.
Proof.
  intros Hs. destruct Hs.
  - by eexists [_; _].
  - by eexists [_].
  - by eexists [_; _].
  - by exists [].
Qed.

Lemma afterStop_log key found c :
  log (afterStop key found c) = stopEvents key found ++ log c.
Proof. by destruct found. Qed.

Lemma refreshStep_log env tc sr se c e3 c3 :
  refreshStep env tc sr se c e3 c3 -> exists d, log c3 = d ++ log c.
Proof.
  intros Hs. destruct Hs; cbn [registered failedStart log]; rewrite ?afterStop_log.
  - by exists [].
  - eexists (_ :: _ :: _). cbn. reflexivity.
  - by eexists.
  - eexists (_ :: _). cbn. reflexivity.
Qed.

Lemma syncStep_flag env tc se c c1 :
  syncStep env tc se c None c1 ->
  startNewSyncController (isSome (stopChannels c !! Name tc)) se
  || (isSome (stopChannels c !! Name tc)
      && negb (stopSyncController env tc (isSome (stopChannels c !! Name tc)) se))
  = isSome (stopChannels c1 !! Name tc).
Proof.
  intros Hs. inversion Hs; subst.
  - rewrite H. cbn. by rewrite lookup_insert_eq.
  - rewrite H. cbn [isSome]. rewrite H0. cbn. by rewrite lookup_delete_eq.
  - rewrite H, H0. cbn. by rewrite andb_true_r.
Qed.

Lemma statusStep_flag env tc ste c c2 :
  statusStep env tc ste c None c2 ->
  startNewStatusController (isSome (stopChannels c !! statusKeyOf (Name tc))) ste
  || (isSome (stopChannels c !! statusKeyOf (Name tc))
      && negb (stopStatusController (isSome (stopChannels c !! statusKeyOf (Name tc))) ste))
  = isSome (stopChannels c2 !! statusKeyOf (Name tc)).
Proof.
  intros Hs. inversion Hs; subst.
  - rewrite H. cbn. by rewrite lookup_insert_eq.
  - rewrite H. cbn. by rewrite lookup_delete_eq.
  - unfold startNewStatusController, stopStatusController.
    by destruct (isSome (stopChannels c2 !! statusKeyOf (Name tc))).
Qed.

Lemma refreshNeeded_flags env tc sr se :
  refreshNeeded env tc sr se = true ->
  startNewSyncController sr se = false /\ stopSyncController env tc sr se = false
  /\ ObservedGeneration (Status tc) <> Generation tc.
Proof.
  unfold refreshNeeded. intros H.
  apply andb_prop in H as [H Hg]. apply andb_prop in H as [H1 H2].
  apply negb_true_iff in H1, H2, Hg. split_and!; try done.
  intros Heq. rewrite Heq, Z.eqb_refl in Hg. done.
Qed.

(** The steps of a live reconcile that publishes its status. *)
Lemma live_published env qn tc c c' :
  inv c -> fetched env qn = Some tc -> skipsClusterScoped env tc = false ->
  DeletionTimestamp tc = None ->
  reconcile env qn c = Ret StatusAllOK c' ->
  let tcF := AddFinalizer tc finalizer in
  let se := GetPropagationEnabled tc in
  let ste := statusControllerEnabled env tc in
  let c0 := afterFinalizer env tc c in
  exists c1 c2 c3 published,
    inv c0 /\ stopChannels c0 = stopChannels c /\ chans c0 = chans c
    /\ log c0 = finalizerEvents env tc ++ log c
    /\ syncStep env tcF se c0 None c1 /\ statusStep env tcF ste c1 None c2
    /\ refreshStep env tcF (isSome (stopChannels c !! Name tc)) se c2 None c3
    /\ published
       = publishedStatus tcF
           (startNewSyncController (isSome (stopChannels c !! Name tc)) se
            || (isSome (stopChannels c !! Name tc)
                && negb (stopSyncController env tcF (isSome (stopChannels c !! Name tc)) se)))
           (startNewStatusController (isSome (stopChannels c !! statusKeyOf (Name tc))) ste
            || (isSome (stopChannels c !! statusKeyOf (Name tc))
                && negb (stopStatusController
                           (isSome (stopChannels c !! statusKeyOf (Name tc))) ste)))
    /\ clientUpdateStatus env published = None
    /\ c' = logged (EvUpdateStatus published None) c3.
Proof.
  intros Hinv Hf Hskip Hdel Hrun. cbv zeta.
  pose proof (reconcile_run env qn tc c Hinv Hf) as Hshape.
  rewrite Hskip, Hdel in Hshape. cbn [isSome] in Hshape.
  destruct (evolves_afterFinalizer (bothKeys tc) env tc c Hinv) as (Hev0 & Hm0 & Hc0).
  destruct (finalizerEnsured env tc).
  2:{ rewrite Hrun in Hshape. discriminate. }
  destruct Hshape as (r0 & c0 & Hrun0 & Hsteps).
  rewrite Hrun in Hrun0. injection Hrun0 as <- <-.
  destruct (controllersRun_ok _ _ _ _ _ _ Hsteps)
    as (c1 & c2 & c3 & published & H1 & H2 & H3 & Hp & Hok & ->).
  rewrite Name_AddFinalizer, Hm0 in H3, Hp.
  exists c1, c2, c3, published. split_and!; try done.
  - apply (ev_inv _ _ _ _ Hev0).
  - apply (ev_log _ _ _ _ Hev0).
Qed.

(** X7. When the reconcile of a live descriptor, outside the special
    case, returns AllOK, its last action was one UpdateStatus that
    succeeded, with observedGeneration set to the generation; the status
    controller field says Running exactly when the status key is registered
    at the end; the propagation controller field says Running only if the
    name is registered at the end, and exactly then unless propagation is
    off, nothing was registered and the generation had changed. *)
Theorem published_status_agrees_with_the_map env qn tc c c' :
  reachable c -> fetched env qn = Some tc -> skipsClusterScoped env tc = false ->
  DeletionTimestamp tc = None ->
  reconcile env qn c = Ret StatusAllOK c' ->
  exists published delta,
    log c' = EvUpdateStatus published None :: delta ++ log c
    /\ Name published = Name tc
    /\ ObservedGeneration (Status published) = Generation tc
    /\ StatusController (Status published)
       = Some (statusOf (isSome (stopChannels c' !! statusKeyOf (Name tc))))
    /\ (PropagationController (Status published) = ControllerStatusRunning ->
        is_Some (stopChannels c' !! Name tc))
    /\ (GetPropagationEnabled tc = true \/ is_Some (stopChannels c !! Name tc)
        \/ ObservedGeneration (Status tc) = Generation tc ->
        PropagationController (Status published)
        = statusOf (isSome (stopChannels c' !! Name tc))).
Proof.
  intros Hr Hf Hskip Hdel Hrun. pose proof (reachable_inv c Hr) as Hinv.
  destruct (live_published env qn tc c c' Hinv Hf Hskip Hdel Hrun)
    as (c1 & c2 & c3 & published & Hinv0 & Hm0 & Hc0 & Hl0 & H1 & H2 & H3 & Hp & Hok & ->).
  set (tcF := AddFinalizer tc finalizer) in *.
  assert (HnF : Name tcF = Name tc) by apply Name_AddFinalizer.
  destruct (syncStep_evolves _ _ _ _ _ _ Hinv0 H1) as (Hinv1 & _ & Ho1 & _).
  destruct (statusStep_evolves _ _ _ _ _ _ Hinv1 H2) as (Hinv2 & _ & Ho2 & _).
  destruct (refreshStep_evolves _ _ _ _ _ _ _ Hinv2 H3) as (Hinv3 & _ & Ho3 & _).
  destruct (syncStep_log _ _ _ _ _ _ H1) as [d1 Hl1].
  destruct (statusStep_log _ _ _ _ _ _ H2) as [d2 Hl2].
  destruct (refreshStep_log _ _ _ _ _ _ _ H3) as [d3 Hl3].
  pose proof (statusKey_ne (Name tc)) as Hne.
  (* the status key *)
  assert (Hsk : stopChannels c3 !! statusKeyOf (Name tc)
                = stopChannels c2 !! statusKeyOf (Name tc)).
  { apply Ho3. rewrite HnF. congruence. }
  pose proof (statusStep_flag _ _ _ _ _ H2) as Hflag2. rewrite HnF in Hflag2.
  assert (Hk1 : stopChannels c1 !! statusKeyOf (Name tc)
                = stopChannels c !! statusKeyOf (Name tc)).
  { rewrite <- Hm0. apply Ho1. rewrite HnF. congruence. }
  rewrite Hk1 in Hflag2.
  (* the name *)
  pose proof (syncStep_flag _ _ _ _ _ H1) as Hflag1. rewrite HnF, Hm0 in Hflag1.
  assert (Hn2 : stopChannels c2 !! Name tc = stopChannels c1 !! Name tc).
  { apply Ho2. rewrite HnF. done. }
  exists published, (d3 ++ d2 ++ d1 ++ finalizerEvents env tc).
  split_and!.
  - cbn. rewrite Hl3, Hl2, Hl1, Hl0. by rewrite <- !app_assoc.
  - rewrite Hp. cbn. exact HnF.
  - rewrite Hp. cbn. apply Generation_AddFinalizer.
  - rewrite Hp. cbn [publishedStatus setStatus Status StatusController logged stopChannels].
    by rewrite Hflag2, Hsk.
  - rewrite Hp. cbn [publishedStatus setStatus Status PropagationController logged stopChannels].
    rewrite Hflag1. intros Hrunning.
    inversion H3; subst.
    + rewrite Hn2. destruct (stopChannels c1 !! Name tc); [by eexists|done].
    + cbn. rewrite HnF, lookup_insert_eq. by eexists.
  - intros Hcond.
    rewrite Hp. cbn [publishedStatus setStatus Status PropagationController logged stopChannels].
    rewrite Hflag1. inversion H3; subst.
    + by rewrite Hn2.
    + cbn [registered stopChannels]. rewrite HnF, lookup_insert_eq. cbn [isSome].
      destruct (refreshNeeded_flags _ _ _ _ H) as (Hs1 & Hs2 & Hg).
      pose proof Hflag1 as Hflag. rewrite Hs1, Hs2 in Hflag. cbn in Hflag.
      rewrite andb_true_r in Hflag. rewrite <- Hflag.
      destruct Hcond as [Hse|[[x Hx]|Hobs]].
      * rewrite Hse in Hs1. unfold startNewSyncController in Hs1.
        destruct (isSome (stopChannels c !! Name tc)); [done|discriminate].
      * by rewrite Hx.
      * exfalso. apply Hg. unfold tcF. by rewrite Status_AddFinalizer, Generation_AddFinalizer.
Qed.

Lemma only_element (l : list nat) (a : nat) :
  NoDup l -> (forall x, x ∈ l -> x = a) -> a ∈ l -> l = [a].
Proof.
  intros Hnd Hall Hin. destruct l as [|x [|y l]].
  - by apply elem_of_nil in Hin.
  - by rewrite (Hall x) by (by left).
  - exfalso. apply NoDup_cons in Hnd as [Hnotin _]. apply Hnotin.
    rewrite (Hall x) by (by left). rewrite (Hall y) by (right; by left). by left.
Qed.

Lemma runningSync_started c name ch older :
  inv c -> log c = older -> (name, ch) ∈ syncStarts older ->
  chans c !! ch = Some false -> runningSync c name = [ch].
Proof.
  intros Hinv Hl Hin Hopen. subst older.
  assert (Hrun : ch ∈ runningSync c name).
  { unfold runningSync. apply list_elem_of_fmap. exists (name, ch). split; [done|].
    apply list_elem_of_In, filter_In. split; [by apply list_elem_of_In|].
    cbn. rewrite String.eqb_refl. unfold isOpen. by rewrite Hopen. }
  pose proof (runningSync_registered c name ch Hinv Hrun) as Hreg.
  apply only_element; [by apply runningSync_NoDup| |done].
  intros x Hx. apply (runningSync_registered c name x Hinv) in Hx. congruence.
Qed.

(** X8. The refresh does not look at the propagation flag: for a live
    descriptor with propagation off, nothing registered under its name and
    a generation that has not been observed, a reconcile whose starts
    succeed starts a sync controller and registers it, and publishes a
    status that says the propagation controller is not running. *)
Theorem refresh_starts_sync_controller_with_propagation_off env qn tc c :
  reachable c -> fetched env qn = Some tc -> skipsClusterScoped env tc = false ->
  DeletionTimestamp tc = None -> finalizerEnsured env tc = true ->
  GetPropagationEnabled tc = false -> stopChannels c !! Name tc = None ->
  ObservedGeneration (Status tc) <> Generation tc ->
  (forall ch, statusStartable env (AddFinalizer tc finalizer) ch = true) ->
  (forall ch, syncStartable env (AddFinalizer tc finalizer) ch = true) ->
  exists c' published err delta n,
    reconcile env qn c = Ret (statusResult err) c'
    /\ log c' = EvUpdateStatus published err :: delta ++ log c
    /\ PropagationController (Status published) = ControllerStatusNotRunning
    /\ stopChannels c' !! Name tc = Some n
    /\ chans c' !! n = Some false
    /\ runningSync c' (Name tc) = [n].
Proof.
  intros Hr Hf Hskip Hdel Hfin Hse Hk Hgen Hstatus Hsync.
  pose proof (reachable_inv c Hr) as Hinv.
  pose proof (reconcile_run env qn tc c Hinv Hf) as Hshape.
  rewrite Hskip, Hdel, Hfin in Hshape. cbn [isSome] in Hshape.
  destruct Hshape as (r & c' & Hrun & Hsteps).
  destruct (evolves_afterFinalizer (bothKeys tc) env tc c Hinv) as (Hev0 & Hm0 & Hc0).
  pose proof (ev_inv _ _ _ _ Hev0) as Hinv0.
  pose proof (ev_log _ _ _ _ Hev0) as Hl0.
  set (tcF := AddFinalizer tc finalizer) in *.
  set (c0 := afterFinalizer env tc c) in *.
  assert (HnF : Name tcF = Name tc) by apply Name_AddFinalizer.
  assert (Hk0 : stopChannels c0 !! Name tcF = None) by (by rewrite HnF, Hm0).
  rewrite Hse in Hsteps.
  assert (Hneed : refreshNeeded env tcF (isSome (stopChannels c0 !! Name tcF)) false = true).
  { rewrite Hk0. unfold refreshNeeded, tcF.
    rewrite Status_AddFinalizer, Generation_AddFinalizer. cbn.
    destruct (Z.eqb_spec (ObservedGeneration (Status tc)) (Generation tc)); done. }
  assert (Hsame : forall e1 c1, syncStep env tcF false c0 e1 c1 -> e1 = None /\ c1 = c0).
  { intros e1 c1 Hs. inversion Hs; subst; try done. congruence. }
  assert (Hst : forall e2 c2, statusStep env tcF (statusControllerEnabled env tc) c0 e2 c2 ->
                  e2 = None /\ inv c2 /\ stopChannels c2 !! Name tcF = None
                  /\ exists d, log c2 = d ++ log c0).
  { intros e2 c2 Hs.
    destruct (statusStep_evolves _ _ _ _ _ _ Hinv0 Hs) as (Hinv2 & _ & Ho2 & _).
    destruct (statusStep_log _ _ _ _ _ _ Hs) as [d Hd].
    split_and!; try done.
    - inversion Hs; subst; try done. by rewrite Hstatus in H1.
    - rewrite Ho2; [done|]. rewrite HnF. apply statusKey_ne.
    - by exists d. }
  assert (Hfinal : forall c2 c3 e3 d2,
            inv c2 -> stopChannels c2 !! Name tcF = None -> log c2 = d2 ++ log c0 ->
            refreshStep env tcF (isSome (stopChannels c0 !! Name tcF)) false c2 e3 c3 ->
            e3 = None
            /\ c3 = registered (Name tcF) [EvSyncStarted (Name tcF) (length (chans c2))] c2).
  { intros c2 c3 e3 d2 Hinv2 Hk2 Hl2 Hs. inversion Hs; subst.
    - congruence.
    - by rewrite Hk2.
    - apply syncStartable_missing with (ch := 0%nat) in H0. by rewrite Hsync in H0.
    - by rewrite Hsync in H1. }
  inversion Hsteps as [msg c1 H1|msg c1 c2 H1 H2|msg c1 c2 c3 H1 H2 H3
                       |c1 c2 c3 H1 H2 H3 sr str published Hres Hc]; subst.
  - by destruct (Hsame _ _ H1).
  - destruct (Hsame _ _ H1) as [_ ->]. by destruct (Hst _ _ H2).
  - destruct (Hsame _ _ H1) as [_ ->].
    destruct (Hst _ _ H2) as (_ & Hinv2 & Hk2 & d2 & Hl2).
    by destruct (Hfinal _ _ _ _ Hinv2 Hk2 Hl2 H3).
  - destruct (Hsame _ _ H1) as [_ ->].
    destruct (Hst _ _ H2) as (_ & Hinv2 & Hk2 & d2 & Hl2).
    destruct (Hfinal _ _ _ _ Hinv2 Hk2 Hl2 H3) as [_ ->].
    set (n := length (chans c2)) in *.
    assert (Hinv3 : inv (registered (Name tcF) [EvSyncStarted (Name tcF) n] c2)).
    { apply inv_register; [done|done|]. right. by eexists. }
    eexists _, published, (clientUpdateStatus env published),
      ([EvStore (Name tcF) n; EvSyncStarted (Name tcF) n] ++ d2 ++ finalizerEvents env tc), n.
    rewrite <- HnF.
    assert (Hopen : chans (registered (Name tcF) [EvSyncStarted (Name tcF) n] c2) !! n
                    = Some false) by apply lookup_snoc_new.
    split_and!.
    + exact Hrun.
    + cbn. rewrite Hl2, Hl0. by rewrite <- !app_assoc.
    + unfold published, sr. rewrite Hk0. done.
    + cbn. apply lookup_insert_eq.
    + exact Hopen.
    + eapply runningSync_started; [by apply inv_emit|reflexivity| |exact Hopen].
      cbn. left.
Qed.

End ControllerStatusProps.

Module ControllerWitnesses.
Import TypeConfig FTCController Scenarios ControllerSteps.
Import FTCControllerProps ControllerSafetyProps ControllerOutcomeProps ControllerStatusProps.

(** ** The properties at concrete worlds *)

Lemma stop_channels_are_closed_at_most_once_witness :
  exists r c',
    reconcile (world "" [servicesDeleted; namespacesLive] None None None) (qnOf "services")
              servicesStarted = Ret r c'
    /\ reachable c'.
Proof.
  destruct (stop_channels_are_closed_at_most_once servicesStarted servicesStarted_reachable)
    as [Hrec _].
  exact (Hrec (world "" [servicesDeleted; namespacesLive] None None None) (qnOf "services")).
Defined.

Lemma shutDown_stops_every_controller_witness :
  exists c',
    shutDown servicesStarted = Ret tt c'
    /\ stopChannels c' = ∅
    /\ chans c' !! 0%nat = Some true /\ chans c' !! 1%nat = Some true
    /\ runningSync c' "services" = [].
Proof.
  destruct (shutDown_stops_every_controller servicesStarted servicesStarted_reachable)
    as (c' & Hrun & Hm & Hlen & Hall & _ & Hnone).
  exists c'. split; [exact Hrun|]. split; [exact Hm|].
  split; [|split].
  - apply Hall. rewrite Hlen. vm_compute. lia.
  - apply Hall. rewrite Hlen. vm_compute. lia.
  - apply (Hnone "services").
Defined.

Lemma open_stop_channels_are_the_registered_ones_witness :
  exists k, stopChannels servicesStarted !! k = Some 1%nat.
Proof.
  destruct (open_stop_channels_are_the_registered_ones servicesStarted
              servicesStarted_reachable 1%nat) as [[Hto _] _].
  apply Hto. vm_compute. reflexivity.
Defined.

Lemma reconcile_leaves_other_descriptors_alone_witness :
  stopChannels (afterReconcile (world "" [clusterroles] None None None) (qnOf "clusterroles")
                               servicesStarted) !! "services"
  = stopChannels servicesStarted !! "services".
Proof.
  destruct (reconcile_leaves_other_descriptors_alone
              (world "" [clusterroles] None None None) (qnOf "clusterroles")
              servicesStarted StatusAllOK
              (afterReconcile (world "" [clusterroles] None None None) (qnOf "clusterroles")
                              servicesStarted)
              servicesStarted_reachable ltac:(vm_compute; reflexivity))
    as (Hother & _).
  apply (Hother "services"). vm_compute.
  intros H. apply elem_of_cons in H as [H|H]; [discriminate|].
  apply elem_of_cons in H as [H|H]; [discriminate|]. by apply elem_of_nil in H.
Defined.

Lemma only_the_namespaces_descriptor_requeues_witness :
  queue (afterReconcile (world "" [namespacesDeleted; configmaps; clusterroles] None None None)
                        (qnOf "namespaces") newController)
  = [qnOf "configmaps"].
Proof.
  exact (only_the_namespaces_descriptor_requeues
           (world "" [namespacesDeleted; configmaps; clusterroles] None None None)
           (qnOf "namespaces") newController StatusAllOK
           (afterReconcile (world "" [namespacesDeleted; configmaps; clusterroles] None None None)
                           (qnOf "namespaces") newController)
           reach_new ltac:(vm_compute; reflexivity)).
Defined.

Lemma successful_reconcile_is_idempotent_witness :
  exists r c2,
    reconcile servicesWorld (qnOf "services") servicesStarted = Ret r c2
    /\ stopChannels c2 = stopChannels servicesStarted
    /\ chans c2 = chans servicesStarted.
Proof.
  apply (successful_reconcile_is_idempotent servicesWorld (qnOf "services")
           newController servicesStarted reach_new).
  - intros tc Hf. vm_compute in Hf. injection Hf as <-. reflexivity.
  - vm_compute. reflexivity.
Defined.

Lemma published_status_agrees_with_the_map_witness :
  exists published delta,
    log servicesStarted = EvUpdateStatus published None :: delta ++ log newController
    /\ StatusController (Status published) = Some ControllerStatusRunning.
Proof.
  destruct (published_status_agrees_with_the_map servicesWorld (qnOf "services") services
              newController servicesStarted reach_new eq_refl eq_refl eq_refl
              ltac:(vm_compute; reflexivity))
    as (published & delta & Hlog & _ & _ & Hst & _).
  exists published, delta. split; [exact Hlog|]. rewrite Hst. vm_compute. reflexivity.
Defined.

Lemma refresh_starts_sync_controller_with_propagation_off_witness :
  exists c' published,
    reconcile (world "" [configmapsOff; namespacesLive] None None None) (qnOf "configmaps")
              newController = Ret StatusAllOK c'
    /\ head (log c') = Some (EvUpdateStatus published None)
    /\ PropagationController (Status published) = ControllerStatusNotRunning
    /\ runningSync c' "configmaps" = [0%nat].
Proof.
  destruct (refresh_starts_sync_controller_with_propagation_off
              (world "" [configmapsOff; namespacesLive] None None None) (qnOf "configmaps")
              configmapsOff newController reach_new eq_refl eq_refl eq_refl eq_refl eq_refl
              eq_refl ltac:(discriminate) ltac:(intros; reflexivity) ltac:(intros; reflexivity))
    as (c' & published & err & delta & n & Hrun & Hlog & Hp & Hreg & Hopen & Hrunning).
  assert (Hc : c' = afterReconcile (world "" [configmapsOff; namespacesLive] None None None)
                                  (qnOf "configmaps") newController).
  { unfold afterReconcile. by rewrite Hrun. }
  assert (Hn : n = 0%nat).
  { rewrite Hc in Hreg. vm_compute in Hreg. by injection Hreg. }
  assert (He : err = None).
  { rewrite Hc in Hlog. vm_compute in Hlog. by injection Hlog. }
  subst n err. exists c', published. split; [exact Hrun|].
  split; [by rewrite Hlog|]. split; [exact Hp|exact Hrunning].
Defined.

End ControllerWitnesses.

(** * Properties of the CRUD tester's checks *)

Module CrudChecksProps.
Import TypeConfig CrudTester CrudChecks.

(** ** Polling *)

Lemma poll_done_iff {Obs : Type} (condition : Obs -> bool * option string)
    (observations : list Obs) :
  poll condition observations = PollDone <->
  exists pre o post,
    observations = pre ++ o :: post /\ condition o = (true, None)
    /\ Forall (fun x => condition x = (false, None)) pre.
Proof.
  induction observations as [|x l IH]; simpl.
  - split; [done|]. intros (pre & o & post & H & _). by destruct pre.
  - destruct (condition x) as [[] [e|]] eqn:Hx; cbn.
    + split; [done|]. intros (pre & o & post & H & Ho & Hpre).
      destruct pre as [|y pre]; simplify_eq/=; [congruence|].
      apply Forall_cons in Hpre as [Hy _]. congruence.
    + split; [|done]. intros _. exists [], x, l. by split_and!.
    + split; [done|]. intros (pre & o & post & H & Ho & Hpre).
      destruct pre as [|y pre]; simplify_eq/=; [congruence|].
      apply Forall_cons in Hpre as [Hy _]. congruence.
    + rewrite IH. split.
      * intros (pre & o & post & -> & Ho & Hpre). exists (x :: pre), o, post.
        split_and!; try done. by constructor.
      * intros (pre & o & post & H & Ho & Hpre).
        destruct pre as [|y pre]; simplify_eq/=; [congruence|].
        apply Forall_cons in Hpre as [_ Hpre]. by exists pre, o, post.
Qed.

Lemma poll_error_iff {Obs : Type} (condition : Obs -> bool * option string)
    (observations : list Obs) (err : string) :
  poll condition observations = PollError err <->
  exists pre o post b,
    observations = pre ++ o :: post /\ condition o = (b, Some err)
    /\ Forall (fun x => condition x = (false, None)) pre.
Proof.
  induction observations as [|x l IH]; simpl.
  - split; [done|]. intros (pre & o & post & b & H & _). by destruct pre.
  - destruct (condition x) as [[] [e|]] eqn:Hx; cbn.
    + split.
      * intros [= ->]. exists [], x, l, true. by split_and!.
      * intros (pre & o & post & b' & H & Ho & Hpre).
        destruct pre as [|y pre]; simplify_eq/=; [congruence|].
        apply Forall_cons in Hpre as [Hy _]. congruence.
    + split; [done|]. intros (pre & o & post & b' & H & Ho & Hpre).
      destruct pre as [|y pre]; simplify_eq/=; [congruence|].
      apply Forall_cons in Hpre as [Hy _]. congruence.
    + split.
      * intros [= ->]. exists [], x, l, false. by split_and!.
      * intros (pre & o & post & b' & H & Ho & Hpre).
        destruct pre as [|y pre]; simplify_eq/=; [congruence|].
        apply Forall_cons in Hpre as [Hy _]. congruence.
    + rewrite IH. split.
      * intros (pre & o & post & b' & -> & Ho & Hpre). exists (x :: pre), o, post, b'.
        split_and!; try done. by constructor.
      * intros (pre & o & post & b' & H & Ho & Hpre).
        destruct pre as [|y pre]; simplify_eq/=; [congruence|].
        apply Forall_cons in Hpre as [_ Hpre]. by exists pre, o, post, b'.
Qed.

(** A condition that never reports an error: the poll is done as soon as
    one call says so, whatever came before. *)
Lemma poll_without_errors {Obs : Type} (condition : Obs -> bool * option string)
    (observations : list Obs) :
  (forall o, (condition o).2 = None) ->
  (forall err, poll condition observations <> PollError err)
  /\ (poll condition observations = PollDone <->
      exists o, o ∈ observations /\ (condition o).1 = true).
Proof.
  intros Hno. induction observations as [|x l [IH1 IH2]]; simpl.
  - split; [done|]. split; [done|]. intros (o & Hin & _). by apply elem_of_nil in Hin.
  - specialize (Hno x) as Hx. destruct (condition x) as [b [e|]] eqn:Hc; [done|].
    destruct b; cbn.
    + split; [done|]. split; [|done]. intros _. exists x. split; [by left|by rewrite Hc].
    + split; [done|]. rewrite IH2. split.
      * intros (o & Hin & Ho). exists o. split; [by right|done].
      * intros (o & Hin & Ho). apply elem_of_cons in Hin as [->|Hin].
        -- rewrite Hc in Ho. done.
        -- by exists o.
Qed.

(** ** CheckDelete *)

Lemma checkDeleteCondition_deleting tin isPrimary o :
  (checkDeleteCondition true tin isPrimary o).2 = None
  /\ ((checkDeleteCondition true tin isPrimary o).1 = true <->
      o = NotFound
      \/ (tin = true /\ isPrimary = true
          /\ exists obj, o = Found obj /\ HasManagedLabel obj = false)).
Proof.
  destruct o as [obj| |msg]; simpl.
  - destruct tin, isPrimary; simpl; (split; [done|]).
    + split.
      * intros H. right. split_and!; try done. exists obj. split; [done|].
        by apply negb_true_iff.
      * intros [|(_ & _ & obj' & [= <-] & H)]; [done|]. by apply negb_true_iff.
    + split; [done|]. intros [|(_ & ? & _)]; done.
    + split; [done|]. intros [|(? & _)]; done.
    + split; [done|]. intros [|(? & _)]; done.
  - split; [done|]. split; [|done]. intros _. by left.
  - split; [done|]. split; [done|]. intros [|(_ & _ & obj & ? & _)]; done.
Qed.

(** X9. How the wait of CheckDelete for one selected cluster ends. When
    the targets are to be deleted, it succeeds exactly if at some poll the
    target is missing or, for a namespace in the primary cluster, is there
    without the managed label; errors of the Get and a target that is still
    there only prolong the wait. When the targets are to be orphaned, it
    succeeds exactly if the target is seen without the managed label before
    it is ever seen missing. *)
Theorem CheckDelete_waits_for_removal_or_unlabeling
    (targetIsNamespace isPrimary : bool) (observations : list GetResult) :
  (checkDeleteInCluster false targetIsNamespace isPrimary observations = Ok tt <->
   exists o, o ∈ observations
             /\ (o = NotFound
                 \/ (targetIsNamespace = true /\ isPrimary = true
                     /\ exists obj, o = Found obj /\ HasManagedLabel obj = false)))
  /\ (checkDeleteInCluster true targetIsNamespace isPrimary observations = Ok tt <->
      exists pre obj post,
        observations = pre ++ Found obj :: post /\ HasManagedLabel obj = false
        /\ NotFound ∉ pre).
Proof.
  split.
  - unfold checkDeleteInCluster. cbn [negb].
    destruct (poll_without_errors (checkDeleteCondition true targetIsNamespace isPrimary)
                observations) as [Hne Hiff].
    { intros o. apply checkDeleteCondition_deleting. }
    destruct (poll _ observations) eqn:Hp.
    + split; [|done]. intros _. destruct Hiff as [Hiff _].
      destruct (Hiff eq_refl) as (o & Hin & Ho). exists o. split; [done|].
      by apply checkDeleteCondition_deleting.
    + by destruct (Hne err).
    + split; [done|]. intros (o & Hin & Ho). destruct Hiff as [_ Hiff].
      assert (PollInterrupted = PollDone); [|done].
      apply Hiff. exists o. split; [done|]. by apply checkDeleteCondition_deleting.
  - unfold checkDeleteInCluster. cbn [negb].
    induction observations as [|x l IH].
    + simpl. split; [done|]. intros (pre & obj & post & H & _). by destruct pre.
    + simpl. destruct x as [obj| |msg]; simpl.
      * destruct (HasManagedLabel obj) eqn:Hl; simpl.
        -- rewrite IH. split.
           ++ intros (pre & o & post & -> & Ho & Hpre). exists (Found obj :: pre), o, post.
              split_and!; try done. set_solver.
           ++ intros (pre & o & post & H & Ho & Hpre).
              destruct pre as [|y pre]; simplify_eq/=; [congruence|].
              exists pre, o, post. split_and!; try done. set_solver.
        -- split; [|done]. intros _. exists [], obj, l. split_and!; try done. set_solver.
      * split; [done|]. intros (pre & o & post & H & Ho & Hpre).
        destruct pre as [|y pre]; simplify_eq/=. set_solver.
      * rewrite IH. split.
        -- intros (pre & o & post & -> & Ho & Hpre). exists (OtherError msg :: pre), o, post.
           split_and!; try done. set_solver.
        -- intros (pre & o & post & H & Ho & Hpre).
           destruct pre as [|y pre]; simplify_eq/=.
           exists pre, o, post. split_and!; try done. set_solver.
Qed.

(** ** CheckPropagation *)

Lemma waitForResourceDeletion_no_error observations err :
  waitForResourceDeletion observations <> PollError err.
Proof.
  unfold waitForResourceDeletion.
  apply (poll_without_errors (fun o : GetResult * bool =>
                                waitForResourceDeletionCondition o.2 o.1)).
  intros [res removed]. simpl. destruct res; [done| |done]. by destruct removed.
Qed.

Lemma checkHostNamespaceUnlabeled_iff observations :
  checkHostNamespaceUnlabeled observations = Ok tt <->
  exists obj, Found obj ∈ observations /\ HasManagedLabel obj = false.
Proof.
  unfold checkHostNamespaceUnlabeled.
  destruct (poll_without_errors checkHostNamespaceUnlabeledCondition observations)
    as [Hne Hiff].
  { intros o. by destruct o. }
  assert (Hc : forall o, (checkHostNamespaceUnlabeledCondition o).1 = true <->
                         exists obj, o = Found obj /\ HasManagedLabel obj = false).
  { intros o. destruct o as [obj| |msg]; simpl.
    - rewrite negb_true_iff. split.
      + intros H. by exists obj.
      + by intros (obj' & [= <-] & H).
    - split; [done|]. by intros (obj' & ? & _).
    - split; [done|]. by intros (obj' & ? & _). }
  destruct (poll _ observations) eqn:Hp.
  - split; [|done]. intros _. destruct Hiff as [Hiff _].
    destruct (Hiff eq_refl) as (o & Hin & Ho). apply Hc in Ho as (obj & -> & Hl).
    by exists obj.
  - by destruct (Hne err).
  - split; [done|]. intros (obj & Hin & Hl). destruct Hiff as [_ Hiff].
    assert (PollInterrupted = PollDone); [|done].
    apply Hiff. exists (Found obj). split; [done|]. apply Hc. by exists obj.
Qed.

(** X10. The check of CheckPropagation for one cluster. In a cluster that
    is not selected, the wait for the deletion of the target never ends the
    test, whatever the cluster answers and however long: a timeout is let
    pass, and the wait has no other error. For a namespace in the primary
    cluster that is not selected the check succeeds exactly if the
    namespace is seen without the managed label; a namespace that is
    missing is not accepted. *)
Theorem CheckPropagation_never_fails_on_a_deletion
    (targetIsNamespace isPrimary : bool) (waitForResource : PollResult)
    (hostNamespace : list GetResult) (deletion : list (GetResult * bool)) :
  (targetIsNamespace && isPrimary = false ->
   checkCluster false targetIsNamespace isPrimary waitForResource hostNamespace deletion
   = Ok tt)
  /\ (targetIsNamespace && isPrimary = true ->
      (checkCluster false targetIsNamespace isPrimary waitForResource hostNamespace deletion
       = Ok tt
       <-> exists obj, Found obj ∈ hostNamespace /\ HasManagedLabel obj = false)).
Proof.
  unfold checkCluster. split; intros ->.
  - destruct (waitForResourceDeletion deletion) eqn:Hw; try done.
    by apply waitForResourceDeletion_no_error in Hw.
  - apply checkHostNamespaceUnlabeled_iff.
Qed.

Lemma CheckDelete_waits_for_removal_or_unlabeling_witness :
  checkDeleteInCluster true false false
    [OtherError "timeout"; Found (mkTarget "cm" true); Found (mkTarget "cm" false); NotFound]
  = Ok tt.
Proof.
  destruct (CheckDelete_waits_for_removal_or_unlabeling false false
              [OtherError "timeout"; Found (mkTarget "cm" true); Found (mkTarget "cm" false);
               NotFound]) as [_ [_ Hto]].
  apply Hto.
  exists [OtherError "timeout"; Found (mkTarget "cm" true)], (mkTarget "cm" false), [NotFound].
  split; [reflexivity|]. split; [reflexivity|].
  intros H. apply elem_of_cons in H as [H|H]; [discriminate|].
  apply elem_of_cons in H as [H|H]; [discriminate|]. by apply elem_of_nil in H.
Defined.

Lemma CheckPropagation_never_fails_on_a_deletion_witness :
  checkCluster false false true PollDone [] [(Found (mkTarget "cm" true), false)] = Ok tt.
Proof.
  destruct (CheckPropagation_never_fails_on_a_deletion false true PollDone []
              [(Found (mkTarget "cm" true), false)]) as [H _].
  apply H. reflexivity.
Defined.

End CrudChecksProps.

Module FederatedStatusProps.
Import TypeConfig CrudTester CrudChecks CrudChecksProps.

(** ** checkFederatedStatus *)

Lemma conditionTrue_iff conditions :
  conditionTrue conditions = true <->
  exists pre c post,
    conditions = pre ++ c :: post
    /\ condType c = PropagationConditionType /\ condStatus c = ConditionTrue
    /\ Forall (fun x => condType x <> PropagationConditionType) pre.
Proof.
  induction conditions as [|x l IH]; simpl.
  - split; [done|]. intros (pre & c & post & H & _). by destruct pre.
  - destruct (decide (condType x = PropagationConditionType)) as [Ht|Ht].
    + rewrite (bool_decide_eq_true_2 _ Ht). rewrite bool_decide_eq_true. split.
      * intros Hs. exists [], x, l. by split_and!.
      * intros (pre & c & post & H & Hc & Hs & Hpre).
        destruct pre as [|y pre]; simplify_eq/=; try done.
        all: by apply Forall_cons in Hpre as [Hy _].
    + rewrite (bool_decide_eq_false_2 _ Ht). rewrite IH. split.
      * intros (pre & c & post & -> & Hc & Hs & Hpre). exists (x :: pre), c, post.
        split_and!; try done. by constructor.
      * intros (pre & c & post & H & Hc & Hs & Hpre).
        destruct pre as [|y pre]; simplify_eq/=; try done.
        all: apply Forall_cons in Hpre as [_ Hpre]; by exists pre, c, post.
Qed.

Lemma clusterStatusOK_iff name clusters :
  clusterStatusOK name clusters = true <->
  exists cluster, cluster ∈ clusters /\ clusterName cluster = name
                  /\ clusterStatus cluster = ClusterPropagationOK.
Proof.
  induction clusters as [|x l IH]; simpl.
  - split; [done|]. intros (c & Hin & _). by apply elem_of_nil in Hin.
  - destruct (String.eqb_spec (clusterName x) name) as [Hn|Hn];
      destruct (decide (clusterStatus x = ClusterPropagationOK)) as [Hs|Hs];
      rewrite ?(bool_decide_eq_true_2 _ Hs), ?(bool_decide_eq_false_2 _ Hs); simpl.
    + split; [|done]. intros _. exists x. split; [by left|done].
    + rewrite IH. split.
      * intros (c & Hin & Hc). exists c. split; [by right|done].
      * intros (c & Hin & Hc1 & Hc2). apply elem_of_cons in Hin as [->|Hin]; [done|].
        by exists c.
    + rewrite IH. split.
      * intros (c & Hin & Hc). exists c. split; [by right|done].
      * intros (c & Hin & Hc1 & Hc2). apply elem_of_cons in Hin as [->|Hin]; [done|].
        by exists c.
    + rewrite IH. split.
      * intros (c & Hin & Hc). exists c. split; [by right|done].
      * intros (c & Hin & Hc1 & Hc2). apply elem_of_cons in Hin as [->|Hin]; [done|].
        by exists c.
Qed.

Lemma clusterRemoved_iff name clusters :
  clusterRemoved name clusters = true <->
  forall cluster, cluster ∈ clusters -> clusterName cluster = name ->
                  clusterStatus cluster = WaitingForRemoval.
Proof.
  induction clusters as [|x l IH]; simpl.
  - split; [|done]. intros _ c Hin. by apply elem_of_nil in Hin.
  - destruct (String.eqb_spec (clusterName x) name) as [Hn|Hn];
      destruct (decide (clusterStatus x = WaitingForRemoval)) as [Hs|Hs];
      rewrite ?(bool_decide_eq_true_2 _ Hs), ?(bool_decide_eq_false_2 _ Hs); simpl.
    + rewrite IH. split.
      * intros H c Hin Hc. apply elem_of_cons in Hin as [->|Hin]; [done|]. by apply H.
      * intros H c Hin Hc. apply H; [by right|done].
    + split; [done|]. intros H. exfalso. apply Hs. apply H; [by left|done].
    + rewrite IH. split.
      * intros H c Hin Hc. apply elem_of_cons in Hin as [->|Hin]; [done|]. by apply H.
      * intros H c Hin Hc. apply H; [by right|done].
    + rewrite IH. split.
      * intros H c Hin Hc. apply elem_of_cons in Hin as [->|Hin]; [done|]. by apply H.
      * intros H c Hin Hc. apply H; [by right|done].
Qed.

(** X11. checkFederatedStatus reports success exactly if the resource was
    retrieved with a status whose observedGeneration is the generation of
    the federated object, whose first condition of type Propagation has
    status True (later conditions of that type are not looked at) and whose
    cluster list, when the target is expected in the cluster, has an entry
    for the cluster with status OK, and, when it is not expected, has no
    entry for the cluster other than with status WaitingForRemoval. *)
Theorem checkFederatedStatus_accepts_exactly
    (federatedKind : string) (qualifiedName : QualifiedName) (generation : Z)
    (retrieved : option (option GenericFederatedStatus) * option string)
    (name : string) (objExpected : bool) :
  checkFederatedStatus federatedKind qualifiedName generation retrieved name objExpected
  = (true, None)
  <->
  exists fedStatus,
    retrieved = (Some (Some fedStatus), None)
    /\ ObservedGeneration fedStatus = generation
    /\ (exists pre c post,
          Conditions fedStatus = pre ++ c :: post
          /\ condType c = PropagationConditionType /\ condStatus c = ConditionTrue
          /\ Forall (fun x => condType x <> PropagationConditionType) pre)
    /\ (if objExpected
        then exists cluster, cluster ∈ Clusters fedStatus /\ clusterName cluster = name
                             /\ clusterStatus cluster = ClusterPropagationOK
        else forall cluster, cluster ∈ Clusters fedStatus -> clusterName cluster = name ->
                             clusterStatus cluster = WaitingForRemoval).
Proof.
  unfold checkFederatedStatus.
  destruct retrieved as [[[fs|]|] [e|]];
    try (split; [done|]; intros (fs' & H & _); congruence).
  split.
  - intros H. exists fs.
    destruct (Z.eqb_spec (ObservedGeneration fs) generation) as [Hg|Hg]; cbn [negb] in H;
      [|done].
    destruct (conditionTrue (Conditions fs)) eqn:Hc; cbn [negb] in H; [|done].
    split; [done|]. split; [done|]. split; [by apply conditionTrue_iff|].
    destruct objExpected.
    + destruct (clusterStatusOK name (Clusters fs)) eqn:Hk; cbn [negb] in H; [|done].
      by apply clusterStatusOK_iff.
    + destruct (clusterRemoved name (Clusters fs)) eqn:Hk; cbn [negb] in H; [|done].
      by apply clusterRemoved_iff.
  - intros (fs' & [= <-] & Hg & Hc & Hk). apply conditionTrue_iff in Hc.
    rewrite Hg, Z.eqb_refl, Hc. cbn [negb].
    destruct objExpected.
    + apply clusterStatusOK_iff in Hk. by rewrite Hk.
    + apply clusterRemoved_iff in Hk. by rewrite Hk.
Qed.

Lemma checkFederatedStatus_accepts_exactly_witness :
  checkFederatedStatus "FederatedConfigMap" (mkQN "ns1" "cm") 2
    (Some (Some (mkFedStatus 2
                   [mkCondition (OtherConditionType "Ready") ConditionFalse;
                    mkCondition PropagationConditionType ConditionTrue]
                   [mkClusterStatus "c1" ClusterPropagationOK;
                    mkClusterStatus "c2" WaitingForRemoval])), None)
    "c2" false
  = (true, None).
Proof.
  apply checkFederatedStatus_accepts_exactly. eexists. split; [reflexivity|].
  split; [reflexivity|]. split.
  - exists [mkCondition (OtherConditionType "Ready") ConditionFalse],
      (mkCondition PropagationConditionType ConditionTrue), [].
    split; [reflexivity|]. split; [reflexivity|]. split; [reflexivity|].
    constructor; [discriminate|constructor].
  - intros cluster Hin Hn.
    apply elem_of_cons in Hin as [->|Hin]; [discriminate|].
    apply elem_of_cons in Hin as [->|Hin]; [reflexivity|]. by apply elem_of_nil in Hin.
Defined.

(** ** The status poll of CheckPropagation *)

Lemma statusPollCondition_retrieved kind qn generation name objExpected resource :
  (statusPollCondition kind qn generation name objExpected (Some resource, None)).2 = None.
Proof.
  unfold statusPollCondition, checkFederatedStatus.
  destruct resource as [fs|]; [|done].
  destruct (negb (ObservedGeneration fs =? generation)%Z); [done|].
  destruct (negb (conditionTrue (Conditions fs))); [done|].
  destruct objExpected.
  - destruct (negb (clusterStatusOK name (Clusters fs))); done.
  - destruct (negb (clusterRemoved name (Clusters fs))); done.
Qed.

(** X12. The status poll of CheckPropagation and the errors of
    checkFederatedStatus. Every error checkFederatedStatus makes itself
    starts with "Waiting", so that while the resource can be retrieved the
    poll reports no error and only goes on or ends with success; an error
    of the retrieval is wrapped in a message that starts with "Failed" and
    ends the poll at once. *)
Theorem status_poll_waits_unless_retrieval_fails
    (federatedKind : string) (qualifiedName : QualifiedName) (generation : Z)
    (name : string) (objExpected : bool) :
  (forall observations,
     Forall (fun retrieved => exists resource, retrieved = (Some resource, None))
            observations ->
     forall err,
       poll (statusPollCondition federatedKind qualifiedName generation name objExpected)
            observations <> PollError err)
  /\ (forall got converted resource err,
        (got = Some err \/ (got = None /\ converted = Some err)) ->
        exists msg,
          statusPollCondition federatedKind qualifiedName generation name objExpected
                              (GetGenericResource got converted resource)
          = (false, Some msg)
          /\ HasPrefix msg "Failed" = true).
Proof.
  split.
  - intros observations Hall err Hp.
    apply poll_error_iff in Hp as (pre & o & post & b & -> & Ho & _).
    apply Forall_app in Hall as [_ Hall]. apply Forall_cons in Hall as [[resource ->] _].
    pose proof (statusPollCondition_retrieved federatedKind qualifiedName generation name
                  objExpected resource) as Hnone.
    by rewrite Ho in Hnone.
  - intros got converted resource err [->|[-> ->]]; eexists; (split; [reflexivity|done]).
Qed.

Lemma status_poll_waits_unless_retrieval_fails_witness :
  poll (statusPollCondition "FederatedConfigMap" (mkQN "ns1" "cm") 2 "c1" true)
       [(Some None, None); (Some (Some (mkFedStatus 1 [] [])), None)]
  = PollInterrupted.
Proof.
  destruct (status_poll_waits_unless_retrieval_fails "FederatedConfigMap" (mkQN "ns1" "cm")
              2 "c1" true) as [Hno _].
  specialize (Hno [(Some None, None); (Some (Some (mkFedStatus 1 [] [])), None)]).
  destruct (poll _ _) eqn:Hp.
  - vm_compute in Hp. discriminate Hp.
  - exfalso. apply (Hno ltac:(repeat constructor; eexists; reflexivity) err). reflexivity.
  - reflexivity.
Defined.

End FederatedStatusProps.

Module CrudMutationProps.
Import TypeConfig CrudTester CrudChecks.

(** ** CheckPlacementChange *)

Lemma filter_out_length name (l : list string) :
  (length (List.filter (fun n => negb (String.eqb n name)) l) + occurrences name l
   = length l)%nat.
Proof.
  unfold occurrences. induction l as [|x l IH]; simpl; [done|].
  destruct (String.eqb x name); simpl; lia.
Qed.

Lemma removelast_length' (l : list string) :
  l <> [] -> S (length (removelast l)) = length l.
Proof.
  induction l as [|x [|y l] IH]; [done|done|]. intros _.
  change (removelast (x :: y :: l)) with (x :: removelast (y :: l)).
  simpl length. f_equal. exact (IH ltac:(done)).
Qed.

Lemma filter_out_absent name (l : list string) :
  occurrences name (List.filter (fun n => negb (String.eqb n name)) l) = 0%nat.
Proof.
  unfold occurrences. induction l as [|x l IH]; simpl; [done|].
  destruct (String.eqb x name) eqn:Hx; simpl; [done|]. by rewrite Hx.
Qed.

Lemma empty_name name : (String.length name =? 0)%nat = true <-> name = "".
Proof. destruct name; simpl; split; done. Qed.

Lemma placementMutation_cases (got : list string + string) (name : string)
    (setErr : option string) :
  placementMutation got name setErr
  = match got with
    | inr _ => Fatalf "Error retrieving cluster names: %v"
    | inl clusterNames =>
        if decide (name = "") then
          if decide (clusterNames = []) then GoPanic
          else match setErr with
               | Some _ => Fatalf "Error setting cluster names for %s %q: %v"
               | None => Ok (removelast clusterNames)
               end
        else if decide (occurrences name clusterNames = 1%nat) then
          match setErr with
          | Some _ => Fatalf "Error setting cluster names for %s %q: %v"
          | None => Ok (List.filter (fun n => negb (String.eqb n name)) clusterNames)
          end
        else Fatalf "Expected %d cluster names, got %d"
    end.
Proof.
  unfold placementMutation, removeOneClusterName. destruct got as [l|e]; [|done].
  destruct (String.length name =? 0)%nat eqn:Hn.
  - apply empty_name in Hn as ->. rewrite decide_True by done.
    destruct l as [|x l]; [done|]. rewrite decide_False by done.
    pose proof (removelast_length' (x :: l) ltac:(done)) as Hlen.
    destruct (Z.eqb_spec (Z.of_nat (length (removelast (x :: l))))
                (Z.of_nat (length (x :: l)) - 1)) as [_|Hne]; [done|lia].
  - assert (Hne : name <> "") by (intros ->; done).
    rewrite decide_False by done.
    pose proof (filter_out_length name l) as Hlen.
    destruct (Z.eqb_spec
                (Z.of_nat (length (List.filter (fun n => negb (String.eqb n name)) l)))
                (Z.of_nat (length l) - 1)) as [Heq|Hneq]; cbn [negb].
    + rewrite decide_True by lia. done.
    + rewrite decide_False by lia. done.
Qed.

(** X13. The mutation of CheckPlacementChange goes through exactly in two
    cases: no name to remove was given and the placement names at least
    one cluster, and then the last name is dropped; or the name to remove
    occurs exactly once among the cluster names, and then that occurrence is
    dropped and the other names stay in their order. In every other case
    the test ends, and how is settled by the input: it panics on a slice
    out of range exactly for an empty list with no name to remove; it
    calls Fatalf for the number of names exactly if a name is given that
    is absent or occurs more than once; it calls Fatalf for the retrieval
    exactly if GetClusterNames fails, and for the update exactly if
    a name would have been removed and SetClusterNames fails. The mutation
    cannot be repeated for a name: applied to its own result it calls
    Fatalf. *)
Theorem placement_mutation_removes_exactly_one_name
    (got : list string + string) (name : string) (setErr : option string)
    (updated : list string) :
  (placementMutation got name setErr = Ok updated <->
   exists clusterNames,
     got = inl clusterNames /\ setErr = None
     /\ ((name = "" /\ clusterNames <> [] /\ updated = removelast clusterNames)
         \/ (name <> "" /\ occurrences name clusterNames = 1%nat
             /\ updated = List.filter (fun n => negb (String.eqb n name)) clusterNames)))
  /\ (placementMutation got name setErr = Ok updated -> name <> "" ->
      forall setErr', exists msg, placementMutation (inl updated) name setErr' = Fatalf msg)
  /\ (placementMutation got name setErr = GoPanic <-> got = inl [] /\ name = "")
  /\ (placementMutation got name setErr = Fatalf "Expected %d cluster names, got %d" <->
      exists clusterNames,
        got = inl clusterNames /\ name <> "" /\ occurrences name clusterNames <> 1%nat)
  /\ (placementMutation got name setErr = Fatalf "Error retrieving cluster names: %v" <->
      exists err, got = inr err)
  /\ (placementMutation got name setErr
      = Fatalf "Error setting cluster names for %s %q: %v" <->
      exists clusterNames err,
        got = inl clusterNames /\ setErr = Some err
        /\ ((name = "" /\ clusterNames <> [])
            \/ (name <> "" /\ occurrences name clusterNames = 1%nat)))
  /\ (forall msg,
        placementMutation got name setErr = Fatalf msg ->
        msg = "Expected %d cluster names, got %d"
        \/ msg = "Error retrieving cluster names: %v"
        \/ msg = "Error setting cluster names for %s %q: %v").
Proof.
  assert (Hiff : placementMutation got name setErr = Ok updated <->
   exists clusterNames,
     got = inl clusterNames /\ setErr = None
     /\ ((name = "" /\ clusterNames <> [] /\ updated = removelast clusterNames)
         \/ (name <> "" /\ occurrences name clusterNames = 1%nat
             /\ updated = List.filter (fun n => negb (String.eqb n name)) clusterNames))).
  { rewrite placementMutation_cases.
    destruct got as [l|e]; [|split; [done|]; by intros (l & ? & _)].
    destruct (decide (name = "")) as [->|Hne].
    - destruct (decide (l = [])) as [->|Hl].
      + split; [done|]. intros (l' & [= <-] & _ & [(_ & ? & _)|(? & _)]); done.
      + destruct setErr as [e|].
        * split; [done|]. by intros (l' & _ & ? & _).
        * split.
          -- intros [= <-]. exists l. split_and!; try done. by left.
          -- intros (l' & [= <-] & _ & [(_ & _ & ->)|(? & _)]); done.
    - destruct (decide (occurrences name l = 1%nat)) as [Hocc|Hocc].
      + destruct setErr as [e|].
        * split; [done|]. by intros (l' & _ & ? & _).
        * split.
          -- intros [= <-]. exists l. split_and!; try done. by right.
          -- intros (l' & [= <-] & _ & [(? & _)|(_ & _ & ->)]); done.
      + split; [done|]. intros (l' & [= <-] & _ & [(? & _)|(_ & ? & _)]); done. }
  split; [exact Hiff|]. split.
  { intros Hok Hne setErr'.
    apply Hiff in Hok as (l & -> & -> & [(? & _)|(_ & Hocc & ->)]); [done|].
    rewrite placementMutation_cases. rewrite decide_False by done.
    rewrite decide_False; [by eexists|]. by rewrite filter_out_absent. }
  rewrite placementMutation_cases. clear Hiff.
  destruct got as [l|e].
  2:{ split_and!.
      - split; [done|]. by intros [? _].
      - split; [done|]. by intros (l & ? & _).
      - split; [by eexists|done].
      - split; [done|]. by intros (l & err & ? & _).
      - intros msg [= <-]. right. by left. }
  destruct (decide (name = "")) as [->|Hne].
  - destruct (decide (l = [])) as [->|Hl].
    + split_and!.
      * done.
      * split; [done|]. by intros (l & _ & ? & _).
      * split; [done|]. by intros (err & ?).
      * split; [done|]. intros (l & err & [= <-] & _ & [(_ & ?)|(? & _)]); done.
      * done.
    + destruct setErr as [e|]; split_and!.
      all: try (split; [done|]).
      all: try (by intros [[= ->] _]).
      all: try (by intros (l' & _ & ? & _)).
      all: try (by intros (err & ?)).
      all: try (by intros (l' & err & _ & ? & _)).
      * split; [|done]. intros _. exists l, e. split_and!; try done. by left.
      * intros msg [= <-]. right. by right.
      * done.
  - destruct (decide (occurrences name l = 1%nat)) as [Hocc|Hocc].
    + destruct setErr as [e|]; split_and!.
      all: try (split; [done|]).
      all: try (by intros [_ ?]).
      all: try (by intros (l' & [= <-] & _ & ?)).
      all: try (by intros (err & ?)).
      all: try (by intros (l' & err & _ & ? & _)).
      * split; [|done]. intros _. exists l, e. split_and!; try done. by right.
      * intros msg [= <-]. right. by right.
      * done.
    + split_and!.
      * split; [done|]. by intros [_ ?].
      * split; [|done]. intros _. by exists l.
      * split; [done|]. by intros (err & ?).
      * split; [done|]. intros (l' & err & [= <-] & _ & [(? & _)|(_ & ?)]); done.
      * intros msg [= <-]. by left.
Qed.

Lemma placement_mutation_removes_exactly_one_name_witness :
  placementMutation (inl ["c1"; "primary"; "c2"]) "primary" None = Ok ["c1"; "c2"]
  /\ placementMutation (inl []) "" None = @GoPanic (list string)
  /\ placementMutation (inl ["c1"; "c2"]) "primary" None
     = Fatalf "Expected %d cluster names, got %d".
Proof.
  split_and!.
  - apply placement_mutation_removes_exactly_one_name. exists ["c1"; "primary"; "c2"].
    split; [reflexivity|]. split; [reflexivity|]. right.
    split; [discriminate|]. split; reflexivity.
  - apply (placement_mutation_removes_exactly_one_name (inl []) "" None []). by split.
  - apply (placement_mutation_removes_exactly_one_name (inl ["c1"; "c2"]) "primary" None []).
    exists ["c1"; "c2"]. split; [reflexivity|]. split; discriminate.
Defined.

(** ** getPrimaryClusterName *)

Lemma getPrimaryClusterName_found testClusters name :
  (name, true) ∈ testClusters ->
  (getPrimaryClusterName testClusters, true) ∈ testClusters.
Proof.
  induction testClusters as [|[n p] l IH]; intros Hin; [by apply elem_of_nil in Hin|].
  simpl. destruct p.
  - by left.
  - right. apply IH. apply elem_of_cons in Hin as [[=]|Hin]. done.
Qed.

Lemma getPrimaryClusterName_none testClusters :
  (forall name, (name, true) ∉ testClusters) -> getPrimaryClusterName testClusters = "".
Proof.
  induction testClusters as [|[n p] l IH]; intros Hno; [done|]. simpl. destruct p.
  - exfalso. apply (Hno n). by left.
  - apply IH. intros name Hin. apply (Hno name). by right.
Qed.

(** X14. getPrimaryClusterName ranges over a map, whose order is not
    fixed. If exactly one test cluster is primary, the result is that
    cluster's name in whatever order the clusters are visited; if none is,
    the result is the empty name. *)
Theorem getPrimaryClusterName_does_not_depend_on_the_order
    (testClusters order : list (string * bool)) :
  order ≡ₚ testClusters ->
  (forall primary,
     (primary, true) ∈ testClusters ->
     (forall other, (other, true) ∈ testClusters -> other = primary) ->
     getPrimaryClusterName order = primary)
  /\ ((forall name, (name, true) ∉ testClusters) -> getPrimaryClusterName order = "").
Proof.
  intros Hperm. split.
  - intros primary Hin Huniq. apply Huniq. rewrite <- Hperm.
    apply (getPrimaryClusterName_found order primary). by rewrite Hperm.
  - intros Hno. apply getPrimaryClusterName_none. intros name Hin. apply (Hno name).
    by rewrite <- Hperm.
Qed.

Lemma getPrimaryClusterName_does_not_depend_on_the_order_witness :
  getPrimaryClusterName [("c2", false); ("c1", true); ("c3", false)] = "c1".
Proof.
  destruct (getPrimaryClusterName_does_not_depend_on_the_order
              [("c1", true); ("c2", false); ("c3", false)]
              [("c2", false); ("c1", true); ("c3", false)]
              ltac:(apply perm_swap)) as [H _].
  apply H.
  - by left.
  - intros other Hin.
    apply elem_of_cons in Hin as [[= ->]|Hin]; [reflexivity|].
    apply elem_of_cons in Hin as [[=]|Hin].
    apply elem_of_cons in Hin as [[=]|Hin]. by apply elem_of_nil in Hin.
Defined.

(** ** updateObject *)

(** X15. updateObject mutates the object at every attempt. After a server
    timeout the next attempt mutates the object the attempt before has
    mutated already: after n timeouts the attempt that follows sends the
    mutation applied n+1 times, and the test ends in the Fatalf of the
    mutation if one of these applications fails. After a conflict the next
    attempt starts from the object read back from the server. *)
Theorem updateObject_mutates_again_after_a_server_timeout {Obj : Type}
    (mutateResourceFunc : Obj -> option Obj) (timeouts : nat)
    (rest : list (Obj -> UpdateReply Obj)) (obj : Obj) :
  updateObject mutateResourceFunc (replicate timeouts (fun _ => ServerTimeout) ++ rest) obj
  = match mutateTimes mutateResourceFunc timeouts obj with
    | None => UpdateFatal
    | Some mutated => updateObject mutateResourceFunc rest mutated
    end
  /\ updateObject mutateResourceFunc
       (replicate timeouts (fun _ => ServerTimeout) ++ [fun sent => Updated sent]) obj
     = match mutateTimes mutateResourceFunc (S timeouts) obj with
       | None => UpdateFatal
       | Some mutated => UpdateDone mutated
       end
  /\ (forall latest,
        updateObject mutateResourceFunc ((fun _ => Conflict (inl latest)) :: rest) obj
        = match mutateResourceFunc obj with
          | None => UpdateFatal
          | Some _ => updateObject mutateResourceFunc rest latest
          end).
Proof.
  assert (Hgen : forall rest obj,
    updateObject mutateResourceFunc (replicate timeouts (fun _ => ServerTimeout) ++ rest) obj
    = match mutateTimes mutateResourceFunc timeouts obj with
      | None => UpdateFatal
      | Some mutated => updateObject mutateResourceFunc rest mutated
      end).
  { clear. induction timeouts as [|n IH]; intros rest obj; [done|].
    simpl. destruct (mutateResourceFunc obj) as [o|]; [|done]. apply IH. }
  split; [apply Hgen|]. split.
  - rewrite Hgen. clear. revert obj. induction timeouts as [|n IH]; intros obj.
    + simpl. by destruct (mutateResourceFunc obj).
    + change (mutateTimes mutateResourceFunc (S (S n)) obj)
        with (match mutateResourceFunc obj with
              | None => None
              | Some o => mutateTimes mutateResourceFunc (S n) o
              end).
      cbn [mutateTimes]. destruct (mutateResourceFunc obj) as [o|]; [|done]. apply IH.
  - intros latest. simpl. by destruct (mutateResourceFunc obj).
Qed.

(** ** CheckUpdate *)

Lemma hasUpdateOverride_iff items :
  hasUpdateOverride items = true <-> exists item, item ∈ items /\ Path item = updateKey.
Proof.
  unfold hasUpdateOverride. rewrite existsb_exists. split.
  - intros (item & Hin & Hp). exists item. split; [by apply list_elem_of_In|].
    by apply String.eqb_eq.
  - intros (item & Hin & Hp). exists item. split; [by apply list_elem_of_In|].
    by apply String.eqb_eq.
Qed.

Lemma hasUpdateOverride_added items value :
  hasUpdateOverride (items ++ [mkOverride updateKey value]) = true.
Proof. unfold hasUpdateOverride. rewrite existsb_app. simpl. by rewrite orb_true_r. Qed.

Lemma addOverrides_some value testClusters overrides updated :
  NoDup testClusters ->
  addOverrides value testClusters overrides = Some updated ->
  (forall name, name ∈ testClusters ->
     hasUpdateOverride (default [] (overrides !! name)) = false
     /\ updated !! name
        = Some (default [] (overrides !! name) ++ [mkOverride updateKey value]))
  /\ (forall name, name ∉ testClusters -> updated !! name = overrides !! name).
Proof.
  revert overrides. induction testClusters as [|x l IH]; intros overrides Hnd Hrun.
  - simpl in Hrun. injection Hrun as <-. split; [|done].
    intros name Hin. by apply elem_of_nil in Hin.
  - simpl in Hrun. unfold addOverride in Hrun.
    destruct (hasUpdateOverride (default [] (overrides !! x))) eqn:Hx; [done|].
    apply NoDup_cons in Hnd as [Hnotin Hnd].
    destruct (IH _ Hnd Hrun) as [Hin Hout]. split.
    + intros name Hname. apply elem_of_cons in Hname as [->|Hname].
      * split; [done|]. rewrite Hout by done. apply lookup_insert_eq.
      * assert (name <> x) by (intros ->; done).
        destruct (Hin name Hname) as [H1 H2].
        rewrite lookup_insert_ne in H1, H2 by done. done.
    + intros name Hname. rewrite Hout by set_solver.
      apply lookup_insert_ne. set_solver.
Qed.

Lemma addOverrides_none value testClusters overrides :
  NoDup testClusters ->
  addOverrides value testClusters overrides = None <->
  exists name, name ∈ testClusters
               /\ hasUpdateOverride (default [] (overrides !! name)) = true.
Proof.
  revert overrides. induction testClusters as [|x l IH]; intros overrides Hnd.
  - simpl. split; [done|]. intros (name & Hin & _). by apply elem_of_nil in Hin.
  - simpl. unfold addOverride.
    apply NoDup_cons in Hnd as [Hnotin Hnd].
    destruct (hasUpdateOverride (default [] (overrides !! x))) eqn:Hx.
    + split; [|done]. intros _. exists x. split; [by left|done].
    + rewrite (IH _ Hnd). split.
      * intros (name & Hin & Hh). exists name. split; [by right|].
        rewrite lookup_insert_ne in Hh; [done|]. by intros ->.
      * intros (name & Hin & Hh). apply elem_of_cons in Hin as [->|Hin]; [congruence|].
        exists name. split; [done|]. rewrite lookup_insert_ne; [done|]. by intros ->.
Qed.

(** X16. The mutation of CheckUpdate, the object being taken as the
    overrides it carries and the test clusters having distinct names. It
    calls Fatalf exactly if some test cluster already has an override for
    "/metadata/labels"; otherwise every test cluster has its overrides
    followed by one new override for that path, and the overrides of other
    clusters are untouched. The mutation cannot be repeated, and as
    updateObject repeats it after a server timeout, CheckUpdate ends in
    Fatalf whenever the first Update times out and another attempt
    follows. *)
Theorem CheckUpdate_adds_one_override_per_cluster
    (value : list (string * string)) (testClusters : list string)
    (overrides : gmap string (list ClusterOverride)) :
  NoDup testClusters ->
  (addOverrides value testClusters overrides = None <->
   exists name item, name ∈ testClusters /\ item ∈ default [] (overrides !! name)
                     /\ Path item = updateKey)
  /\ (forall updated,
        addOverrides value testClusters overrides = Some updated ->
        (forall name, name ∈ testClusters ->
           updated !! name
           = Some (default [] (overrides !! name) ++ [mkOverride updateKey value]))
        /\ (forall name, name ∉ testClusters -> updated !! name = overrides !! name)
        /\ (testClusters <> [] -> addOverrides value testClusters updated = None))
  /\ (testClusters <> [] ->
      forall getErr setErr reply rest,
        updateObject (overridesMutation value testClusters getErr setErr)
                     ((fun _ => ServerTimeout) :: reply :: rest) overrides
        = UpdateFatal).
Proof.
  intros Hnd.
  assert (Hagain : forall updated,
            addOverrides value testClusters overrides = Some updated ->
            testClusters <> [] -> addOverrides value testClusters updated = None).
  { intros updated Hrun Hne. apply addOverrides_none; [done|].
    destruct testClusters as [|x l]; [done|]. exists x. split; [by left|].
    destruct (addOverrides_some _ _ _ _ Hnd Hrun) as [Hin _].
    destruct (Hin x ltac:(by left)) as [_ ->]. apply hasUpdateOverride_added. }
  split_and!.
  - rewrite addOverrides_none by done. split.
    + intros (name & Hin & Hh). apply hasUpdateOverride_iff in Hh as (item & Hi & Hp).
      by exists name, item.
    + intros (name & item & Hin & Hi & Hp). exists name. split; [done|].
      apply hasUpdateOverride_iff. by exists item.
  - intros updated Hrun. destruct (addOverrides_some _ _ _ _ Hnd Hrun) as [Hin Hout].
    split_and!; try done.
    + intros name Hname. by destruct (Hin name Hname).
    + by apply Hagain.
  - intros Hne getErr setErr reply rest. simpl. unfold overridesMutation.
    destruct getErr as [e|]; [done|].
    destruct (addOverrides value testClusters overrides) as [updated|] eqn:Hrun; [|done].
    destruct setErr as [e|]; [done|].
    by rewrite (Hagain updated eq_refl Hne).
Qed.

Lemma CheckUpdate_adds_one_override_per_cluster_witness :
  updateObject (overridesMutation (updateValue "kubefed.io/managed" "true") ["c1"; "c2"]
                                  None None)
               [fun _ => ServerTimeout; fun sent => Updated sent] ∅
  = UpdateFatal.
Proof.
  destruct (CheckUpdate_adds_one_override_per_cluster
              (updateValue "kubefed.io/managed" "true") ["c1"; "c2"] ∅) as (_ & _ & H).
  - apply NoDup_cons. split.
    + intros Hin. apply elem_of_cons in Hin as [Hin|Hin]; [discriminate|].
      by apply elem_of_nil in Hin.
    + apply NoDup_cons. split; [apply not_elem_of_nil|apply NoDup_nil_2].
  - apply H. discriminate.
Defined.

End CrudMutationProps.

(** * Properties of the waits for deletion and of the test helpers *)

Module FederateTestProps.
Import CrudTester CrudChecks FederateTest CrudChecksProps.

(** ** Waiting for a resource to be gone *)

Lemma gone_iff observations :
  poll goneCondition observations = PollDone <->
  exists pre post,
    observations = pre ++ NotFound :: post
    /\ Forall (fun o => exists obj, o = Found obj) pre.
Proof.
  rewrite poll_done_iff. split.
  - intros (pre & o & post & -> & Ho & Hpre). destruct o; try done.
    exists pre, post. split; [done|]. eapply Forall_impl; [exact Hpre|].
    intros x Hx. destruct x; try done. by eexists.
  - intros (pre & post & -> & Hpre). exists pre, NotFound, post. split_and!; try done.
    eapply Forall_impl; [exact Hpre|]. by intros x [obj ->].
Qed.

(** X17. Waiting for a resource to be gone. deleteResource of the federate
    test returns exactly if the Delete succeeded or found nothing to
    delete, and a Get then reports the resource missing before any Get
    fails otherwise and before the time is up. CheckDelete awaits the
    federated resource in the same way, but a Delete that finds nothing
    ends the test. *)
Theorem deleteResource_waits_until_the_resource_is_gone
    (reply : DeleteReply) (observations : list GetResult) :
  (deleteResource reply observations = Ok tt <->
   (reply = Deleted \/ reply = DeleteNotFound)
   /\ exists pre post,
        observations = pre ++ NotFound :: post
        /\ Forall (fun o => exists obj, o = Found obj) pre)
  /\ (deleteFederated reply observations = Ok tt <->
      reply = Deleted
      /\ exists pre post,
           observations = pre ++ NotFound :: post
           /\ Forall (fun o => exists obj, o = Found obj) pre).
Proof.
  rewrite <- gone_iff. unfold deleteResource, deleteFederated.
  destruct reply; destruct (poll goneCondition observations); split; split;
    try done; try (intros [[|] ?]; done); try (intros [? ?]; done);
    intros _; split; try done; by (left + right).
Qed.

Lemma deleteResource_waits_until_the_resource_is_gone_witness :
  deleteResource DeleteNotFound [Found (mkTarget "cm" true); NotFound] = Ok tt.
Proof.
  apply deleteResource_waits_until_the_resource_is_gone. split; [by right|].
  exists [Found (mkTarget "cm" true)], []. split; [reflexivity|].
  constructor; [by eexists|constructor].
Defined.

(** ** createTargetResources and getTargetTestResources *)

Section Resources.

Variables Obj TC Fixture : Type.

Variable CreateResource : TC -> Obj -> Obj + string.

Variable getTypeConfig : string -> TC + string.

Variable NewTestTargetObject : TC -> option Fixture -> Obj + string.

Variable fixtures : gmap string Fixture.

Lemma createLoop_all resources rest acc created :
  Forall2 (createdFrom CreateResource) rest created ->
  createLoop CreateResource resources rest acc = (acc ++ created, None).
Proof.
  intros H. revert acc. induction H as [|r c rest created [Hc Ht] _ IH]; intros acc.
  - simpl. by rewrite app_nil_r.
  - simpl. rewrite Hc, IH. rewrite <- Ht. destruct c. simpl. by rewrite <- app_assoc.
Qed.

Lemma createLoop_fails resources pre bad post acc created err :
  Forall2 (createdFrom CreateResource) pre created ->
  CreateResource (typeConfig bad) (targetResource bad) = inr err ->
  createLoop CreateResource resources (pre ++ bad :: post) acc
  = (resources, Some (FTCController.Wrapf err "Error creating target resource %q")).
Proof.
  intros H Hbad. revert acc. induction H as [|r c pre created [Hc Ht] _ IH]; intros acc.
  - simpl. by rewrite Hbad.
  - simpl. rewrite Hc. apply IH.
Qed.

Lemma targetTestLoop_all names acc built :
  Forall2 (builtFrom getTypeConfig NewTestTargetObject fixtures) names built ->
  targetTestLoop getTypeConfig NewTestTargetObject fixtures names acc = (acc ++ built, None).
Proof.
  intros H. revert acc. induction H as [|n b names built [Hc Ht] _ IH]; intros acc.
  - simpl. by rewrite app_nil_r.
  - simpl. rewrite Hc, Ht, IH. destruct b. simpl. by rewrite <- app_assoc.
Qed.

Lemma targetTestLoop_fails pre bad post acc built :
  Forall2 (builtFrom getTypeConfig NewTestTargetObject fixtures) pre built ->
  (exists err, getTypeConfig bad = inr err)
  \/ (exists tc err, getTypeConfig bad = inl tc
                     /\ NewTestTargetObject tc (fixtures !! bad) = inr err) ->
  exists msg,
    targetTestLoop getTypeConfig NewTestTargetObject fixtures (pre ++ bad :: post) acc
    = (acc ++ built, Some msg).
Proof.
  intros H Hbad. revert acc. induction H as [|n b pre built [Hc Ht] _ IH]; intros acc.
  - simpl. rewrite app_nil_r.
    destruct Hbad as [[err ->]|(tc & err & -> & ->)]; by eexists.
  - simpl. rewrite Hc, Ht. destruct (IH (acc ++ [mkTestResources (targetResource b) (typeConfig b)]))
      as [msg Hmsg].
    exists msg. rewrite Hmsg. destruct b. simpl. by rewrite <- app_assoc.
Qed.

(** X18. The two loops of the federate test stop at the first error.
    createTargetResources returns, when every creation succeeds, one
    created resource per input, in order and with the input's descriptor;
    when a creation fails it returns its own argument, not the resources
    created so far, with the wrapped error, whatever follows the failing
    input. getTargetTestResources returns, when it fails for a name, the
    resources built for the names before it, whatever names follow. *)
Theorem test_resource_loops_stop_at_the_first_error :
  (forall resources created,
     Forall2 (createdFrom CreateResource) resources created ->
     createTargetResources CreateResource resources = (created, None))
  /\ (forall pre bad post created err,
        Forall2 (createdFrom CreateResource) pre created ->
        CreateResource (typeConfig bad) (targetResource bad) = inr err ->
        createTargetResources CreateResource (pre ++ bad :: post)
        = (pre ++ bad :: post,
           Some (FTCController.Wrapf err "Error creating target resource %q")))
  /\ (forall names built,
        Forall2 (builtFrom getTypeConfig NewTestTargetObject fixtures) names built ->
        getTargetTestResources getTypeConfig NewTestTargetObject fixtures names
        = (built, None))
  /\ (forall pre bad post built,
        Forall2 (builtFrom getTypeConfig NewTestTargetObject fixtures) pre built ->
        (exists err, getTypeConfig bad = inr err)
        \/ (exists tc err, getTypeConfig bad = inl tc
                           /\ NewTestTargetObject tc (fixtures !! bad) = inr err) ->
        exists msg,
          getTargetTestResources getTypeConfig NewTestTargetObject fixtures
                                 (pre ++ bad :: post)
          = (built, Some msg)).
Proof.
  split_and!.
  - intros resources created H. unfold createTargetResources.
    by rewrite (createLoop_all _ _ [] created H).
  - intros pre bad post created err H Hbad. unfold createTargetResources.
    by eapply createLoop_fails.
  - intros names built H. unfold getTargetTestResources.
    by rewrite (targetTestLoop_all _ [] built H).
  - intros pre bad post built H Hbad. unfold getTargetTestResources.
    destruct (targetTestLoop_fails pre bad post [] built H Hbad) as [msg Hmsg].
    by exists msg.
Qed.

End Resources.

Lemma test_resource_loops_stop_at_the_first_error_witness :
  createTargetResources
    (fun (tc : string) (obj : nat) => if (obj =? 2)%nat then inr "exists" else inl (obj + 10)%nat)
    [mkTestResources 1%nat "configmaps"; mkTestResources 2%nat "secrets";
     mkTestResources 3%nat "replicasets"]
  = ([mkTestResources 1%nat "configmaps"; mkTestResources 2%nat "secrets";
      mkTestResources 3%nat "replicasets"],
     Some (FTCController.Wrapf "exists" "Error creating target resource %q")).
Proof.
  destruct (test_resource_loops_stop_at_the_first_error nat string unit
              (fun (tc : string) (obj : nat) =>
                 if (obj =? 2)%nat then inr "exists" else inl (obj + 10)%nat)
              (fun _ => inr "none") (fun _ _ => inr "none") ∅) as (_ & Hfail & _).
  apply (Hfail [mkTestResources 1%nat "configmaps"] (mkTestResources 2%nat "secrets")
               [mkTestResources 3%nat "replicasets"] [mkTestResources 11%nat "configmaps"]).
  - constructor; [split; reflexivity|constructor].
  - reflexivity.
Defined.

End FederateTestProps.

Module VersionProps.
Import CrudTester CrudChecks CrudChecksProps.

(** ** The propagated version *)

Lemma version_poll replies :
  poll versionCondition replies = PollDone <-> is_Some (polledVersion replies).
Proof.
  induction replies as [|r l IH]; simpl.
  - split; [done|]. by intros [x Hx].
  - destruct r; simpl; [|exact IH|exact IH]. split; [by eexists|done].
Qed.

Lemma expectedVersion_cases replies templateVersion overrideVersion name :
  expectedVersion replies templateVersion overrideVersion name
  = match polledVersion replies with
    | Some version =>
        if String.eqb (TemplateVersion version) templateVersion
           && String.eqb (OverrideVersion version) overrideVersion
        then (versionForCluster (ClusterVersions version) name, true)
        else ("", false)
    | None => ("", false)
    end.
Proof.
  unfold expectedVersion. pose proof (version_poll replies) as Hp.
  destruct (polledVersion replies) as [version|].
  - destruct Hp as [_ Hp]. rewrite Hp by (by eexists).
    by destruct (String.eqb _ _ && String.eqb _ _).
  - destruct (poll versionCondition replies); try done.
Qed.

Lemma versionForCluster_empty clusterVersions name :
  versionForCluster clusterVersions name = "" <->
  (forall version, (name, version) ∉ clusterVersions)
  \/ exists pre post,
       clusterVersions = pre ++ (name, "") :: post
       /\ forall version, (name, version) ∉ pre.
Proof.
  induction clusterVersions as [|[n v] l IH]; simpl.
  - split; [|done]. intros _. left. intros version. apply not_elem_of_nil.
  - destruct (String.eqb_spec n name) as [->|Hne].
    + split.
      * intros ->. right. exists [], l. split; [done|]. intros version. apply not_elem_of_nil.
      * intros [Hno|(pre & post & Heq & Hpre)].
        -- exfalso. apply (Hno v). by left.
        -- destruct pre as [|[n' v'] pre]; simplify_eq/=; [done|].
           exfalso. apply (Hpre v'). by left.
    + rewrite IH. split.
      * intros [Hno|(pre & post & -> & Hpre)].
        -- left. intros version Hin. apply elem_of_cons in Hin as [[= -> _]|Hin]; [done|].
           by apply (Hno version).
        -- right. exists ((n, v) :: pre), post. split; [done|].
           intros version Hin. apply elem_of_cons in Hin as [[= -> _]|Hin]; [done|].
           by apply (Hpre version).
      * intros [Hno|(pre & post & Heq & Hpre)].
        -- left. intros version Hin. apply (Hno version). by right.
        -- destruct pre as [|[n' v'] pre]; simplify_eq/=.
           right. exists pre, post. split; [done|]. intros version Hin.
           apply (Hpre version). by right.
Qed.

(** X19. The propagated version in the waits of CheckPropagation. The wait
    for a deletion takes the version as removed exactly if the version
    object was retrieved, the first one retrieved carries the template and
    override hashes of the federated object, and it records no version for
    the cluster, or an empty one first. waitForResource has a version to
    wait for exactly if that version object carries the hashes and records
    a version that is not empty for the cluster. While the hashes differ
    neither wait can end, and no version lets both end. *)
Theorem version_is_removed_or_expected
    (replies : list VersionReply) (templateVersion overrideVersion name : string) :
  (versionRemoved replies templateVersion overrideVersion name = true <->
   exists version,
     polledVersion replies = Some version
     /\ TemplateVersion version = templateVersion
     /\ OverrideVersion version = overrideVersion
     /\ ((forall v, (name, v) ∉ ClusterVersions version)
         \/ exists pre post,
              ClusterVersions version = pre ++ (name, "") :: post
              /\ forall v, (name, v) ∉ pre))
  /\ (versionExpected replies templateVersion overrideVersion name = true <->
      exists version,
        polledVersion replies = Some version
        /\ TemplateVersion version = templateVersion
        /\ OverrideVersion version = overrideVersion
        /\ versionForCluster (ClusterVersions version) name <> "")
  /\ (versionRemoved replies templateVersion overrideVersion name
      && versionExpected replies templateVersion overrideVersion name = false).
Proof.
  unfold versionRemoved, versionExpected. rewrite expectedVersion_cases.
  destruct (polledVersion replies) as [version|].
  2:{ split_and!; try done; split; try done; by intros (v & ? & _). }
  destruct (String.eqb_spec (TemplateVersion version) templateVersion) as [Ht|Ht];
    destruct (String.eqb_spec (OverrideVersion version) overrideVersion) as [Ho|Ho];
    cbn [andb].
  2-4: split_and!; try done; split; try done; intros (v & [= <-] & ? & ? & _); done.
  split_and!.
  - rewrite andb_true_r. rewrite String.eqb_eq, versionForCluster_empty. split.
    + intros H. by exists version.
    + by intros (v & [= <-] & _ & _ & H).
  - rewrite negb_true_iff. split.
    + intros H. exists version. split_and!; try done. intros Heq. by rewrite Heq in H.
    + intros (v & [= <-] & _ & _ & H).
      destruct (versionForCluster (ClusterVersions version) name); done.
  - rewrite andb_true_r.
    destruct (versionForCluster (ClusterVersions version) name); done.
Qed.

Lemma version_is_removed_or_expected_witness :
  versionRemoved [VersionNotFound; VersionFound (mkVersion "t1" "o1" [("c1", "12")])]
                 "t1" "o1" "c2" = true.
Proof.
  apply version_is_removed_or_expected. eexists. split; [reflexivity|].
  split; [reflexivity|]. split; [reflexivity|]. left. intros v Hin.
  apply elem_of_cons in Hin as [Hin|Hin]; [discriminate|]. by apply elem_of_nil in Hin.
Defined.

End VersionProps.
